(** * Knee discovery (knee_discovery.py): a shallow embedding and its properties

    The Python module measures how a detector's mAP falls as the input
    resolution is degraded and marks, per object class, the "knee" of the
    accuracy-versus-degradation curve.  This file embeds the functions of
    [knee_discovery.py] and proves properties of them.

    Modelling choices, all taken from the source:
    - Python and numpy floats are IEEE-754 binary64 values: Rocq's primitive
      [float], whose operations are the same correctly rounded ones;
    - a raised Python exception is the [Raise] result of an error monad;
    - the mutable pipeline context ([ctxt]), the files on disk and the
      persisted results table form an explicit [World] threaded through
      every call;
    - the third-party [KneeLocator] and the evaluation collaborator
      [run_eval] are parameters of the development. *)

From Stdlib Require Import Floats ZArith Lia List String Ascii Bool DecimalString Permutation.
Import ListNotations.
#[local] Set Warnings "-inexact-float".

(** ** Python values and exceptions *)

Module Py.

Inductive exn : Type :=
| ValueError
| KeyError
| IndexError
| OverflowError
| TypeError
| ZeroDivisionError
| FileNotFoundError.

Inductive result (A : Type) : Type :=
| Ok (a : A)
| Raise (e : exn).

Arguments Ok {A} a.
Arguments Raise {A} e.

Definition bind {A B : Type} (r : result A) (k : A -> result B) : result B :=
  match r with
  | Ok a => k a
  | Raise e => Raise e
  end.

Fixpoint mapM {A B : Type} (f : A -> result B) (l : list A) : result (list B) :=
  match l with
  | [] => Ok []
  | a :: l' =>
      bind (f a) (fun b => bind (mapM f l') (fun bs => Ok (b :: bs)))
  end.

(** Element-wise combination of two columns of one frame (same index). *)
Fixpoint map2 {A B C : Type} (f : A -> B -> C) (l1 : list A) (l2 : list B) : list C :=
  match l1, l2 with
  | a :: l1', b :: l2' => f a b :: map2 f l1' l2'
  | _, _ => []
  end.

(** [[v for i, v in enumerate(l) if mask[i]]] *)
Fixpoint select {A : Type} (mask : list bool) (l : list A) : list A :=
  match mask, l with
  | m :: mask', a :: l' => if m then a :: select mask' l' else select mask' l'
  | _, _ => []
  end.

(** [int -> float] conversion ([astype(float)], mixed arithmetic), correctly
    rounded for [-2^63 < z < 2^63], the values of a numpy int64 column but
    its least one. *)
Definition float_of_Z (z : Z) : float :=
  match z with
  | Z0 => 0%float
  | Zpos _ => of_uint63 (Uint63.of_Z z)
  | Zneg p => (- of_uint63 (Uint63.of_Z (Zpos p)))%float
  end.

(** The integer value [m * 2^e] of a finite float, rounded toward minus
    infinity ([Z.shiftl] by a negative amount is a floor division). *)
Definition floor_mag (s : bool) (m : positive) (e : Z) : Z :=
  Z.shiftl (if s then Zneg m else Zpos m) e.

(** [int(x)]: truncation toward zero; [ValueError] on NaN and
    [OverflowError] on an infinity. *)
Definition int_of_float (x : float) : result Z :=
  match Prim2SF x with
  | S754_zero _ => Ok 0%Z
  | S754_finite s m e =>
      Ok (if s then (- floor_mag false m e)%Z else floor_mag false m e)
  | S754_nan => Raise ValueError
  | S754_infinity _ => Raise OverflowError
  end.

(** [math.floor(x)] and [math.ceil(x)]. *)
Definition math_floor (x : float) : result Z :=
  match Prim2SF x with
  | S754_zero _ => Ok 0%Z
  | S754_finite s m e => Ok (floor_mag s m e)
  | S754_nan => Raise ValueError
  | S754_infinity _ => Raise OverflowError
  end.

Definition math_ceil (x : float) : result Z :=
  match Prim2SF x with
  | S754_zero _ => Ok 0%Z
  | S754_finite s m e => Ok (- floor_mag (negb s) m e)%Z
  | S754_nan => Raise ValueError
  | S754_infinity _ => Raise OverflowError
  end.

(** [math.sqrt(x)]: "math domain error" ([ValueError]) on a negative
    argument; NaN, zeros and plus infinity pass through. *)
Definition math_sqrt (x : float) : result float :=
  if (x <? 0)%float then Raise ValueError else Ok (PrimFloat.sqrt x).

(** [numpy.isclose(a, b, atol=atol)] with its default [rtol = 1e-05] and
    [equal_nan = False]:
    [(abs(a - b) <= atol + rtol * abs(b)) & isfinite(b) | (a == b)]. *)
Definition rtol : float := 1e-05%float.

Definition isclose (a b atol : float) : bool :=
  ((abs (a - b) <=? atol + rtol * abs b) && is_finite b || (a =? b))%float.

(** Insertion sort by a comparison; [lt k1 k2] says that [k1] must come
    before [k2], and an element is put in front of the first element it must
    come before. *)
Section Sorting.

Context {A : Type} (lt : A -> A -> bool).

Fixpoint insert_sorted (a : A) (l : list A) : list A :=
  match l with
  | [] => [a]
  | b :: l' => if lt a b then a :: l else b :: insert_sorted a l'
  end.

Definition sort_by (l : list A) : list A :=
  fold_right insert_sorted [] l.

End Sorting.

(** numpy's order on floats: ascending, NaN after every number. *)
Definition np_lt (a b : float) : bool :=
  ((a <? b) || (is_nan b && negb (is_nan a)))%float.

(** [numpy.argsort(values)]: the positions of [values] in ascending order.
    Positions with equal keys stay in their order, as numpy's default sort
    leaves them on a short array (it gives no guarantee in general). *)
Definition argsort (values : list float) : list nat :=
  map fst
    (sort_by (fun p q => np_lt (snd p) (snd q)
                         || negb (np_lt (snd q) (snd p)) && (fst p <? fst q)%nat)
       (combine (seq 0 (List.length values)) values)).

(** [values[indices]] for an index array produced by [argsort]. *)
Definition take {A : Type} (d : A) (values : list A) (indices : list nat) : list A :=
  map (fun i => nth i values d) indices.

(** [sorted(s)] for a collection of floats. *)
Definition sorted (s : list float) : list float :=
  sort_by (fun a b => (a <? b)%float) s.

(** The first position at which [mask] holds: [numpy.where(mask)[0][0]],
    [None] when [numpy.where(mask)[0].size == 0]. *)
Fixpoint first_true (mask : list bool) : option nat :=
  match mask with
  | [] => None
  | m :: mask' => if m then Some 0 else option_map S (first_true mask')
  end.

(** [range(start, stop, step)]; [ValueError] when [step] is zero. *)
Definition range (start stop step : Z) : result (list Z) :=
  if (step =? 0)%Z then Raise ValueError
  else
    let n :=
      if (0 <? step)%Z then ((stop - start + step - 1) / step)%Z
      else ((start - stop - step - 1) / (- step))%Z in
    Ok (map (fun i => (start + Z.of_nat i * step)%Z) (seq 0 (Z.to_nat n))).

End Py.

Import Py.

Declare Scope py_scope.
Notation "x <- m ;; k" := (bind m (fun x => k))
  (at level 61, m at next level, right associativity) : py_scope.
Notation "' pat <- m ;; k" := (bind m (fun x => match x with pat => k end))
  (at level 61, pat pattern, m at next level, right associativity) : py_scope.
#[local] Open Scope py_scope.

(** ** Data model *)

(** One row of the results table: the columns [object_name],
    [original_resolution_width/height], [effective_resolution_width/height],
    [mAP], [degradation_factor] and [knee]. *)
Record Row : Type := {
  object_name : string;
  original_resolution_width : Z;
  original_resolution_height : Z;
  effective_resolution_width : Z;
  effective_resolution_height : Z;
  mAP : float;
  degradation_factor : float;
  knee : bool
}.

(** A pandas DataFrame with a positional index.  The two optional columns
    are tracked by [has_degradation_factor] and [has_knee]; the fields of a
    row under an absent column carry no information. *)
Record DataFrame : Type := {
  has_degradation_factor : bool;
  has_knee : bool;
  rows : list Row
}.

(** A knee event handed to [update_knee_results]. *)
Record KneeEvent : Type := {
  knee_class : string;
  knee_original_resolution : float * float;
  knee_factor : float;
  knee_mAP : float
}.

(** Everything a call can read or change besides its arguments. *)
Record World : Type := {
  results_cache_df : option DataFrame;       (* ctxt.results_cache_df *)
  eval_results_file : option DataFrame;      (* the CSV, [None] when absent *)
  val_image_filename_set : option (list string);
  files : list string;                       (* paths that exist *)
  listdir : string -> option (list string);  (* os.listdir *)
  unreadable : string -> bool;               (* images PIL raises OSError on *)
  knee_results : list KneeEvent
}.

Definition set_results_cache_df (w : World) (c : option DataFrame) : World :=
  {| results_cache_df := c;
     eval_results_file := eval_results_file w;
     val_image_filename_set := val_image_filename_set w;
     files := files w;
     listdir := listdir w;
     unreadable := unreadable w;
     knee_results := knee_results w |}.

Definition set_eval_results_file (w : World) (f : option DataFrame) : World :=
  {| results_cache_df := results_cache_df w;
     eval_results_file := f;
     val_image_filename_set := val_image_filename_set w;
     files := files w;
     listdir := listdir w;
     unreadable := unreadable w;
     knee_results := knee_results w |}.

Definition set_val_image_filename_set (w : World) (s : option (list string)) : World :=
  {| results_cache_df := results_cache_df w;
     eval_results_file := eval_results_file w;
     val_image_filename_set := s;
     files := files w;
     listdir := listdir w;
     unreadable := unreadable w;
     knee_results := knee_results w |}.

Definition set_files (w : World) (fs : list string) : World :=
  {| results_cache_df := results_cache_df w;
     eval_results_file := eval_results_file w;
     val_image_filename_set := val_image_filename_set w;
     files := fs;
     listdir := listdir w;
     unreadable := unreadable w;
     knee_results := knee_results w |}.

(** Modelled from the spec: [update_knee_results] of [eval.eval] is not in
    the repository's sources here; the spec describes it as the collaborator
    that records a knee event (class name, original resolution, degradation
    factor, metric) in an append-only log distinct from the table's flag. *)
Definition update_knee_results (w : World) (class_name : string)
    (original_resolution : float * float) (x y : float) : World :=
  {| results_cache_df := results_cache_df w;
     eval_results_file := eval_results_file w;
     val_image_filename_set := val_image_filename_set w;
     files := files w;
     listdir := listdir w;
     unreadable := unreadable w;
     knee_results :=
       knee_results w ++
       [{| knee_class := class_name;
           knee_original_resolution := original_resolution;
           knee_factor := x;
           knee_mAP := y |}] |}.

(** ** calc_degradation_factor *)

(** The four arguments are float Series over one index; the result is the
    Series [sqrt((eff_w / orig_w) * (eff_h / orig_h))], row by row. *)
Definition calc_degradation_factor
    (orig_res_w orig_res_h eff_res_w eff_res_h : list float) : result (list float) :=
  let degradation_factor_w := map2 PrimFloat.div eff_res_w orig_res_w in
  let degradation_factor_h := map2 PrimFloat.div eff_res_h orig_res_h in
  let degradation_factor_area :=
    map2 PrimFloat.mul degradation_factor_w degradation_factor_h in
  mapM math_sqrt degradation_factor_area.

(** The formula the specification gives as an equivalent reading:
    [sqrt((ew * eh) / (ow * oh))], in the same arithmetic. *)
Definition area_ratio_factor (ow oh ew eh : float) : float :=
  PrimFloat.sqrt ((ew * eh) / (ow * oh))%float.

(** ** calculate_knee *)

Definition noise_floor : float := 0.01%float.

Section Knee.

(** [KneeLocator(x, y, curve='concave', direction='increasing', online=True)]
    of the kneed package: the pair of its [all_knees] (a set, given in some
    order) and [all_knees_y]. *)
Variable KneeLocator : list float -> list float -> list float * list float.

(** [for i, x in enumerate(x_out_list): update_knee_results(..., x, y_out_list[i])] *)
Fixpoint record_knees (w : World) (class_name : string) (res : float * float)
    (x_out_list y_out_list : list float) : result World :=
  match x_out_list with
  | [] => Ok w
  | x :: xs =>
      match y_out_list with
      | [] => Raise IndexError
      | y :: ys => record_knees (update_knee_results w class_name res x y) class_name res xs ys
      end
  end.

Definition calculate_knee (w : World) (class_name : string)
    (results_class_df : list Row) : result ((list float * list float) * World) :=
  let orig_res_w := map (fun r => float_of_Z (original_resolution_width r)) results_class_df in
  let orig_res_h := map (fun r => float_of_Z (original_resolution_height r)) results_class_df in
  let eff_res_w := map (fun r => float_of_Z (effective_resolution_width r)) results_class_df in
  let eff_res_h := map (fun r => float_of_Z (effective_resolution_height r)) results_class_df in
  let mAP_values := map mAP results_class_df in
  degradation_factor_list <-
    calc_degradation_factor orig_res_w orig_res_h eff_res_w eff_res_h ;;
  let width_list := orig_res_w in
  let height_list := orig_res_h in
  if forallb (fun m => (m <=? noise_floor)%float) mAP_values then Ok (([], []), w)
  else
    let keep := map (fun m => (noise_floor <? m)%float) mAP_values in
    let x := select keep degradation_factor_list in
    let y := filter (fun m => (noise_floor <? m)%float) mAP_values in
    let ws := select keep width_list in
    let hs := select keep height_list in
    if (List.length x =? 0)%nat || (List.length y =? 0)%nat then Ok (([], []), w)
    else
      let kneedle := KneeLocator x y in
      let x_out_list := sorted (fst kneedle) in
      let y_out_list := snd kneedle in
      match x_out_list, ws, hs with
      | [], _, _ => Ok ((x_out_list, y_out_list), w)
      | _, w0 :: _, h0 :: _ =>
          w' <- record_knees w class_name (w0, h0) x_out_list y_out_list ;;
          Ok ((x_out_list, y_out_list), w')
      | _, _, _ => Raise IndexError
      end.

End Knee.

(** ** Paths and file names *)

Module Path.

#[local] Open Scope string_scope.

Definition exts : list string :=
  [".tif"; ".jpg"; ".jpeg"; ".png"; ".gif"; ".bmp"; ".tiff"].

Definition label_ext : string := ".txt".

(** [s.endswith(suffix)] *)
Definition endswith (s suffix : string) : bool :=
  let n := String.length s in
  let k := String.length suffix in
  (k <=? n)%nat && String.eqb (substring (n - k) k s) suffix.

(** [s.endswith(exts)] for the tuple [exts]. *)
Definition endswith_any (s : string) (suffixes : list string) : bool :=
  existsb (endswith s) suffixes.

(** The position after the last occurrence of [c] in [s] (0 when absent). *)
Fixpoint after_last (c : ascii) (s : string) : nat :=
  match s with
  | EmptyString => 0
  | String a s' =>
      match after_last c s' with
      | 0 => if Ascii.eqb a c then 1 else 0
      | S k => S (S k)
      end
  end.

(** [os.path.basename(p)] *)
Definition basename (p : string) : string :=
  let i := after_last "/" p in
  substring i (String.length p - i) p.

(** [os.path.join(d, name)] for a relative [name]. *)
Definition join (d name : string) : string :=
  if String.eqb d "" then name
  else if endswith d "/" then d ++ name
  else d ++ "/" ++ name.

Definition lower_ascii (a : ascii) : ascii :=
  let n := nat_of_ascii a in
  if (65 <=? n)%nat && (n <=? 90)%nat then ascii_of_nat (n + 32) else a.

(** [s.lower()] on ASCII letters. *)
Fixpoint lower (s : string) : string :=
  match s with
  | EmptyString => EmptyString
  | String a s' => String (lower_ascii a) (lower s')
  end.

(** [s.split(c)] *)
Fixpoint split (c : ascii) (s : string) : list string :=
  match s with
  | EmptyString => [EmptyString]
  | String a s' =>
      if Ascii.eqb a c then EmptyString :: split c s'
      else
        match split c s' with
        | x :: xs => String a x :: xs
        | [] => [String a EmptyString]
        end
  end.

(** What [Path(p)] keeps of the string [p]: the root, which is ["/"] for a
    leading separator and ["//"] for exactly two of them, and the components
    that are neither empty nor ["."]. *)
Definition root (p : string) : string :=
  match p with
  | String "/" (String "/" (String "/" _)) => "/"
  | String "/" (String "/" _) => "//"
  | String "/" _ => "/"
  | _ => ""
  end.

Definition parts (p : string) : list string :=
  filter (fun x => negb (String.eqb x "" || String.eqb x ".")) (split "/" p).

(** [str(Path(p))]: the root and the components joined by the separator,
    ["."] when there is neither. *)
Definition normalize (p : string) : string :=
  let s := root p ++ String.concat "/" (parts p) in
  if String.eqb s "" then "." else s.

(** [Path(p).suffix]: the last dot of the final component and what follows
    it, unless that dot starts or ends the component. *)
Definition suffix (p : string) : string :=
  let name := basename (normalize p) in
  let i := after_last "." name in
  if (2 <=? i)%nat && (i <? String.length name)%nat
  then substring (i - 1) (String.length name - (i - 1)) name
  else "".

(** [str(Path(p).with_suffix(ext))] for a path with a suffix: the suffix is
    replaced in the final component of the path as [Path] holds it. *)
Definition with_suffix (p ext : string) : string :=
  let q := normalize p in
  substring 0 (String.length q - String.length (suffix p)) q ++ ext.

(** [replace_image_ext_with_label(filepath)]: a [Path] in the first branch,
    read through its string by [os.path.exists] and [os.path.basename]. *)
Definition replace_image_ext_with_label (filepath : string) : string :=
  if existsb (String.eqb (lower (suffix filepath))) exts
  then with_suffix filepath label_ext
  else filepath.

End Path.

(** ** Configuration *)

(** [config['preprocess_methods'][method]]: the keys this module reads.  A
    path template is the function its [format] call computes. *)
Record MethodParams : Type := {
  image_size : Z;
  stride : option Z;
  val_baseline_subdir : Z -> Z -> option Z -> string;
  val_degraded_subdir : Z -> Z -> Z -> Z -> option Z -> string
}.

(** The read-only part of the pipeline context. *)
Record Ctxt : Type := {
  preprocess_method : string;
  preprocess_methods : string -> option MethodParams;
  preprocessing_dir_path : string;
  search_resolution_range : float * float;
  search_resolution_step : float;
  clean_subdir : bool;
  knee_discovery_search_algorithm : option string;
  cache_results : bool
}.

(** ** degrade_images *)

Definition path_exists (w : World) (p : string) : bool :=
  existsb (String.eqb p) (files w).

(** A file comes into existence ([shutil.copyfile], [Image.save],
    [os.makedirs]). *)
Definition create (w : World) (p : string) : World :=
  if path_exists w p then w else set_files w (files w ++ [p]).

(** [ctxt.val_image_filename_set.discard(name)] *)
Definition discard (w : World) (name : string) : World :=
  set_val_image_filename_set w
    (option_map (filter (fun x => negb (String.eqb x name)))
       (val_image_filename_set w)).

(** [set(l)] as the list of its distinct elements. *)
Fixpoint distinct (l : list string) : list string :=
  match l with
  | [] => []
  | a :: l' => if existsb (String.eqb a) l' then distinct l' else a :: distinct l'
  end.

(** One pass of the [for idx, val_image_filename in enumerate(...)] loop.
    The [try] block is the image being readable or not: [unreadable] are the
    images on which it raises the [OSError] that the code catches.  The sizes
    are pixel counts, at least 1; what PIL does with a size that is not
    positive is outside the model. *)
Definition degrade_one (orig_image_size degraded_image_size : Z * Z)
    (degraded_dir : string) (acc : World * Z) (val_image_filename : string) : World * Z :=
  let '(w, corrupted_counter) := acc in
  let val_label_filename := Path.replace_image_ext_with_label val_image_filename in
  if path_exists w val_image_filename && path_exists w val_label_filename then
    let val_degraded_image_filename :=
      Path.join degraded_dir (Path.basename val_image_filename) in
    let val_degraded_label_filename :=
      Path.join degraded_dir (Path.basename val_label_filename) in
    if negb (path_exists w val_degraded_image_filename) then
      if (fst orig_image_size =? fst degraded_image_size)%Z &&
         (snd orig_image_size =? snd degraded_image_size)%Z
      then
        let w1 := create w val_degraded_image_filename in
        (if negb (path_exists w1 val_degraded_label_filename)
         then create w1 val_degraded_label_filename else w1,
         corrupted_counter)
      else if unreadable w val_image_filename then
        (discard w val_image_filename, (corrupted_counter + 1)%Z)
      else
        let w1 := create w val_degraded_image_filename in
        (if negb (path_exists w1 val_degraded_label_filename)
         then create w1 val_degraded_label_filename else w1,
         corrupted_counter)
    else (w, corrupted_counter)
  else (discard w val_image_filename, corrupted_counter).

(** Lines 67-84: the directory of the baseline validation images. *)
Definition val_baseline_dir_of (ctxt : Ctxt) (orig_image_size : Z * Z) : result string :=
  let method := preprocess_method ctxt in
  match preprocess_methods ctxt method with
  | None => Raise KeyError
  | Some params =>
      let val_template := val_baseline_subdir params in
      let maxwidth := fst orig_image_size in
      let maxheight := snd orig_image_size in
      if String.eqb method "padding" then
        Ok (Path.join (preprocessing_dir_path ctxt) (val_template maxwidth maxheight None))
      else if String.eqb method "tiling" then
        match stride params with
        | None => Raise KeyError
        | Some s =>
            Ok (Path.join (preprocessing_dir_path ctxt)
                  (val_template maxwidth maxheight (Some s)))
        end
      else Raise ValueError
  end.

(** Lines 89-93: the file names the call works on, and the working set
    kept in the context. *)
Definition val_image_filenames_of (w : World) (val_baseline_dir : string)
    : result (list string * World) :=
  match val_image_filename_set w with
  | None =>
      match listdir w val_baseline_dir with
      | None => Raise FileNotFoundError
      | Some names =>
          let l := map (Path.join val_baseline_dir)
                     (filter (fun x => Path.endswith_any x Path.exts) names) in
          Ok (l, set_val_image_filename_set w (Some (distinct l)))
      end
  | Some s => Ok (s, w)
  end.

Definition degrade_images (ctxt : Ctxt) (w : World)
    (orig_image_size degraded_image_size : Z * Z) (degraded_dir : string)
    (corrupted_counter : Z) : result ((Z * Z) * World) :=
  val_baseline_dir <- val_baseline_dir_of ctxt orig_image_size ;;
  let w := create w degraded_dir in
  '(val_image_filenames, w) <- val_image_filenames_of w val_baseline_dir ;;
  let num_images := Z.of_nat (List.length val_image_filenames) in
  let '(w, corrupted_counter) :=
    fold_left (degrade_one orig_image_size degraded_image_size degraded_dir)
      val_image_filenames (w, corrupted_counter) in
  Ok ((num_images, corrupted_counter), w).

(** ** The evaluation sweep and the refinement loop *)

Definition desired_tolerance : float := 1e-2%float.
Definition mAP_tolerance : float := 1e-3%float.
Definition max_iterations : Z := 10.

(** Operations on frames. *)

Definition set_degradation_factor (r : Row) (d : float) : Row :=
  {| object_name := object_name r;
     original_resolution_width := original_resolution_width r;
     original_resolution_height := original_resolution_height r;
     effective_resolution_width := effective_resolution_width r;
     effective_resolution_height := effective_resolution_height r;
     mAP := mAP r;
     degradation_factor := d;
     knee := knee r |}.

Definition set_knee (r : Row) (k : bool) : Row :=
  {| object_name := object_name r;
     original_resolution_width := original_resolution_width r;
     original_resolution_height := original_resolution_height r;
     effective_resolution_width := effective_resolution_width r;
     effective_resolution_height := effective_resolution_height r;
     mAP := mAP r;
     degradation_factor := degradation_factor r;
     knee := k |}.

(** The rows of a frame with their index labels (positions). *)
Definition indexed (df : DataFrame) : list (nat * Row) :=
  combine (seq 0 (List.length (rows df))) (rows df).

(** [df.loc[sel, 'knee'] = v].  The assignment creates the column when it
    is absent; the rows it does not select then hold a missing value, which
    is read as "not flagged". *)
Definition loc_set_knee (df : DataFrame) (sel : nat -> Row -> bool) (v : bool) : DataFrame :=
  {| has_degradation_factor := has_degradation_factor df;
     has_knee := true;
     rows :=
       map (fun ir =>
              if sel (fst ir) (snd ir) then set_knee (snd ir) v
              else if has_knee df then snd ir else set_knee (snd ir) false)
           (indexed df) |}.

(** [results_df['object_name'].unique()]: in order of first appearance. *)
Fixpoint unique (l : list string) : list string :=
  match l with
  | [] => []
  | a :: l' => a :: filter (fun x => negb (String.eqb x a)) (unique l')
  end.

(** A slice [results_df[results_df['object_name'] == class_name]]: the
    selected rows under their labels in [results_df]. *)
Record Slice : Type := {
  slice_has_degradation_factor : bool;
  slice_rows : list (nat * Row)
}.

Definition class_slice (df : DataFrame) (class_name : string) : Slice :=
  {| slice_has_degradation_factor := has_degradation_factor df;
     slice_rows :=
       filter (fun ir => String.eqb (object_name (snd ir)) class_name) (indexed df) |}.

(** [results_class_df['degradation_factor']]: [KeyError] without the column. *)
Definition slice_degradation_factors (s : Slice) : result (list float) :=
  if slice_has_degradation_factor s
  then Ok (map (fun ir => degradation_factor (snd ir)) (slice_rows s))
  else Raise KeyError.

(** What the local name [results_df] is bound to: the frame, and whether
    it is the object held in [ctxt.results_cache_df] (an in-place change
    is then a change of the cache). *)
Record Binding : Type := {
  results_df : DataFrame;
  cached : bool
}.

Definition commit (w : World) (b : Binding) : World :=
  if cached b then set_results_cache_df w (Some (results_df b)) else w.

(** The load at the start of the run and after each evaluation: the cache
    when there is one, else the CSV when it exists. *)
Definition load_results (w : World) : option Binding :=
  match results_cache_df w with
  | Some df => Some {| results_df := df; cached := true |}
  | None =>
      match eval_results_file w with
      | Some df => Some {| results_df := df; cached := false |}
      | None => None
      end
  end.

(** The state of the [while] loop of one class. *)
Record LoopState : Type := {
  world : World;
  binding : Binding;
  results_class_df : Slice;
  new_knee_degradation_factor : option float;
  old_knee_degradation_factor : option float;
  new_knee_mAP : option float;
  old_knee_mAP : option float;
  iteration : Z
}.

(** How one pass through the loop body ends. *)
Inductive step : Type :=
| Continue (st : LoopState)
| Break (st : LoopState).

(** How the loop ends; [NoFuel] is the model's "still running". *)
Inductive loop_end : Type :=
| Exit (st : LoopState)
| Broke (st : LoopState)
| Raised (e : exn)
| NoFuel.

(** The side of the knee to bisect (lines 455-468): the pair
    [(degradation1, degradation2)], or [None] for "no further refinement". *)
Definition choose_side (new_knee : float)
    (left_degradation right_degradation : option float)
    (delta_mAP_left delta_mAP_right : float) : option (float * float) :=
  match (if (delta_mAP_right <? delta_mAP_left)%float then left_degradation else None),
        right_degradation with
  | Some l, _ => Some (l, new_knee)          (* choose left side *)
  | None, Some r => Some (new_knee, r)       (* choose right side *)
  | None, None => None                       (* cannot refine further *)
  end.

(** Lines 436-453: the left and the right neighbour of the knee sample in
    the sorted arrays, each with its mAP difference ([None] and [0] when
    there is no neighbour on that side). *)
Definition left_neighbour (degradation_factors_sorted mAP_values_sorted : list float)
    (knee_index : nat) (new_mAP : float) : option float * float :=
  if (0 <? knee_index)%nat then
    (Some (nth (knee_index - 1) degradation_factors_sorted nan),
     abs (new_mAP - nth (knee_index - 1) mAP_values_sorted nan)%float)
  else (None, 0%float).

Definition right_neighbour (degradation_factors_sorted mAP_values_sorted : list float)
    (knee_index : nat) (new_mAP : float) : option float * float :=
  if (knee_index <? List.length degradation_factors_sorted - 1)%nat then
    (Some (nth (knee_index + 1) degradation_factors_sorted nan),
     abs (new_mAP - nth (knee_index + 1) mAP_values_sorted nan)%float)
  else (None, 0%float).

(** Lines 436-471: the new degradation factor to sample, the midpoint of
    the chosen side. *)
Definition new_candidate (new_knee : float)
    (degradation_factors_sorted mAP_values_sorted : list float)
    (knee_index : nat) (new_mAP : float) : option float :=
  let '(left_degradation, delta_mAP_left) :=
    left_neighbour degradation_factors_sorted mAP_values_sorted knee_index new_mAP in
  let '(right_degradation, delta_mAP_right) :=
    right_neighbour degradation_factors_sorted mAP_values_sorted knee_index new_mAP in
  match choose_side new_knee left_degradation right_degradation
          delta_mAP_left delta_mAP_right with
  | Some (degradation1, degradation2) => Some ((degradation1 + degradation2) / 2)%float
  | None => None
  end.

(** Lines 480-488: the degraded width and height for a degradation factor. *)
Definition degraded_resolution (new_degradation : float) (width height : Z) : result (Z * Z) :=
  degraded_width <- int_of_float (new_degradation * float_of_Z width)%float ;;
  degraded_height <- int_of_float (new_degradation * float_of_Z height)%float ;;
  let degraded_width := Z.max 1 (Z.min width degraded_width) in
  let degraded_height := Z.max 1 (Z.min height degraded_height) in
  Ok (degraded_width, degraded_height).

Section Run.

Variable KneeLocator : list float -> list float -> list float * list float.

(** [run_eval(ctxt, original, effective, directory, "unknown")] of
    [eval.eval]: it evaluates the images of the directory and updates the
    persisted table and the cache; the module only re-reads them. *)
Variable run_eval : World -> Z * Z -> Z * Z -> string -> World.

Variable ctxt : Ctxt.

Definition first_knee (x_list y_list : list float) : option float :=
  match x_list, y_list with
  | x :: _, _ :: _ => Some x
  | _, _ => None
  end.

(** [run_eval_on_degraded_images]: the result carries the two numbers of
    the final report, [corrupted_counter] and [max_images]. *)
Definition run_eval_on_degraded_images (w : World) : result ((Z * Z) * World) :=
  match preprocess_methods ctxt (preprocess_method ctxt) with
  | None => Raise KeyError
  | Some pp_params =>
      let val_template := val_degraded_subdir pp_params in
      let width := image_size pp_params in
      let height := image_size pp_params in
      stride_ <-
        (if String.eqb (preprocess_method ctxt) "tiling" then
           match stride pp_params with
           | Some s => Ok (Some s)
           | None => Raise KeyError
           end
         else Ok None) ;;
      let longer := Z.max width height in
      let shorter := Z.min width height in
      shorter_mult <-
        (if (longer =? 0)%Z then Raise ZeroDivisionError
         else Ok (float_of_Z shorter / float_of_Z longer)%float) ;;
      long_low_range <-
        math_ceil (fst (search_resolution_range ctxt) * float_of_Z longer)%float ;;
      long_high <-
        math_ceil (snd (search_resolution_range ctxt) * float_of_Z longer)%float ;;
      let long_high_range := (long_high + 1)%Z in
      step_ <- math_floor (search_resolution_step ctxt * float_of_Z longer)%float ;;
      resolutions <- range long_low_range long_high_range step_ ;;
      fold_left
        (fun acc degraded_long_res =>
           '(corrupted_counter, max_images, w) <- acc ;;
           degraded_short_res <-
             math_ceil (shorter_mult * float_of_Z degraded_long_res)%float ;;
           let degraded_width :=
             if (width =? longer)%Z then degraded_long_res else degraded_short_res in
           let degraded_height :=
             if (height =? longer)%Z then degraded_short_res else degraded_long_res in
           let val_degraded_dir :=
             Path.join (preprocessing_dir_path ctxt)
               (val_template width height degraded_width degraded_height stride_) in
           '(num_images, corrupted_counter, w) <-
             degrade_images ctxt w (width, height) (degraded_width, degraded_height)
               val_degraded_dir corrupted_counter ;;
           let max_images := if (max_images =? 0)%Z then num_images else max_images in
           Ok (corrupted_counter, max_images,
               run_eval w (width, height) (degraded_width, degraded_height) val_degraded_dir))
        resolutions (Ok (0%Z, 0%Z, w))
  end.

(** The [while] condition (lines 397-400). *)
Definition loop_condition (st : LoopState) : bool :=
  (iteration st <? max_iterations)%Z &&
  match new_knee_degradation_factor st with
  | None => false
  | Some new_knee =>
      match old_knee_degradation_factor st with
      | None => true
      | Some old_knee => negb (isclose new_knee old_knee desired_tolerance)
      end
  end.

(** The body of the [while] loop (lines 401-519) for the class
    [class_name]. *)
Definition loop_body (class_name : string) (st : LoopState) : result step :=
  let iteration' := (iteration st + 1)%Z in
  match new_knee_degradation_factor st with
  | None => Raise TypeError
  | Some new_knee =>
      let old_knee' := Some new_knee in
      degradation_factors <- slice_degradation_factors (results_class_df st) ;;
      let mAP_values := map (fun ir => mAP (snd ir)) (slice_rows (results_class_df st)) in
      let sorted_indices := argsort degradation_factors in
      let degradation_factors_sorted := take nan degradation_factors sorted_indices in
      let mAP_values_sorted := take nan mAP_values sorted_indices in
      match first_true
              (map (fun d => isclose d new_knee 1e-5%float) degradation_factors_sorted) with
      | None =>
          (* knee degradation factor not found in degradation factors *)
          Ok (Break {| world := world st;
                       binding := binding st;
                       results_class_df := results_class_df st;
                       new_knee_degradation_factor := Some new_knee;
                       old_knee_degradation_factor := old_knee';
                       new_knee_mAP := new_knee_mAP st;
                       old_knee_mAP := old_knee_mAP st;
                       iteration := iteration' |})
      | Some knee_index =>
          let new_mAP := nth knee_index mAP_values_sorted nan in
          if match old_knee_mAP st with
             | Some old_mAP => (abs (new_mAP - old_mAP) <? mAP_tolerance)%float
             | None => false
             end
          then
            (* convergence achieved based on mAP change *)
            Ok (Break {| world := world st;
                         binding := binding st;
                         results_class_df := results_class_df st;
                         new_knee_degradation_factor := Some new_knee;
                         old_knee_degradation_factor := old_knee';
                         new_knee_mAP := Some new_mAP;
                         old_knee_mAP := old_knee_mAP st;
                         iteration := iteration' |})
          else
            let stopped (w : World) (b : Binding) :=
              Break {| world := w;
                       binding := b;
                       results_class_df := results_class_df st;
                       new_knee_degradation_factor := Some new_knee;
                       old_knee_degradation_factor := old_knee';
                       new_knee_mAP := Some new_mAP;
                       old_knee_mAP := Some new_mAP;
                       iteration := iteration' |} in
            match new_candidate new_knee degradation_factors_sorted mAP_values_sorted
                    knee_index new_mAP with
            | None => Ok (stopped (world st) (binding st))
            | Some new_degradation =>
                if existsb (fun d => isclose d new_degradation 1e-4%float) degradation_factors
                then
                  (* this degradation factor is already evaluated *)
                  Ok (stopped (world st) (binding st))
                else
                  match slice_rows (results_class_df st) with
                  | [] => Raise IndexError
                  | (_, first_row) :: _ =>
                      let width := original_resolution_width first_row in
                      let height := original_resolution_height first_row in
                      '(degraded_width, degraded_height) <-
                        degraded_resolution new_degradation width height ;;
                      match preprocess_methods ctxt (preprocess_method ctxt) with
                      | None => Raise KeyError
                      | Some pp_params =>
                          let val_degraded_dir :=
                            Path.join (preprocessing_dir_path ctxt)
                              (val_degraded_subdir pp_params width height
                                 degraded_width degraded_height (stride pp_params)) in
                          '(_, w) <-
                            degrade_images ctxt (world st) (width, height)
                              (degraded_width, degraded_height) val_degraded_dir 0 ;;
                          let w := run_eval w (width, height)
                                     (degraded_width, degraded_height) val_degraded_dir in
                          (* after updating results, refresh results_df *)
                          match load_results w with
                          | None =>
                              Ok (stopped w {| results_df := results_df (binding st);
                                               cached := false |})
                          | Some b =>
                              let results_class_df' := class_slice (results_df b) class_name in
                              '(x_list, y_list, w) <-
                                calculate_knee KneeLocator w class_name
                                  (map snd (slice_rows results_class_df')) ;;
                              Ok (Continue
                                    {| world := w;
                                       binding := b;
                                       results_class_df := results_class_df';
                                       new_knee_degradation_factor := first_knee x_list y_list;
                                       old_knee_degradation_factor := old_knee';
                                       new_knee_mAP := Some new_mAP;
                                       old_knee_mAP := Some new_mAP;
                                       iteration := iteration' |})
                          end
                      end
                  end
            end
      end
  end.

(** Lines 401-500 of the loop body: the pass up to the refresh of
    [results_df].  [None] when the pass ends in one of the breaks that come
    before the evaluation; else the world that [degrade_images] and
    [run_eval] leave for the new resolution, in which the refresh then looks
    for the cache and for the results file. *)
Definition pass_evaluation (st : LoopState) : result (option World) :=
  match new_knee_degradation_factor st with
  | None => Raise TypeError
  | Some new_knee =>
      degradation_factors <- slice_degradation_factors (results_class_df st) ;;
      let mAP_values := map (fun ir => mAP (snd ir)) (slice_rows (results_class_df st)) in
      let sorted_indices := argsort degradation_factors in
      let degradation_factors_sorted := take nan degradation_factors sorted_indices in
      let mAP_values_sorted := take nan mAP_values sorted_indices in
      match first_true
              (map (fun d => isclose d new_knee 1e-5%float) degradation_factors_sorted) with
      | None => Ok None
      | Some knee_index =>
          let new_mAP := nth knee_index mAP_values_sorted nan in
          if match old_knee_mAP st with
             | Some old_mAP => (abs (new_mAP - old_mAP) <? mAP_tolerance)%float
             | None => false
             end
          then Ok None
          else
            match new_candidate new_knee degradation_factors_sorted mAP_values_sorted
                    knee_index new_mAP with
            | None => Ok None
            | Some new_degradation =>
                if existsb (fun d => isclose d new_degradation 1e-4%float) degradation_factors
                then Ok None
                else
                  match slice_rows (results_class_df st) with
                  | [] => Raise IndexError
                  | (_, first_row) :: _ =>
                      let width := original_resolution_width first_row in
                      let height := original_resolution_height first_row in
                      '(degraded_width, degraded_height) <-
                        degraded_resolution new_degradation width height ;;
                      match preprocess_methods ctxt (preprocess_method ctxt) with
                      | None => Raise KeyError
                      | Some pp_params =>
                          let val_degraded_dir :=
                            Path.join (preprocessing_dir_path ctxt)
                              (val_degraded_subdir pp_params width height
                                 degraded_width degraded_height (stride pp_params)) in
                          '(_, w) <-
                            degrade_images ctxt (world st) (width, height)
                              (degraded_width, degraded_height) val_degraded_dir 0 ;;
                          Ok (Some (run_eval w (width, height)
                                      (degraded_width, degraded_height) val_degraded_dir))
                      end
                  end
            end
      end
  end.

(** The [while] loop: the number of passes started, and how it ended. *)
Fixpoint while_loop (fuel : nat) (class_name : string) (st : LoopState) : nat * loop_end :=
  if loop_condition st then
    match fuel with
    | O => (0, NoFuel)
    | S fuel' =>
        match loop_body class_name st with
        | Raise e => (1, Raised e)
        | Ok (Break st') => (1, Broke st')
        | Ok (Continue st') =>
            let '(n, e) := while_loop fuel' class_name st' in (S n, e)
        end
    end
  else (0, Exit st).

(** The rows of the slice whose factor is close to the knee:
    [results_class_df[np.isclose(results_class_df['degradation_factor'], k, atol=1e-5)].index] *)
Definition knee_index_labels (s : Slice) (k : float) : result (list nat) :=
  factors <- slice_degradation_factors s ;;
  Ok (select (map (fun d => isclose d k 1e-5%float) factors) (map fst (slice_rows s))).

Definition mark_rows (df : DataFrame) (labels : list nat) : DataFrame :=
  loc_set_knee df (fun i _ => existsb (Nat.eqb i) labels) true.

Definition clear_class (df : DataFrame) (class_name : string) : DataFrame :=
  loc_set_knee df (fun _ r => String.eqb (object_name r) class_name) false.

(** Lines 391-395: the variables of the convergence check before the
    first pass. *)
Definition initial_state (w : World) (b : Binding) (class_df : Slice)
    (knee_degradation_factor : option float) : LoopState :=
  {| world := w;
     binding := b;
     results_class_df := class_df;
     new_knee_degradation_factor := knee_degradation_factor;
     old_knee_degradation_factor := None;
     new_knee_mAP := None;
     old_knee_mAP := None;
     iteration := 0 |}.

(** One pass of [for class_name in class_names] (lines 382-549);
    [None] when the model's fuel ran out inside the [while] loop. *)
Definition process_class (fuel : nat) (acc : World * Binding) (class_name : string)
    : result (option (World * Binding)) :=
  let '(w, b) := acc in
  let class_df := class_slice (results_df b) class_name in
  '(x_list, y_list, w) <-
    calculate_knee KneeLocator w class_name (map snd (slice_rows class_df)) ;;
  let knee_degradation_factor := first_knee x_list y_list in
  if match knee_discovery_search_algorithm ctxt with
     | Some a => String.eqb a "binary"
     | None => false
     end
  then
    let st0 := initial_state w b class_df knee_degradation_factor in
    let finish (st : LoopState) :=
      (* mark the knee point *)
      let df := clear_class (results_df (binding st)) class_name in
      df <-
        match new_knee_degradation_factor st with
        | Some k =>
            labels <- knee_index_labels (results_class_df st) k ;;
            Ok (mark_rows df labels)
        | None => Ok df
        end ;;
      let b' := {| results_df := df; cached := cached (binding st) |} in
      Ok (Some (commit (world st) b', b')) in
    match snd (while_loop fuel class_name st0) with
    | Exit st => finish st
    | Broke st => finish st
    | Raised e => Raise e
    | NoFuel => Ok None
    end
  else
    match knee_degradation_factor with
    | Some k =>
        labels <- knee_index_labels class_df k ;;
        let b' := {| results_df := mark_rows (results_df b) labels; cached := cached b |} in
        Ok (Some (commit w b', b'))
    | None => Ok (Some (w, b))
    end.

(** How [run_knee_discovery] ends. *)
Inductive run_end : Type :=
| Returned (w : World)      (* the early [return] of line 358 *)
| Completed (w : World)     (* "End knee discovery" *)
| Running.                  (* the model's fuel ran out *)

Fixpoint for_classes (fuel : nat) (acc : World * Binding) (class_names : list string)
    : result (option (World * Binding)) :=
  match class_names with
  | [] => Ok (Some acc)
  | class_name :: rest =>
      r <- process_class fuel acc class_name ;;
      match r with
      | None => Ok None
      | Some acc' => for_classes fuel acc' rest
      end
  end.

(** Lines 361-380: make sure the two optional columns exist, then reset
    every knee flag. *)
Definition prepare (df : DataFrame) : result DataFrame :=
  df1 <-
    (if has_degradation_factor df then Ok df
     else
       let orig_res_w := map (fun r => float_of_Z (original_resolution_width r)) (rows df) in
       let orig_res_h := map (fun r => float_of_Z (original_resolution_height r)) (rows df) in
       let eff_res_w := map (fun r => float_of_Z (effective_resolution_width r)) (rows df) in
       let eff_res_h := map (fun r => float_of_Z (effective_resolution_height r)) (rows df) in
       factors <- calc_degradation_factor orig_res_w orig_res_h eff_res_w eff_res_h ;;
       Ok {| has_degradation_factor := true;
             has_knee := has_knee df;
             rows := map2 set_degradation_factor (rows df) factors |}) ;;
  let df2 :=
    if has_knee df1 then df1 else loc_set_knee df1 (fun _ _ => true) false in
  Ok (loc_set_knee df2 (fun _ _ => true) false).

Definition run_knee_discovery (fuel : nat) (w : World) : result run_end :=
  (* clean_subdir: shutil.rmtree(results_path) removes the results file *)
  let w := if clean_subdir ctxt then set_eval_results_file w None else w in
  (* run evaluation on the initial resolutions *)
  '(_, w) <- run_eval_on_degraded_images w ;;
  (* load the results from the cache or from the CSV *)
  match load_results w with
  | None => Ok (Returned w)
  | Some b =>
      df <- prepare (results_df b) ;;
      let b := {| results_df := df; cached := cached b |} in
      let w := commit w b in
      let class_names := unique (map object_name (rows df)) in
      r <- for_classes fuel (w, b) class_names ;;
      match r with
      | None => Ok Running
      | Some (w, b) =>
          let w := set_eval_results_file w (Some (results_df b)) in
          let w := if cache_results ctxt
                   then set_results_cache_df w (Some (results_df b)) else w in
          Ok (Completed w)
      end
  end.

End Run.

(** ** Readings of the specification used for comparison *)

(** [round(x)] to the nearest integer, a tie going to the even one. *)
Definition py_round (x : float) : result Z :=
  match Prim2SF x with
  | S754_zero _ => Ok 0%Z
  | S754_finite s m e =>
      let n := if s then Zneg m else Zpos m in
      if (0 <=? e)%Z then Ok (n * 2 ^ e)%Z
      else
        let d := (2 ^ (- e))%Z in
        let q := (n / d)%Z in
        let r := (n mod d)%Z in
        Ok (match (2 * r ?= d)%Z with
            | Lt => q
            | Gt => (q + 1)%Z
            | Eq => if Z.even q then q else (q + 1)%Z
            end)
  | S754_nan => Raise ValueError
  | S754_infinity _ => Raise OverflowError
  end.

(** The resolution as the specification words it:
    [w = clamp(round(factor * original_width), 1, original_width)]. *)
Definition rounded_resolution (factor : float) (width height : Z) : result (Z * Z) :=
  w <- py_round (factor * float_of_Z width)%float ;;
  h <- py_round (factor * float_of_Z height)%float ;;
  Ok (Z.max 1 (Z.min width w), Z.max 1 (Z.min height h)).

(** "[a] is within [tol] absolute of [b]". *)
Definition within_absolute (a b tol : float) : bool :=
  (abs (a - b) <=? tol)%float.

(** The images of a working set that a call of [degrade_images] leaves
    valid: those it did not discard as missing or corrupt. *)
Definition valid_images (before : list string) (after : World) : Z :=
  match val_image_filename_set after with
  | Some s => Z.of_nat (List.length (filter (fun x => existsb (String.eqb x) s) before))
  | None => 0
  end.

(** A resolution column holds pixel counts. *)
Definition nonneg_resolutions (r : Row) : Prop :=
  (0 <= original_resolution_width r)%Z /\ (0 <= original_resolution_height r)%Z /\
  (0 <= effective_resolution_width r)%Z /\ (0 <= effective_resolution_height r)%Z.

(** A positive finite binary64 value. *)
Definition positive_finite (x : float) : bool :=
  ((0 <? x) && is_finite x)%float.

(** Not negative: plus zero, a positive number, plus infinity or NaN. *)
Definition SFnn (f : spec_float) : bool :=
  match f with
  | S754_zero false | S754_finite false _ _ | S754_infinity false | S754_nan => true
  | _ => false
  end.

(** The factor of one row [(ow, oh, ew, eh)]. *)
Definition row_factor (q : float * float * float * float) : float :=
  let '(ow, oh, ew, eh) := q in PrimFloat.sqrt ((ew / ow) * (eh / oh))%float.

Definition quad_nn (q : float * float * float * float) : Prop :=
  let '(ow, oh, ew, eh) := q in
  SFnn (Prim2SF ow) = true /\ SFnn (Prim2SF oh) = true /\
  SFnn (Prim2SF ew) = true /\ SFnn (Prim2SF eh) = true.

(** The four resolutions of a row are positive and finite. *)
Definition positive_resolutions (q : float * float * float * float) : Prop :=
  let '(ow, oh, ew, eh) := q in
  positive_finite ow = true /\ positive_finite oh = true /\
  positive_finite ew = true /\ positive_finite eh = true.

(** The flagged rows of a class, as (label, row) pairs. *)
Definition flagged_rows (df : DataFrame) (class_name : string) : list (nat * Row) :=
  filter (fun ir => has_knee df && knee (snd ir)) (slice_rows (class_slice df class_name)).

(** The four resolutions of a table row, as floats. *)
Definition quad_of_row (r : Row) : float * float * float * float :=
  (float_of_Z (original_resolution_width r), float_of_Z (original_resolution_height r),
   float_of_Z (effective_resolution_width r), float_of_Z (effective_resolution_height r)).

(** The integer nearest to zero-ward of the exact value of a float:
    [Z.quot] rounds toward zero. *)
Definition truncation (x : spec_float) : option Z :=
  match x with
  | S754_zero _ => Some 0%Z
  | S754_finite s m e =>
      Some (Z.quot ((if s then Zneg m else Zpos m) * 2 ^ Z.max 0 e) (2 ^ Z.max 0 (- e)))
  | _ => None
  end.

(** A loop state with the given counter and knee factors, over an empty
    table. *)
Definition state_with (i : Z) (new_knee old_knee : option float) : LoopState :=
  let df := {| has_degradation_factor := true; has_knee := true; rows := [] |} in
  {| world := {| results_cache_df := None;
                 eval_results_file := None;
                 val_image_filename_set := None;
                 files := [];
                 listdir := fun _ => None;
                 unreadable := fun _ => false;
                 knee_results := [] |};
     binding := {| results_df := df; cached := false |};
     results_class_df := class_slice df "car";
     new_knee_degradation_factor := new_knee;
     old_knee_degradation_factor := old_knee;
     new_knee_mAP := None;
     old_knee_mAP := None;
     iteration := i |}.

(** The passes still allowed by the iteration cap. *)
Definition budget (st : LoopState) : nat := Z.to_nat (max_iterations - iteration st).

(** A world with nothing in it, for results that do not depend on one. *)
Definition blank_world : World :=
  {| results_cache_df := None;
     eval_results_file := None;
     val_image_filename_set := None;
     files := [];
     listdir := fun _ => None;
     unreadable := fun _ => false;
     knee_results := [] |}.

(** Whether the factor of a row is [np.isclose(.., atol=1e-5)] to a knee. *)
Definition close_to (k : option float) (r : Row) : bool :=
  match k with
  | Some k => isclose (degradation_factor r) k 1e-5%float
  | None => false
  end.

(** The two lists returned by calculate_knee ([Raise] when it raises). *)
Definition knee_lists (KneeLocator : list float -> list float -> list float * list float)
    (class_name : string) (rs : list Row) : result (list float * list float) :=
  xyw <- calculate_knee KneeLocator blank_world class_name rs ;;
  Ok (fst xyw).

(** The knee of a class in a frame: the first detected knee of the class's
    rows ([None] when there is none or the detection raises). *)
Definition detected_knee (KneeLocator : list float -> list float -> list float * list float)
    (df : DataFrame) (class_name : string) : option float :=
  match knee_lists KneeLocator class_name
          (map snd (slice_rows (class_slice df class_name))) with
  | Ok (x_list, y_list) =>
      match x_list, y_list with
      | x :: _, _ :: _ => Some x
      | _, _ => None
      end
  | Raise _ => None
  end.

(** Flag the row when its class is one of [cs] and its factor is close to
    the knee of its class. *)
Definition flag_row (knees : string -> option float) (cs : list string) (r : Row) : Row :=
  if existsb (String.eqb (object_name r)) cs && close_to (knees (object_name r)) r
  then set_knee r true else r.

(** Whether the binary search is configured
    ([ctxt.knee_discovery_search_algorithm == 'binary']). *)
Definition binary_search (ctxt : Ctxt) : bool :=
  match knee_discovery_search_algorithm ctxt with
  | Some a => String.eqb a "binary"
  | None => false
  end.

(** The loop keeps [results_class_df] the slice of [results_df]. *)
Definition slice_consistent (class_name : string) (st : LoopState) : Prop :=
  results_class_df st = class_slice (results_df (binding st)) class_name.

(** [calculate_knee] once the degradation factors of the rows are known. *)
Definition knee_of_samples (KneeLocator : list float -> list float -> list float * list float)
    (w : World) (class_name : string) (rs : list Row)
    : result ((list float * list float) * World) :=
  let mAP_values := map mAP rs in
  if forallb (fun m => (m <=? noise_floor)%float) mAP_values then Ok (([], []), w)
  else
    let keep := map (fun m => (noise_floor <? m)%float) mAP_values in
    let x := select keep (map (fun r => row_factor (quad_of_row r)) rs) in
    let y := filter (fun m => (noise_floor <? m)%float) mAP_values in
    let ws := select keep (map (fun r => float_of_Z (original_resolution_width r)) rs) in
    let hs := select keep (map (fun r => float_of_Z (original_resolution_height r)) rs) in
    if (List.length x =? 0)%nat || (List.length y =? 0)%nat then Ok (([], []), w)
    else
      let kneedle := KneeLocator x y in
      let x_out_list := sorted (fst kneedle) in
      let y_out_list := snd kneedle in
      match x_out_list, ws, hs with
      | [], _, _ => Ok ((x_out_list, y_out_list), w)
      | _, w0 :: _, h0 :: _ =>
          w' <- record_knees w class_name (w0, h0) x_out_list y_out_list ;;
          Ok ((x_out_list, y_out_list), w')
      | _, _, _ => Raise IndexError
      end.

(** The degraded copy of a file: its base name inside [degraded_dir]. *)
Definition degraded_copy (degraded_dir name : string) : string :=
  Path.join degraded_dir (Path.basename name).

(** An image is served at a resolution when the image, its label and its
    degraded copy are on disk. *)
Definition served (w : World) (degraded_dir name : string) : bool :=
  path_exists w name
  && path_exists w (Path.replace_image_ext_with_label name)
  && path_exists w (degraded_copy degraded_dir name).

(** The working set as a list (empty when it is not set). *)
Definition working_set (w : World) : list string :=
  match val_image_filename_set w with
  | Some s => s
  | None => []
  end.

(** Every name is there once: in the working set when it is set, else in
    what [os.listdir] returns. *)
Definition tidy (w : World) : Prop :=
  match val_image_filename_set w with
  | Some s => NoDup s
  | None => forall d names, listdir w d = Some names -> NoDup names
  end.

(** The columns calculate_knee reads from a row. *)
Definition sample_of_row (r : Row) : Z * Z * Z * Z * float :=
  (original_resolution_width r, original_resolution_height r,
   effective_resolution_width r, effective_resolution_height r, mAP r).

(** The knee events of one detection: the knees and the mAP values paired
    by position. *)
Definition knee_events (class_name : string) (res : float * float)
    (xs ys : list float) : list KneeEvent :=
  map2 (fun x y => {| knee_class := class_name;
                      knee_original_resolution := res;
                      knee_factor := x;
                      knee_mAP := y |}) xs ys.

(** The original resolution of the first row whose mAP is above the noise
    floor. *)
Definition logged_resolution (rs : list Row) : float * float :=
  match find (fun r => (noise_floor <? mAP r)%float) rs with
  | Some r =>
      (float_of_Z (original_resolution_width r), float_of_Z (original_resolution_height r))
  | None => (0, 0)%float
  end.

(** Two worlds that differ at most in the knee log. *)
Definition same_but_log (w w' : World) : Prop :=
  results_cache_df w' = results_cache_df w
  /\ eval_results_file w' = eval_results_file w
  /\ val_image_filename_set w' = val_image_filename_set w
  /\ files w' = files w
  /\ listdir w' = listdir w
  /\ unreadable w' = unreadable w.

(** No element is below the one before it. *)
Fixpoint ascending (l : list float) : bool :=
  match l with
  | a :: (b :: _) as t => negb (b <? a)%float && ascending t
  | _ => true
  end.

(** The curve handed to the knee locator: the factors and the mAP values of
    the rows above the noise floor. *)
Definition curve_above_floor (rs : list Row) : result (list float * list float) :=
  factors <-
    calc_degradation_factor
      (map (fun r => float_of_Z (original_resolution_width r)) rs)
      (map (fun r => float_of_Z (original_resolution_height r)) rs)
      (map (fun r => float_of_Z (effective_resolution_width r)) rs)
      (map (fun r => float_of_Z (effective_resolution_height r)) rs) ;;
  Ok (select (map (fun m => (noise_floor <? m)%float) (map mAP rs)) factors,
      filter (fun m => (noise_floor <? m)%float) (map mAP rs)).

(** Whether some character of a string satisfies [p]. *)
Fixpoint string_exists (p : ascii -> bool) (s : string) : bool :=
  match s with
  | EmptyString => false
  | String a s' => p a || string_exists p s'
  end.

(** The state a pass leaves, whether it goes on or breaks. *)
Definition state_of (s : step) : LoopState :=
  match s with
  | Continue st | Break st => st
  end.

(** The loop keeps the current knee the one detected on the table in
    memory. *)
Definition knee_current (KneeLocator : list float -> list float -> list float * list float)
    (class_name : string) (st : LoopState) : Prop :=
  new_knee_degradation_factor st
  = detected_knee KneeLocator (results_df (binding st)) class_name.

(** The area ratios whose square roots are the degradation factors. *)
Definition area_ratios (orig_res_w orig_res_h eff_res_w eff_res_h : list float) : list float :=
  map2 PrimFloat.mul (map2 PrimFloat.div eff_res_w orig_res_w)
    (map2 PrimFloat.div eff_res_h orig_res_h).

(** Two worlds with the same images: the same files, directory listings,
    unreadable images and working set. *)
Definition same_images (w w' : World) : Prop :=
  val_image_filename_set w' = val_image_filename_set w
  /\ files w' = files w
  /\ listdir w' = listdir w
  /\ unreadable w' = unreadable w.

(** The world the loop of degrade_images is in when it reaches position [i]
    of its list of file names, having started in [start]. *)
Definition reached (orig degraded : Z * Z) (dir : string) (start : World * Z)
    (names : list string) (i : nat) : World :=
  fst (fold_left (degrade_one orig degraded dir) (firstn i names) start).

(** An image that counts as corrupted when it is looked at in the world
    [w]: it is on disk with its label, it has no degraded copy yet, it has to
    be resized, and it cannot be opened. *)
Definition found_corrupt (orig degraded : Z * Z) (dir : string) (w : World)
    (name : string) : bool :=
  path_exists w name
  && path_exists w (Path.replace_image_ext_with_label name)
  && negb (path_exists w (degraded_copy dir name))
  && negb ((fst orig =? fst degraded)%Z && (snd orig =? snd degraded)%Z)
  && unreadable w name.

(** The positions of a list of names at which the loop finds a corrupted
    image. *)
Definition corrupt_positions (orig degraded : Z * Z) (dir : string) (start : World * Z)
    (names : list string) : list nat :=
  filter (fun i => found_corrupt orig degraded dir (reached orig degraded dir start names i)
                     (nth i names ""%string))
    (seq 0 (List.length names)).

(** ** Sample inputs

    A small pipeline used to run the definitions: a validation directory
    with two images (one of them unreadable), a sweep over the resolutions
    20, 40, ..., 100 of a 100x100 original, and stand-ins for the two
    collaborators. *)

Module Sample.

#[local] Open Scope string_scope.

Definition show (z : Z) : string := NilZero.string_of_int (Z.to_int z).

Definition params : MethodParams :=
  {| image_size := 100;
     stride := None;
     val_baseline_subdir := fun _ _ _ => "val/baseline";
     val_degraded_subdir :=
       fun _ _ ew eh _ => "val/degraded_" ++ show ew ++ "x" ++ show eh |}.

Definition ctxt (algorithm : option string) (cache : bool) : Ctxt :=
  {| preprocess_method := "padding";
     preprocess_methods := fun m => if String.eqb m "padding" then Some params else None;
     preprocessing_dir_path := "pre";
     search_resolution_range := (0.2, 1.0)%float;
     search_resolution_step := 0.2%float;
     clean_subdir := false;
     knee_discovery_search_algorithm := algorithm;
     cache_results := cache |}.

Fixpoint fmin (l : list float) (d : float) : float :=
  match l with
  | [] => d
  | a :: l' => let m := fmin l' d in if (a <? m)%float then a else m
  end.

Fixpoint fmax (l : list float) (d : float) : float :=
  match l with
  | [] => d
  | a :: l' => let m := fmax l' d in if (m <? a)%float then a else m
  end.

Fixpoint argmax (l : list (float * (float * float))) : option (float * (float * float)) :=
  match l with
  | [] => None
  | a :: l' =>
      match argmax l' with
      | None => Some a
      | Some b => if (fst a <? fst b)%float then Some b else Some a
      end
  end.

(** A stand-in for [KneeLocator]: the sample where the normalised curve
    rises highest above the diagonal (the idea of the Kneedle method), and
    no knee for fewer than three samples. *)
Definition locator (x y : list float) : list float * list float :=
  if (List.length x <? 3)%nat then ([], [])
  else
    let xmin := fmin x infinity in
    let xmax := fmax x neg_infinity in
    let ymin := fmin y infinity in
    let ymax := fmax y neg_infinity in
    let d := map (fun p => (((snd p - ymin) / (ymax - ymin)
                             - (fst p - xmin) / (xmax - xmin))%float, p))
               (combine x y) in
    match argmax d with
    | Some (_, (kx, ky)) => ([kx], [ky])
    | None => ([], [])
    end.

(** The mAP the stand-in evaluator measures for a class at an effective
    width. *)
Definition metric (cls : string) (ew : Z) : float :=
  if String.eqb cls "car" then
    (if (ew <=? 20)%Z then 0.1 else if (ew <=? 40)%Z then 0.3
     else if (ew <=? 50)%Z then 0.6 else if (ew <=? 60)%Z then 0.85
     else if (ew <=? 80)%Z then 0.88 else 0.9)%float
  else if String.eqb cls "truck" then
    (if (ew <=? 20)%Z then 0.05 else if (ew <=? 40)%Z then 0.5
     else if (ew <=? 60)%Z then 0.6 else if (ew <=? 80)%Z then 0.65 else 0.7)%float
  else 0%float.

Definition new_row (cls : string) (orig eff : Z * Z) : Row :=
  {| object_name := cls;
     original_resolution_width := fst orig;
     original_resolution_height := snd orig;
     effective_resolution_width := fst eff;
     effective_resolution_height := snd eff;
     mAP := metric cls (fst eff);
     degradation_factor :=
       PrimFloat.sqrt ((float_of_Z (fst eff) / float_of_Z (fst orig))
                       * (float_of_Z (snd eff) / float_of_Z (snd orig)))%float;
     knee := false |}.

Definition same_key (a b : Row) : bool :=
  String.eqb (object_name a) (object_name b)
  && (original_resolution_width a =? original_resolution_width b)%Z
  && (original_resolution_height a =? original_resolution_height b)%Z
  && (effective_resolution_width a =? effective_resolution_width b)%Z
  && (effective_resolution_height a =? effective_resolution_height b)%Z.

(** Append the record, or update the metric of the record with the same
    class and resolutions; every other row stays as it is. *)
Definition upsert (df : DataFrame) (r : Row) : DataFrame :=
  {| has_degradation_factor := has_degradation_factor df;
     has_knee := has_knee df;
     rows := if existsb (same_key r) (rows df)
             then map (fun x => if same_key r x then set_knee r (knee x) else x) (rows df)
             else rows df ++ [r] |}.

Definition empty_df : DataFrame :=
  {| has_degradation_factor := true; has_knee := true; rows := [] |}.

(** Modelled from the spec: [run_eval] of [eval.eval] is not in the
    sources here.  The spec's Evaluator "appends/updates persisted
    EvaluationRecord rows as a side effect"; this stand-in does so for the
    classes [classes], in the CSV and, when there is one, in the cache. *)
Definition run_eval (classes : list string) (w : World) (orig eff : Z * Z)
    (dir : string) : World :=
  let add df := fold_left (fun d c => upsert d (new_row c orig eff)) classes df in
  let w1 :=
    set_eval_results_file w
      (Some (add (match eval_results_file w with Some d => d | None => empty_df end))) in
  match results_cache_df w1 with
  | Some d => set_results_cache_df w1 (Some (add d))
  | None => w1
  end.

(** An evaluator that loses the results file whenever it is asked for a
    resolution off the sweep grid. *)
Definition flaky_run_eval (w : World) (orig eff : Z * Z) (dir : string) : World :=
  if (fst eff mod 20 =? 0)%Z then run_eval ["car"; "truck"] w orig eff dir
  else set_eval_results_file w None.

(** An evaluator that persists nothing: it neither writes the results file
    nor fills the cache. *)
Definition silent_run_eval (w : World) (orig eff : Z * Z) (dir : string) : World := w.

(** The world before a run: the validation images on disk, and the given
    persisted table and cache. *)
Definition disk (file cache : option DataFrame) : World :=
  {| results_cache_df := cache;
     eval_results_file := file;
     val_image_filename_set := None;
     files := ["pre/val/baseline/a.jpg"; "pre/val/baseline/a.txt";
               "pre/val/baseline/b.png"; "pre/val/baseline/b.txt"];
     listdir := fun d => if String.eqb d "pre/val/baseline"
                         then Some ["a.jpg"; "a.txt"; "b.png"; "b.txt"; "notes.md"]
                         else None;
     unreadable := fun p => String.eqb p "pre/val/baseline/b.png";
     knee_results := [] |}.

(** A persisted table left by an earlier run, with a knee flag on a row of
    the class "bike" at a resolution (70x70) that the runs below never
    evaluate again. *)
Definition stale_file : DataFrame :=
  {| has_degradation_factor := true;
     has_knee := true;
     rows := [set_knee (new_row "bike" (100, 100) (70, 70)) true;
              new_row "car" (100, 100) (60, 60)]%Z |}.

(** A persisted table holding the class "car" evaluated from a 200x200
    original. *)
Definition two_resolutions_file : DataFrame :=
  {| has_degradation_factor := true;
     has_knee := true;
     rows := map (fun e => new_row "car" (200%Z, 200%Z) (e, e)) [40; 80; 120; 160; 200]%Z |}.

(** The (class, effective width, knee) columns of a frame. *)
Definition flags (df : DataFrame) : list (string * Z * bool) :=
  map (fun r => (object_name r, effective_resolution_width r, knee r)) (rows df).

(** The samples of Scenario 1, for the class "car". *)
Definition scenario1 : list Row :=
  map (fun e => new_row "car" (100%Z, 100%Z) (e, e)) [20; 40; 60; 80; 100]%Z.

(** The world the evaluation sweep leaves (the blank world when it raises). *)
Definition swept (r : result ((Z * Z) * World)) : World :=
  match r with
  | Ok (_, w) => w
  | Raise _ => blank_world
  end.

(** The loop state in which a run enters the refinement of its first class
    [class_name]: after the sweep, the load, the reset of the flags and the
    first knee detection. *)
Definition class_start (KneeLocator : list float -> list float -> list float * list float)
    (run_eval : World -> Z * Z -> Z * Z -> string -> World) (ctxt : Ctxt) (w : World)
    (class_name : string) : option LoopState :=
  let w1 := swept (run_eval_on_degraded_images run_eval ctxt w) in
  match load_results w1 with
  | None => None
  | Some b =>
      match prepare (results_df b) with
      | Raise _ => None
      | Ok df =>
          let b := {| results_df := df; cached := cached b |} in
          let class_df := class_slice df class_name in
          match calculate_knee KneeLocator (commit w1 b) class_name
                  (map snd (slice_rows class_df)) with
          | Raise _ => None
          | Ok ((x_list, y_list), w2) =>
              Some (initial_state w2 b class_df (first_knee x_list y_list))
          end
      end
  end.

(** The state a pass of the loop body leaves, and the state of a started
    class (the state before any pass when there is none). *)
Definition stepped (s : result step) : LoopState :=
  match s with
  | Ok (Continue st) | Ok (Break st) => st
  | Raise _ => state_with 0 None None
  end.

Definition started (o : option LoopState) : LoopState :=
  match o with
  | Some st => st
  | None => state_with 0 None None
  end.

(** The world a completed run leaves (the blank world otherwise). *)
Definition completed (r : result run_end) : World :=
  match r with
  | Ok (Completed w) => w
  | _ => blank_world
  end.

(** The written table of a completed run. *)
Definition written (r : result run_end) : DataFrame :=
  match eval_results_file (completed r) with
  | Some df => df
  | None => empty_df
  end.

End Sample.

(** * Properties *)

(** ** Binary64 comparisons, signs and division *)

Lemma SFcompare_antisym (x y : spec_float) :
  SFcompare y x = option_map CompOpp (SFcompare x y).
Proof.
  destruct x as [sx| sx | | sx mx ex], y as [sy | sy | | sy my ey];
    simpl; try reflexivity;
    try (destruct sx; reflexivity); try (destruct sy; reflexivity);
    try (destruct sx, sy; reflexivity).
  f_equal.
  rewrite (Z.compare_antisym ex ey).
  change PosDef.Pos.compare_cont with Pos.compare_cont.
  pose proof (Pos.compare_cont_antisym mx my Eq) as Hm. simpl in Hm.
  destruct sx, sy; simpl; try reflexivity;
    destruct (ex ?= ey)%Z; simpl; try reflexivity;
    rewrite <- Hm; try rewrite CompOpp_involutive; reflexivity.
Qed.

Lemma ltb_leb_false (x y : float) : (x <? y)%float = true -> (y <=? x)%float = false.
Proof.
  rewrite FloatAxioms.ltb_spec, FloatAxioms.leb_spec. unfold SFltb, SFleb.
  rewrite (SFcompare_antisym (Prim2SF x) (Prim2SF y)).
  destruct (SFcompare (Prim2SF x) (Prim2SF y)) as [[]|]; simpl; congruence.
Qed.

Lemma leb_ltb_false (x y : float) : (x <=? y)%float = true -> (y <? x)%float = false.
Proof.
  rewrite FloatAxioms.ltb_spec, FloatAxioms.leb_spec. unfold SFltb, SFleb.
  rewrite (SFcompare_antisym (Prim2SF x) (Prim2SF y)).
  destruct (SFcompare (Prim2SF x) (Prim2SF y)) as [[]|]; simpl; congruence.
Qed.

Lemma eqb_ltb_false (x y : float) : (x =? y)%float = true -> (y <? x)%float = false.
Proof.
  rewrite FloatAxioms.ltb_spec, FloatAxioms.eqb_spec. unfold SFltb, SFeqb.
  rewrite (SFcompare_antisym (Prim2SF x) (Prim2SF y)).
  destruct (SFcompare (Prim2SF x) (Prim2SF y)) as [[]|]; simpl; congruence.
Qed.

Lemma ltb_irrefl (x : float) : (x <? x)%float = false.
Proof.
  rewrite FloatAxioms.ltb_spec. unfold SFltb.
  pose proof (SFcompare_antisym (Prim2SF x) (Prim2SF x)) as H.
  destruct (SFcompare (Prim2SF x) (Prim2SF x)) as [[]|]; simpl in *; congruence.
Qed.

Lemma binary_round_aux_nn (m e : Z) (l : location) :
  SFnn (binary_round_aux prec emax false m e l) = true.
Proof.
  unfold binary_round_aux.
  destruct (shr_fexp prec emax m e l) as [mrs' e'].
  destruct (shr_fexp prec emax _ e' loc_Exact) as [mrs'' e''].
  destruct (shr_m mrs''); try reflexivity.
  destruct (e'' <=? emax - prec)%Z; reflexivity.
Qed.

Lemma SFdiv_nn (x y : spec_float) :
  SFnn x = true -> SFnn y = true -> SFnn (SF64div x y) = true.
Proof.
  destruct x as [[]|[]| |[] mx ex], y as [[]|[]| |[] my ey]; simpl; try discriminate; try reflexivity.
  intros _ _. unfold SF64div, SFdiv.
  destruct (SFdiv_core_binary prec emax (Z.pos mx) ex (Z.pos my) ey) as [[mz ez] lz].
  apply binary_round_aux_nn.
Qed.

Lemma SFmul_nn (x y : spec_float) :
  SFnn x = true -> SFnn y = true -> SFnn (SF64mul x y) = true.
Proof.
  destruct x as [[]|[]| |[] mx ex], y as [[]|[]| |[] my ey]; simpl; try discriminate; try reflexivity.
  intros _ _. unfold SF64mul, SFmul. apply binary_round_aux_nn.
Qed.

Lemma SFnn_not_lt_zero (x : float) : SFnn (Prim2SF x) = true -> (x <? 0)%float = false.
Proof.
  rewrite FloatAxioms.ltb_spec. change (Prim2SF 0) with (S754_zero false).
  destruct (Prim2SF x) as [[]|[]| |[] m e]; simpl; try discriminate; reflexivity.
Qed.

Lemma float_of_Z_nn (z : Z) : (0 <= z)%Z -> SFnn (Prim2SF (float_of_Z z)) = true.
Proof.
  intros Hz. destruct z as [|p|p]; [reflexivity| |lia].
  unfold float_of_Z. rewrite of_uint63_spec.
  unfold binary_normalize.
  destruct (Uint63Axioms.to_Z (Uint63.of_Z (Z.pos p))) as [|q|q] eqn:E.
  - reflexivity.
  - unfold binary_round.
    destruct (shl_align q 0 _) as [mz ez]. apply binary_round_aux_nn.
  - pose proof (Uint63.to_Z_bounded (Uint63.of_Z (Z.pos p))) as B.
    change Uint63Axioms.to_Z with Uint63.to_Z in E. lia.
Qed.

Lemma SFdiv_core_self (m : positive) (e : Z) :
  SFdiv_core_binary prec emax (Z.pos m) e (Z.pos m) e = (2 ^ 53, -53, loc_Exact)%Z.
Proof.
  unfold SFdiv_core_binary.
  replace (Zdigits2 (Z.pos m) + e - (Zdigits2 (Z.pos m) + e))%Z with 0%Z by lia.
  replace (e - e)%Z with 0%Z by lia.
  change (IntDef.Z.min (fexp prec emax 0) 0) with (-53)%Z.
  change (0 - -53)%Z with 53%Z. cbv zeta.
  change (match 53%Z with 0%Z => Z.pos m | Z.pos _ => IntDef.Z.shiftl (Z.pos m) 53 | Z.neg _ => 0%Z end)
    with (Z.shiftl (Z.pos m) 53).
  rewrite Z.shiftl_mul_pow2 by lia.
  change IntDef.Z.div_eucl with Z.div_eucl.
  assert (Z.div_eucl (Z.pos m * 2 ^ 53) (Z.pos m) = (2 ^ 53, 0))%Z as ->.
  { pose proof (Z.div_mul (2 ^ 53) (Z.pos m) ltac:(lia)) as Hq.
    pose proof (Z.mod_mul (2 ^ 53) (Z.pos m) ltac:(lia)) as Hr.
    rewrite (Z.mul_comm (Z.pos m)).
    unfold Z.div, Z.modulo in Hq, Hr.
    destruct (Z.div_eucl (2 ^ 53 * Z.pos m) (Z.pos m)) as [q r].
    now subst. }
  unfold new_location, new_location_even, new_location_odd.
  destruct (IntDef.Z.even (Z.pos m)); reflexivity.
Qed.

Lemma SFdiv_self (m : positive) (e : Z) :
  SF64div (S754_finite false m e) (S754_finite false m e) = Prim2SF 1.
Proof.
  unfold SF64div, SFdiv. rewrite SFdiv_core_self. vm_compute. reflexivity.
Qed.

(** A positive finite float is [S754_finite false m e]. *)
Lemma positive_finite_shape (x : float) :
  (0 <? x)%float = true -> is_finite x = true ->
  exists m e, Prim2SF x = S754_finite false m e.
Proof.
  unfold is_finite, is_nan, is_infinity.
  rewrite FloatAxioms.ltb_spec, !FloatAxioms.eqb_spec, FloatAxioms.abs_spec.
  change (Prim2SF 0) with (S754_zero false).
  change (Prim2SF infinity) with (S754_infinity false).
  destruct (Prim2SF x) as [s|s| |s m e]; simpl; try discriminate.
  - destruct s; discriminate.
  - destruct s; simpl; try discriminate. intros _ _. now exists m, e.
Qed.

Lemma div_self (x : float) :
  (0 <? x)%float = true -> is_finite x = true -> (x / x)%float = 1%float.
Proof.
  intros Hp Hf. destruct (positive_finite_shape x Hp Hf) as (m & e & Hx).
  apply Prim2SF_inj. rewrite FloatAxioms.div_spec, Hx. apply SFdiv_self.
Qed.

Lemma positive_nn (x : float) : (0 <? x)%float = true -> SFnn (Prim2SF x) = true.
Proof.
  rewrite FloatAxioms.ltb_spec. change (Prim2SF 0) with (S754_zero false).
  destruct (Prim2SF x) as [[]|[]| |[] m e]; simpl; try discriminate; reflexivity.
Qed.

(** ** calc_degradation_factor *)

Lemma math_sqrt_nn (x : float) :
  SFnn (Prim2SF x) = true -> math_sqrt x = Ok (PrimFloat.sqrt x).
Proof.
  intros H. unfold math_sqrt. now rewrite (SFnn_not_lt_zero x H).
Qed.

Lemma area_nn (ow oh ew eh : float) :
  SFnn (Prim2SF ow) = true -> SFnn (Prim2SF oh) = true ->
  SFnn (Prim2SF ew) = true -> SFnn (Prim2SF eh) = true ->
  SFnn (Prim2SF ((ew / ow) * (eh / oh))%float) = true.
Proof.
  intros Hw Hoh Hew Heh.
  rewrite FloatAxioms.mul_spec, !FloatAxioms.div_spec.
  apply SFmul_nn; apply SFdiv_nn; assumption.
Qed.

Lemma calc_degradation_factor_nn (qs : list (float * float * float * float)) :
  Forall quad_nn qs ->
  calc_degradation_factor
    (map (fun q => fst (fst (fst q))) qs) (map (fun q => snd (fst (fst q))) qs)
    (map (fun q => snd (fst q)) qs) (map snd qs)
  = Ok (map row_factor qs).
Proof.
  unfold calc_degradation_factor.
  induction 1 as [|[[[ow oh] ew] eh] qs (Hw & Hoh & Hew & Heh) _ IH]; [reflexivity|].
  cbn [map map2 mapM fst snd row_factor].
  rewrite (math_sqrt_nn _ (area_nn ow oh ew eh Hw Hoh Hew Heh)). cbn [bind].
  now rewrite IH.
Qed.

Lemma positive_finite_inv (x : float) :
  positive_finite x = true -> (0 <? x)%float = true /\ is_finite x = true.
Proof. unfold positive_finite. intros H. now apply andb_prop in H. Qed.

Lemma positive_resolutions_nn (q : float * float * float * float) :
  positive_resolutions q -> quad_nn q.
Proof.
  destruct q as [[[ow oh] ew] eh]. intros (Hw & Hh & Hew & Heh).
  repeat split; apply positive_nn; now apply positive_finite_inv.
Qed.

(** C8 (amended): for original and effective resolutions that are all
    positive, calc_degradation_factor returns, row by row and in row order,
    sqrt((effective_w / original_w) * (effective_h / original_h)) computed
    in binary64 in that order, and exactly 1.0 on every row whose effective
    resolution equals the original one. *)
Theorem calc_degradation_factor_rows (qs : list (float * float * float * float)) :
  Forall positive_resolutions qs ->
  calc_degradation_factor
    (map (fun q => fst (fst (fst q))) qs) (map (fun q => snd (fst (fst q))) qs)
    (map (fun q => snd (fst q)) qs) (map snd qs)
  = Ok (map row_factor qs)
  /\ calc_degradation_factor
       (map (fun q => fst (fst (fst q))) qs) (map (fun q => snd (fst (fst q))) qs)
       (map (fun q => fst (fst (fst q))) qs) (map (fun q => snd (fst (fst q))) qs)
     = Ok (map (fun _ => 1%float) qs).
Proof.
  intros H. split.
  - apply calc_degradation_factor_nn.
    eapply Forall_impl; [apply positive_resolutions_nn | exact H].
  - unfold calc_degradation_factor.
    induction H as [|[[[ow oh] ew] eh] qs (Hw & Hh & _ & _) _ IH]; [reflexivity|].
    cbn [map map2 mapM fst snd].
    destruct (positive_finite_inv _ Hw) as [Hw0 Hwf].
    destruct (positive_finite_inv _ Hh) as [Hh0 Hhf].
    rewrite (div_self ow Hw0 Hwf), (div_self oh Hh0 Hhf).
    change (math_sqrt (1 * 1)%float) with (@Ok float 1%float). cbn [bind].
    now rewrite IH.
Qed.

Lemma calc_degradation_factor_rows_witness :
  calc_degradation_factor [1024; 100]%float [768; 100]%float [512; 100]%float [384; 100]%float
  = Ok [0.5; 1]%float
  /\ calc_degradation_factor [1024; 100]%float [768; 100]%float [1024; 100]%float [768; 100]%float
     = Ok [1; 1]%float.
Proof.
  apply (calc_degradation_factor_rows
           [(1024, 768, 512, 384); (100, 100, 100, 100)]%float).
  repeat constructor.
Defined.

(** C8, as stated, fails: for a 100x100 original and a 7x7 effective
    resolution the function's result and sqrt((ew*eh)/(ow*oh)) are two
    different binary64 numbers. *)
Lemma area_ratio_reading_differs :
  calc_degradation_factor [100]%float [100]%float [7]%float [7]%float
  = Ok [0x1.1eb851eb851ecp-4]%float
  /\ area_ratio_factor 100 100 7 7 = 0x1.1eb851eb851ebp-4%float
  /\ (0x1.1eb851eb851ecp-4 =? 0x1.1eb851eb851ebp-4)%float = false.
Proof. vm_compute. repeat split. Qed.

(** ** calculate_knee and the noise floor *)

Lemma select_app {A : Type} (m1 m2 : list bool) (l1 l2 : list A) :
  List.length m1 = List.length l1 ->
  select (m1 ++ m2) (l1 ++ l2) = select m1 l1 ++ select m2 l2.
Proof.
  revert l1. induction m1 as [|m m1 IH]; intros [|a l1] H; try discriminate; [reflexivity|].
  simpl. injection H as H. rewrite (IH l1 H). now destruct m.
Qed.

Lemma nonneg_resolutions_nn (r : Row) : nonneg_resolutions r -> quad_nn (quad_of_row r).
Proof.
  intros (H1 & H2 & H3 & H4). repeat split; now apply float_of_Z_nn.
Qed.

(** With pixel counts in the resolution columns, the factor computation
    of calculate_knee does not raise. *)
Lemma calc_degradation_factor_of_rows (rs : list Row) :
  Forall nonneg_resolutions rs ->
  calc_degradation_factor
    (map (fun r => float_of_Z (original_resolution_width r)) rs)
    (map (fun r => float_of_Z (original_resolution_height r)) rs)
    (map (fun r => float_of_Z (effective_resolution_width r)) rs)
    (map (fun r => float_of_Z (effective_resolution_height r)) rs)
  = Ok (map (fun r => row_factor (quad_of_row r)) rs).
Proof.
  intros H.
  pose proof (calc_degradation_factor_nn (map quad_of_row rs)) as E.
  rewrite !map_map in E. apply E.
  apply Forall_map. eapply Forall_impl; [apply nonneg_resolutions_nn | exact H].
Qed.

Section KneeFacts.

Variable KneeLocator : list float -> list float -> list float * list float.

Lemma calculate_knee_samples (w : World) (class_name : string) (rs : list Row) :
  Forall nonneg_resolutions rs ->
  calculate_knee KneeLocator w class_name rs = knee_of_samples KneeLocator w class_name rs.
Proof.
  intros H. unfold calculate_knee.
  rewrite (calc_degradation_factor_of_rows rs H). reflexivity.
Qed.

Lemma below_floor_dropped (m : float) :
  (m <=? noise_floor)%float = true -> (noise_floor <? m)%float = false.
Proof. apply leb_ltb_false. Qed.

Lemma knee_of_samples_drop (w : World) (class_name : string) (rows1 rows2 : list Row) (r : Row) :
  (mAP r <=? noise_floor)%float = true ->
  knee_of_samples KneeLocator w class_name (rows1 ++ r :: rows2)
  = knee_of_samples KneeLocator w class_name (rows1 ++ rows2).
Proof.
  intros Hr. pose proof (below_floor_dropped _ Hr) as Hd.
  unfold knee_of_samples.
  rewrite !map_app, !forallb_app. cbn [map forallb]. rewrite Hr. cbn [andb].
  rewrite !filter_app. cbn [filter]. rewrite Hd.
  rewrite !select_app by (now rewrite !length_map).
  cbn [select]. reflexivity.
Qed.

(** C3: calculate_knee drops every sample whose mAP is <= 0.01 before the
    knee locator sees the curve, so such a sample has no influence on the
    result (the table with the sample and the table without it give the
    same knees and the same knee log); and when every mAP is <= 0.01 the
    result is ([], []) with nothing logged, not an exception.  The
    resolution columns hold pixel counts (non-negative integers). *)
Theorem calculate_knee_noise_floor (w : World) (class_name : string) :
  (forall (rows1 rows2 : list Row) (r : Row),
      Forall nonneg_resolutions (rows1 ++ r :: rows2) ->
      (mAP r <=? noise_floor)%float = true ->
      calculate_knee KneeLocator w class_name (rows1 ++ r :: rows2)
      = calculate_knee KneeLocator w class_name (rows1 ++ rows2))
  /\ (forall rs : list Row,
        Forall nonneg_resolutions rs ->
        forallb (fun r => (mAP r <=? noise_floor)%float) rs = true ->
        calculate_knee KneeLocator w class_name rs = Ok (([], []), w)).
Proof.
  split.
  - intros rows1 rows2 r H Hr.
    assert (Forall nonneg_resolutions (rows1 ++ rows2)) as H'.
    { apply Forall_app in H as [H1 H2]. apply Forall_app. split; [exact H1|].
      now inversion H2. }
    rewrite (calculate_knee_samples _ _ _ H), (calculate_knee_samples _ _ _ H').
    now apply knee_of_samples_drop.
  - intros rs H Hall. rewrite (calculate_knee_samples _ _ _ H).
    unfold knee_of_samples.
    assert (forallb (fun m => (m <=? noise_floor)%float) (map mAP rs) = true) as ->.
    { clear H. induction rs as [|r rs IH]; [reflexivity|].
      cbn [map forallb] in *. apply andb_prop in Hall as [-> Hall]. now apply IH. }
    reflexivity.
Qed.

End KneeFacts.


Lemma calculate_knee_noise_floor_witness :
  calculate_knee Sample.locator (Sample.disk None None) "car"
    (firstn 2 Sample.scenario1 ++ Sample.new_row "bike" (100%Z, 100%Z) (50%Z, 50%Z)
       :: skipn 2 Sample.scenario1)
  = calculate_knee Sample.locator (Sample.disk None None) "car"
      (firstn 2 Sample.scenario1 ++ skipn 2 Sample.scenario1)
  /\ calculate_knee Sample.locator (Sample.disk None None) "bike"
       [Sample.new_row "bike" (100%Z, 100%Z) (50%Z, 50%Z)]
     = Ok (([], []), Sample.disk None None).
Proof.
  destruct (calculate_knee_noise_floor Sample.locator (Sample.disk None None) "car") as [H1 _].
  destruct (calculate_knee_noise_floor Sample.locator (Sample.disk None None) "bike") as [_ H2].
  split.
  - apply H1; [|reflexivity].
    repeat constructor; vm_compute; congruence.
  - apply H2; [|reflexivity]. repeat constructor; vm_compute; congruence.
Defined.

(** ** The degraded resolution of a candidate factor *)

Lemma int_of_float_truncation (x : float) (z : Z) :
  truncation (Prim2SF x) = Some z -> int_of_float x = Ok z.
Proof.
  unfold truncation, int_of_float, floor_mag.
  destruct (Prim2SF x) as [s|s| |s m e]; try discriminate; [congruence|].
  intros H. injection H as <-. f_equal.
  destruct (Z.le_gt_cases 0 e) as [He|He].
  - rewrite Z.max_r by lia. rewrite (Z.max_l 0 (- e)) by lia.
    rewrite Z.shiftl_mul_pow2 by lia. change (2 ^ 0)%Z with 1%Z. rewrite Z.quot_1_r.
    destruct s; lia.
  - rewrite Z.max_l by lia. rewrite (Z.max_r 0 (- e)) by lia.
    change (2 ^ 0)%Z with 1%Z. rewrite Z.mul_1_r.
    assert (forall a, Z.shiftl a e = a / 2 ^ (- e))%Z as Hs.
    { intros a. replace e with (- - e)%Z at 1 by lia.
      rewrite Z.shiftl_opp_r. apply Z.shiftr_div_pow2. lia. }
    rewrite Hs.
    assert (0 < 2 ^ (- e))%Z by (apply Z.pow_pos_nonneg; lia).
    destruct s.
    + change (Z.neg m) with (- Z.pos m)%Z. rewrite Z.quot_opp_l by lia.
      f_equal. symmetry. apply Z.quot_div_nonneg; lia.
    + symmetry. apply Z.quot_div_nonneg; lia.
Qed.

(** C2 (amended): the degraded resolution of a candidate factor is
    w = clamp(trunc(factor * original_width), 1, original_width) and
    h = clamp(trunc(factor * original_height), 1, original_height), where
    trunc drops the fractional part of the binary64 product (int(), rounding
    toward zero, not to the nearest integer); for an original of at least one
    pixel the result lies in [1, original]; and 1024x768 at factor 0.5 gives
    (512, 384). *)
Theorem degraded_resolution_truncates (factor : float) (width height tw th : Z) :
  truncation (Prim2SF (factor * float_of_Z width)%float) = Some tw ->
  truncation (Prim2SF (factor * float_of_Z height)%float) = Some th ->
  degraded_resolution factor width height
  = Ok (Z.max 1 (Z.min width tw), Z.max 1 (Z.min height th))
  /\ (1 <= width -> 1 <= Z.max 1 (Z.min width tw) <= width)%Z
  /\ (1 <= height -> 1 <= Z.max 1 (Z.min height th) <= height)%Z
  /\ degraded_resolution 0.5 1024 768 = Ok (512, 384)%Z.
Proof.
  intros Hw Hh. repeat split; try lia.
  unfold degraded_resolution.
  rewrite (int_of_float_truncation _ _ Hw), (int_of_float_truncation _ _ Hh).
  reflexivity.
Qed.

Lemma degraded_resolution_truncates_witness :
  degraded_resolution 0.7 1024 768 = Ok (Z.max 1 (Z.min 1024 716), Z.max 1 (Z.min 768 537))
  /\ (1 <= 1024 -> 1 <= Z.max 1 (Z.min 1024 716) <= 1024)%Z
  /\ (1 <= 768 -> 1 <= Z.max 1 (Z.min 768 537) <= 768)%Z
  /\ degraded_resolution 0.5 1024 768 = Ok (512, 384)%Z.
Proof.
  apply (degraded_resolution_truncates 0.7 1024 768 716 537); reflexivity.
Defined.

(** C2, as stated, fails: for a 1024x768 original and the factor 0.7 the
    products are 716.8 and 537.6; the code yields (716, 537), the rounded
    formula (717, 538). *)
Lemma rounding_reading_differs :
  degraded_resolution 0.7 1024 768 = Ok (716, 537)%Z
  /\ rounded_resolution 0.7 1024 768 = Ok (717, 538)%Z.
Proof. split; reflexivity. Qed.

(** ** The side of the bisection *)

(** C6: when the knee sample has a left and a right neighbour and the two
    mAP differences are equal, the right side is chosen: the new candidate
    is the midpoint of the current knee factor and the right neighbour's
    factor. *)
Theorem tie_chooses_right (new_knee : float)
    (degradation_factors_sorted mAP_values_sorted : list float)
    (knee_index : nat) (new_mAP : float) :
  (0 < knee_index)%nat ->
  (knee_index < List.length degradation_factors_sorted - 1)%nat ->
  (abs (new_mAP - nth (knee_index - 1) mAP_values_sorted nan)
   =? abs (new_mAP - nth (knee_index + 1) mAP_values_sorted nan))%float = true ->
  new_candidate new_knee degradation_factors_sorted mAP_values_sorted knee_index new_mAP
  = Some ((new_knee + nth (knee_index + 1) degradation_factors_sorted nan) / 2)%float.
Proof.
  intros Hl Hr Htie.
  unfold new_candidate, left_neighbour, right_neighbour, choose_side.
  apply Nat.ltb_lt in Hl, Hr. rewrite Hl, Hr.
  now rewrite (eqb_ltb_false _ _ Htie).
Qed.

Lemma tie_chooses_right_witness :
  new_candidate 0.5 [0.25; 0.5; 1]%float [0.25; 0.5; 0.75]%float 1 0.5
  = Some ((0.5 + nth (1 + 1) [0.25; 0.5; 1]%float nan) / 2)%float.
Proof.
  apply (tie_chooses_right 0.5 [0.25; 0.5; 1]%float [0.25; 0.5; 0.75]%float 1 0.5);
    [simpl; lia | simpl; lia | reflexivity].
Defined.

(** ** The convergence check on the knee factor *)

Section Guard.

Variable KneeLocator : list float -> list float -> list float * list float.
Variable run_eval : World -> Z * Z -> Z * Z -> string -> World.
Variable ctxt : Ctxt.

(** C7 (amended): with the iteration cap not reached and both factors set,
    the loop stops at its head exactly when
    numpy.isclose(current, previous, atol=1e-2) holds, and for a finite
    previous factor that is |current - previous| <= 1e-2 + 1e-5 * |previous|
    (numpy's default relative tolerance is added to the absolute one), or
    current == previous. *)
Theorem factor_convergence (fuel : nat) (class_name : string) (st : LoopState)
    (current previous : float) :
  (iteration st < max_iterations)%Z ->
  new_knee_degradation_factor st = Some current ->
  old_knee_degradation_factor st = Some previous ->
  (loop_condition st = false <-> isclose current previous desired_tolerance = true)
  /\ (while_loop KneeLocator run_eval ctxt fuel class_name st = (0, Exit st)
      <-> isclose current previous desired_tolerance = true)
  /\ (is_finite previous = true ->
      isclose current previous desired_tolerance
      = ((abs (current - previous) <=? 1e-2 + 1e-05 * abs previous)
         || (current =? previous))%float).
Proof.
  intros Hi Hn Ho.
  assert (loop_condition st = negb (isclose current previous desired_tolerance)) as Hc.
  { unfold loop_condition. rewrite Hn, Ho.
    apply Z.ltb_lt in Hi. now rewrite Hi. }
  split; [|split].
  - rewrite Hc. destruct (isclose current previous desired_tolerance); simpl; split; congruence.
  - destruct fuel as [|fuel]; cbn [while_loop]; rewrite Hc;
      destruct (isclose current previous desired_tolerance); cbn [negb].
    + split; reflexivity.
    + split; discriminate.
    + split; reflexivity.
    + split; [|discriminate].
      destruct (loop_body KneeLocator run_eval ctxt class_name st) as [[st'|st']|e];
        try discriminate.
      destruct (while_loop KneeLocator run_eval ctxt fuel class_name st'). discriminate.
  - intros Hf. unfold isclose. rewrite Hf. now rewrite andb_true_r.
Qed.

End Guard.

Lemma factor_convergence_witness :
  (loop_condition (state_with 1 (Some 0.605%float) (Some 0.6%float)) = false
   <-> isclose 0.605 0.6 desired_tolerance = true)
  /\ (while_loop Sample.locator (Sample.run_eval ["car"%string]) (Sample.ctxt (Some "binary"%string) false)
        3 "car" (state_with 1 (Some 0.605%float) (Some 0.6%float))
      = (0, Exit (state_with 1 (Some 0.605%float) (Some 0.6%float)))
      <-> isclose 0.605 0.6 desired_tolerance = true)
  /\ (is_finite 0.6 = true ->
      isclose 0.605 0.6 desired_tolerance
      = ((abs (0.605 - 0.6) <=? 1e-2 + 1e-05 * abs 0.6) || (0.605 =? 0.6))%float).
Proof.
  apply (factor_convergence Sample.locator (Sample.run_eval ["car"%string])
           (Sample.ctxt (Some "binary"%string) false) 3 "car"
           (state_with 1 (Some 0.605%float) (Some 0.6%float)) 0.605 0.6);
    reflexivity.
Defined.

(** C7, as stated, fails: with a 1000x1000 original, the previous knee at
    full resolution (factor 1.0) and the current one at 988x992 (factor
    0.98999797...), the factors are more than 1e-2 apart and yet the loop
    stops at the convergence check. *)
Lemma absolute_tolerance_reading_differs :
  row_factor (1000, 1000, 988, 992)%float = 0.98999797979591853%float
  /\ within_absolute 0.98999797979591853 1 desired_tolerance = false
  /\ isclose 0.98999797979591853 1 desired_tolerance = true
  /\ loop_condition (state_with 1 (Some 0.98999797979591853%float) (Some 1%float)) = false.
Proof. vm_compute. repeat split. Qed.

(** ** Termination of the refinement loop *)

Section Termination.

Variable KneeLocator : list float -> list float -> list float * list float.
Variable run_eval : World -> Z * Z -> Z * Z -> string -> World.
Variable ctxt : Ctxt.

(** Every pass through the body adds one to the counter. *)
Lemma loop_body_iteration (class_name : string) (st : LoopState) (s : step) :
  loop_body KneeLocator run_eval ctxt class_name st = Ok s ->
  iteration (match s with Continue st' | Break st' => st' end) = (iteration st + 1)%Z.
Proof.
  unfold loop_body, bind.
  repeat match goal with
         | |- context [match ?x with _ => _ end] => destruct x
         end;
    intros H; try discriminate; injection H as <-; reflexivity.
Qed.

Lemma while_loop_budget (class_name : string) :
  forall (m : nat) (st : LoopState), budget st = m ->
  forall fuel : nat, (m <= fuel)%nat ->
    while_loop KneeLocator run_eval ctxt fuel class_name st = while_loop KneeLocator run_eval ctxt m class_name st
    /\ snd (while_loop KneeLocator run_eval ctxt m class_name st) <> NoFuel
    /\ (fst (while_loop KneeLocator run_eval ctxt m class_name st) <= m)%nat.
Proof.
  induction m as [|m IH]; intros st Hm fuel Hf.
  - assert (loop_condition st = false) as Hc.
    { unfold loop_condition, budget, max_iterations in *.
      destruct (Z.ltb_spec (iteration st) 10); [lia | reflexivity]. }
    destruct fuel; cbn [while_loop]; rewrite Hc; repeat split; auto; discriminate.
  - destruct fuel as [|fuel]; [lia|].
    cbn [while_loop].
    destruct (loop_condition st) eqn:Hc;
      [|split; [reflexivity | split; [discriminate | cbn; lia]]].
    destruct (loop_body KneeLocator run_eval ctxt class_name st) as [[st'|st']|e] eqn:Hb;
      try (split; [reflexivity | split; [discriminate | cbn; lia]]).
    pose proof (loop_body_iteration _ _ _ Hb) as Hi. cbn in Hi.
    assert (budget st' = m) as Hm'.
    { unfold loop_condition, max_iterations in Hc. apply andb_prop in Hc as [Hc _].
      apply Z.ltb_lt in Hc. unfold budget, max_iterations in *. lia. }
    destruct (IH st' Hm' fuel ltac:(lia)) as (E & Hn & Hle).
    rewrite E. destruct (while_loop KneeLocator run_eval ctxt m class_name st') as [n e]. cbn in *.
    split; [reflexivity | split; [assumption | lia]].
Qed.

Lemma process_class_fuel (fuel : nat) (acc : World * Binding) (class_name : string) :
  (10 <= fuel)%nat ->
  process_class KneeLocator run_eval ctxt fuel acc class_name <> Ok None.
Proof.
  intros Hf. unfold process_class. destruct acc as [w b].
  destruct (calculate_knee _ _ _ _) as [[[x_list y_list] w']|e]; cbn [bind]; [|discriminate].
  destruct (match knee_discovery_search_algorithm ctxt with
            | Some a => String.eqb a "binary"
            | None => false
            end).
  - set (st0 := initial_state w' b _ _).
    destruct (while_loop_budget class_name 10 st0 eq_refl fuel Hf) as (E & Hn & _).
    rewrite E.
    destruct (snd (while_loop KneeLocator run_eval ctxt 10 class_name st0)) as [st|st| |]; try discriminate;
      try contradiction;
      destruct (new_knee_degradation_factor st);
      try destruct (knee_index_labels _ _); cbn [bind]; discriminate.
  - destruct (first_knee x_list y_list); [|discriminate].
    destruct (knee_index_labels _ _); cbn [bind]; discriminate.
Qed.

Lemma for_classes_fuel (fuel : nat) (class_names : list string) :
  (10 <= fuel)%nat ->
  forall acc, for_classes KneeLocator run_eval ctxt fuel acc class_names <> Ok None.
Proof.
  intros Hf. induction class_names as [|c cs IH]; intros acc; cbn [for_classes]; [discriminate|].
  pose proof (process_class_fuel fuel acc c Hf) as Hp.
  destruct (process_class KneeLocator run_eval ctxt fuel acc c) as [[acc'|]|e];
    cbn [bind]; [apply IH | contradiction | discriminate].
Qed.

(** C1: for every class and every table of samples, the refinement loop
    of run_knee_discovery terminates and makes at most 10 passes
    (max_iterations), converged or not: from the state set up before the
    loop, any fuel of 10 or more gives the same, finished, result as fuel
    10; and the whole run never ends with the model still running. *)
Theorem refinement_loop_terminates (class_name : string) (w : World) (b : Binding)
    (class_df : Slice) (knee : option float) (extra : nat) :
  snd (while_loop KneeLocator run_eval ctxt (10 + extra) class_name (initial_state w b class_df knee)) <> NoFuel
  /\ (fst (while_loop KneeLocator run_eval ctxt (10 + extra) class_name (initial_state w b class_df knee)) <= 10)%nat
  /\ while_loop KneeLocator run_eval ctxt (10 + extra) class_name (initial_state w b class_df knee)
     = while_loop KneeLocator run_eval ctxt 10 class_name (initial_state w b class_df knee)
  /\ (forall w0 : World,
        run_knee_discovery KneeLocator run_eval ctxt (10 + extra) w0 <> Ok Running).
Proof.
  destruct (while_loop_budget class_name 10 (initial_state w b class_df knee) eq_refl
              (10 + extra) ltac:(lia)) as (E & Hn & Hle).
  rewrite E. repeat split; try assumption.
  intros w0. unfold run_knee_discovery.
  destruct (run_eval_on_degraded_images _ _ _) as [[r w1]|e]; cbn [bind]; [|discriminate].
  destruct (load_results w1) as [b0|]; [|discriminate].
  destruct (prepare (results_df b0)) as [df|e]; cbn [bind]; [|discriminate].
  match goal with
  | |- context [for_classes _ _ _ ?f ?a ?c] =>
      pose proof (for_classes_fuel f c ltac:(lia) a) as Hfc;
      destruct (for_classes KneeLocator run_eval ctxt f a c) as [[[w2 b2]|]|e]
  end; cbn [bind]; try discriminate. contradiction.
Qed.

End Termination.

(** ** Bounds on the corrupted counter *)

Lemma degrade_one_counter (orig degraded : Z * Z) (dir : string) (w : World) (c : Z)
    (name : string) :
  (c <= snd (degrade_one orig degraded dir (w, c) name) <= c + 1)%Z.
Proof.
  unfold degrade_one.
  repeat match goal with
         | |- context [if ?b then _ else _] => destruct b
         end; cbn [snd]; lia.
Qed.

Lemma degrade_fold_counter (orig degraded : Z * Z) (dir : string) (names : list string) :
  forall (w : World) (c : Z),
    (c <= snd (fold_left (degrade_one orig degraded dir) names (w, c))
       <= c + Z.of_nat (List.length names))%Z.
Proof.
  induction names as [|name names IH]; intros w c; cbn [fold_left List.length]; [cbn; lia|].
  pose proof (degrade_one_counter orig degraded dir w c name) as H1.
  destruct (degrade_one orig degraded dir (w, c) name) as [w1 c1]. cbn [snd] in H1.
  specialize (IH w1 c1). lia.
Qed.

(** ** Frames: labels, slices and flag assignment *)

Lemma in_combine_seq {A : Type} (l : list A) :
  forall (s i : nat) (a : A),
    In (i, a) (combine (seq s (List.length l)) l)
    <-> (s <= i)%nat /\ nth_error l (i - s) = Some a.
Proof.
  induction l as [|b l IH]; intros s i a; cbn [List.length seq combine In].
  - split; [contradiction|]. intros [_ H]. now destruct (i - s)%nat.
  - rewrite IH. split.
    + intros [H|[H1 H2]].
      * injection H as <- <-. rewrite Nat.sub_diag. split; [lia | reflexivity].
      * split; [lia|]. replace (i - s)%nat with (S (i - S s)) by lia. exact H2.
    + intros [H1 H2]. destruct (Nat.eq_dec i s) as [->|Hne].
      * rewrite Nat.sub_diag in H2. left. cbn in H2. congruence.
      * right. split; [lia|]. replace (i - s)%nat with (S (i - S s)) in H2 by lia.
        exact H2.
Qed.

Lemma in_indexed (df : DataFrame) (i : nat) (r : Row) :
  In (i, r) (indexed df) <-> nth_error (rows df) i = Some r.
Proof.
  unfold indexed. rewrite in_combine_seq, Nat.sub_0_r. split; [tauto | split; [lia | assumption]].
Qed.

Lemma select_map_filter {A B : Type} (p : B -> bool) (g : A -> B) (f : A -> nat) (l : list A) :
  select (map p (map g l)) (map f l) = map f (filter (fun a => p (g a)) l).
Proof.
  induction l as [|a l IH]; [reflexivity|]. cbn [map select filter].
  destruct (p (g a)); cbn [map]; now rewrite IH.
Qed.

(** A label selects its own row only. *)
Lemma label_selected (df : DataFrame) (Q : nat * Row -> bool) (i : nat) (r : Row) :
  In (i, r) (indexed df) ->
  existsb (Nat.eqb i) (map fst (filter Q (indexed df))) = Q (i, r).
Proof.
  intros Hin. destruct (Q (i, r)) eqn:HQ.
  - apply existsb_exists. exists i. split; [|apply Nat.eqb_refl].
    apply in_map_iff. exists (i, r). split; [reflexivity|]. apply filter_In. now split.
  - destruct (existsb _ _) eqn:E; [|reflexivity].
    apply existsb_exists in E as (j & Hj & Hij). apply Nat.eqb_eq in Hij. subst j.
    apply in_map_iff in Hj as ([j r'] & Hfst & Hf). cbn in Hfst. subst j.
    apply filter_In in Hf as [Hin' HQ'].
    apply in_indexed in Hin, Hin'. congruence.
Qed.

(** The labels picked by the marking step. *)
Lemma knee_index_labels_spec (df : DataFrame) (class_name : string) (k : float)
    (labels : list nat) :
  knee_index_labels (class_slice df class_name) k = Ok labels ->
  has_degradation_factor df = true
  /\ forall i r, In (i, r) (indexed df) ->
       existsb (Nat.eqb i) labels
       = String.eqb (object_name r) class_name && close_to (Some k) r.
Proof.
  unfold knee_index_labels, slice_degradation_factors, class_slice.
  cbn [slice_has_degradation_factor slice_rows].
  destruct (has_degradation_factor df); cbn [bind]; [|discriminate].
  intros H. injection H as <-. split; [reflexivity|]. intros i r Hin.
  rewrite (select_map_filter (fun d => isclose d k 1e-5%float)
             (fun ir : nat * Row => degradation_factor (snd ir)) fst).
  assert (forall l : list (nat * Row),
             filter (fun a => isclose (degradation_factor (snd a)) k 1e-5%float)
               (filter (fun ir => String.eqb (object_name (snd ir)) class_name) l)
             = filter (fun ir => String.eqb (object_name (snd ir)) class_name
                                 && isclose (degradation_factor (snd ir)) k 1e-5%float) l) as ->.
  { induction l as [|a l IH]; [reflexivity|]. cbn [filter].
    destruct (String.eqb (object_name (snd a)) class_name); cbn [filter andb];
      [destruct (isclose _ _ _)|]; now rewrite IH. }
  now rewrite (label_selected df _ i r Hin).
Qed.

Lemma map_indexed (df : DataFrame) (f : Row -> Row) :
  map (fun ir => f (snd ir)) (indexed df) = map f (rows df).
Proof.
  unfold indexed. generalize 0%nat. induction (rows df) as [|r l IH]; intros s; [reflexivity|].
  cbn [List.length seq combine map snd]. now rewrite IH.
Qed.

(** Marking with the labels of a class slice flags the rows of the class
    that are close to the knee, and touches no other row. *)
Lemma mark_rows_spec (df : DataFrame) (class_name : string) (k : float)
    (labels : list nat) :
  knee_index_labels (class_slice df class_name) k = Ok labels ->
  has_knee df = true ->
  mark_rows df labels
  = {| has_degradation_factor := true;
       has_knee := true;
       rows := map (fun r => if String.eqb (object_name r) class_name && close_to (Some k) r
                             then set_knee r true else r) (rows df) |}.
Proof.
  intros Hl Hk. destruct (knee_index_labels_spec _ _ _ _ Hl) as [Hd Hsel].
  unfold mark_rows, loc_set_knee. rewrite Hd, Hk. f_equal.
  rewrite <- map_indexed. apply map_ext_in. intros [i r] Hin. cbn [fst snd].
  now rewrite (Hsel i r Hin).
Qed.

Lemma clear_class_spec (df : DataFrame) (class_name : string) :
  has_knee df = true ->
  clear_class df class_name
  = {| has_degradation_factor := has_degradation_factor df;
       has_knee := true;
       rows := map (fun r => if String.eqb (object_name r) class_name
                             then set_knee r false else r) (rows df) |}.
Proof.
  intros Hk. unfold clear_class, loc_set_knee. rewrite Hk. f_equal.
  now rewrite <- map_indexed.
Qed.

(** ** The detected knee does not depend on the world or on the flags *)

Lemma record_knees_world (class_name : string) (res : float * float) (xs : list float) :
  forall (ys : list float) (w1 w2 : World),
    match record_knees w1 class_name res xs ys, record_knees w2 class_name res xs ys with
    | Ok _, Ok _ => True
    | Raise e1, Raise e2 => e1 = e2
    | _, _ => False
    end.
Proof.
  induction xs as [|x xs IH]; intros ys w1 w2; cbn [record_knees]; [exact I|].
  destruct ys as [|y ys]; [reflexivity|]. apply IH.
Qed.

Section Detection.

Variable KneeLocator : list float -> list float -> list float * list float.

Lemma calculate_knee_world (w w2 : World) (class_name : string) (rs : list Row)
    (xy : list float * list float) (w' : World) :
  calculate_knee KneeLocator w class_name rs = Ok (xy, w') ->
  exists w2', calculate_knee KneeLocator w2 class_name rs = Ok (xy, w2').
Proof.
  unfold calculate_knee.
  destruct (calc_degradation_factor _ _ _ _) as [factors|e]; cbn [bind]; [|discriminate].
  destruct (forallb _ _); [intros H; injection H as <- _; eauto|].
  destruct (_ || _); [intros H; injection H as <- _; eauto|].
  destruct (sorted _) as [|x xs] eqn:Ex; [intros H; injection H as <- _; eauto|].
  destruct (select _ (map _ rs)) as [|w0 ws]; [discriminate|].
  destruct (select _ (map _ rs)) as [|h0 hs]; [discriminate|].
  match goal with
  | |- context [record_knees w ?c ?r ?a ?b] =>
      pose proof (record_knees_world c r a b w w2) as Hr;
      destruct (record_knees w c r a b); destruct (record_knees w2 c r a b)
  end; cbn [bind]; try contradiction; try discriminate.
  intros H; injection H as <- _; eauto.
Qed.

Lemma knee_lists_of (w : World) (class_name : string) (rs : list Row)
    (xy : list float * list float) (w' : World) :
  calculate_knee KneeLocator w class_name rs = Ok (xy, w') ->
  knee_lists KneeLocator class_name rs = Ok xy.
Proof.
  intros H. destruct (calculate_knee_world w blank_world _ _ _ _ H) as [w2 H2].
  unfold knee_lists. now rewrite H2.
Qed.

Lemma calculate_knee_flags (w : World) (class_name : string) (f : Row -> Row) (rs : list Row) :
  (forall r, exists k, f r = set_knee r k) ->
  calculate_knee KneeLocator w class_name (map f rs)
  = calculate_knee KneeLocator w class_name rs.
Proof.
  intros Hf.
  assert (forall (A : Type) (g : Row -> A),
             (forall r k, g (set_knee r k) = g r) ->
             map g (map f rs) = map g rs) as E.
  { intros A g Hg. rewrite map_map. apply map_ext. intros r.
    destruct (Hf r) as [k ->]. apply Hg. }
  unfold calculate_knee.
  rewrite (E _ (fun r => float_of_Z (original_resolution_width r))) by reflexivity.
  rewrite (E _ (fun r => float_of_Z (original_resolution_height r))) by reflexivity.
  rewrite (E _ (fun r => float_of_Z (effective_resolution_width r))) by reflexivity.
  rewrite (E _ (fun r => float_of_Z (effective_resolution_height r))) by reflexivity.
  rewrite (E _ mAP) by reflexivity.
  reflexivity.
Qed.

Lemma class_slice_map (df : DataFrame) (hd hk : bool) (f : Row -> Row) (class_name : string) :
  (forall r, exists k, f r = set_knee r k) ->
  map snd (slice_rows (class_slice
                         {| has_degradation_factor := hd; has_knee := hk;
                            rows := map f (rows df) |} class_name))
  = map f (map snd (slice_rows (class_slice df class_name))).
Proof.
  intros Hf. unfold class_slice, indexed. cbn [slice_rows rows].
  rewrite length_map. generalize 0%nat.
  induction (rows df) as [|r l IH]; intros s; [reflexivity|].
  cbn [List.length seq map combine filter snd].
  assert (object_name (f r) = object_name r) as -> by (destruct (Hf r) as [k ->]; reflexivity).
  destruct (String.eqb (object_name r) class_name); cbn [map snd]; now rewrite IH.
Qed.

Lemma detected_knee_map (df : DataFrame) (hd hk : bool) (f : Row -> Row) (class_name : string) :
  (forall r, exists k, f r = set_knee r k) ->
  detected_knee KneeLocator
    {| has_degradation_factor := hd; has_knee := hk; rows := map f (rows df) |} class_name
  = detected_knee KneeLocator df class_name.
Proof.
  intros Hf. unfold detected_knee, knee_lists.
  now rewrite (class_slice_map df hd hk f class_name Hf), (calculate_knee_flags _ _ f _ Hf).
Qed.

Lemma flag_row_is_set_knee (knees : string -> option float) (cs : list string) (r : Row) :
  exists k, flag_row knees cs r = set_knee r k.
Proof.
  unfold flag_row. destruct (_ && _); [now exists true|].
  exists (knee r). now destruct r.
Qed.

Lemma flag_row_cons (knees : string -> option float) (c : string) (cs : list string) (r : Row) :
  flag_row knees cs (flag_row knees [c] r) = flag_row knees (c :: cs) r.
Proof.
  unfold flag_row. cbn [existsb]. rewrite orb_false_r.
  destruct (String.eqb (object_name r) c) eqn:Ec; cbn [andb orb].
  - destruct (close_to (knees (object_name r)) r) eqn:Ek.
    + cbn [set_knee object_name]. unfold close_to in *. cbn [degradation_factor set_knee].
      destruct (knees (object_name r)); [|discriminate]. rewrite Ek.
      now destruct (existsb _ cs).
    + rewrite Ek. now rewrite andb_false_r.
  - reflexivity.
Qed.

End Detection.

(** ** Which rows a run flags *)

Lemma flag_row_nil (knees : string -> option float) (r : Row) : flag_row knees [] r = r.
Proof. reflexivity. Qed.

Lemma flag_row_ext (k1 k2 : string -> option float) (cs : list string) (r : Row) :
  (forall name, k1 name = k2 name) -> flag_row k1 cs r = flag_row k2 cs r.
Proof. intros H. unfold flag_row. now rewrite H. Qed.

Lemma unique_complete (x : string) (l : list string) :
  In x l -> existsb (String.eqb x) (unique l) = true.
Proof.
  induction l as [|a l IH]; [contradiction|]. cbn [unique existsb].
  destruct (String.eqb x a) eqn:E; [reflexivity|]. cbn [orb].
  intros [->|H]; [now rewrite String.eqb_refl in E|].
  specialize (IH H). apply existsb_exists in IH as (y & Hy & Hxy).
  apply existsb_exists. exists y. split; [|exact Hxy].
  apply filter_In. split; [exact Hy|].
  apply String.eqb_eq in Hxy. subst y. now rewrite E.
Qed.

Lemma prepare_resets (df df0 : DataFrame) :
  prepare df = Ok df0 ->
  has_knee df0 = true /\ Forall (fun r => knee r = false) (rows df0).
Proof.
  unfold prepare.
  match goal with
  | |- bind ?m _ = _ -> _ => destruct m as [df1|e]
  end; cbn [bind]; [|discriminate].
  intros H. injection H as <-. split; [reflexivity|].
  unfold loc_set_knee. cbn [rows]. apply Forall_map. apply Forall_forall.
  intros ir _. reflexivity.
Qed.

Section Flags.

Variable KneeLocator : list float -> list float -> list float * list float.
Variable run_eval : World -> Z * Z -> Z * Z -> string -> World.
Variable ctxt : Ctxt.

Lemma process_class_plain (fuel : nat) (w : World) (b : Binding) (class_name : string)
    (w' : World) (b' : Binding) :
  binary_search ctxt = false ->
  has_knee (results_df b) = true ->
  process_class KneeLocator run_eval ctxt fuel (w, b) class_name = Ok (Some (w', b')) ->
  results_df b'
  = {| has_degradation_factor := has_degradation_factor (results_df b);
       has_knee := true;
       rows := map (flag_row (detected_knee KneeLocator (results_df b)) [class_name])
                 (rows (results_df b)) |}.
Proof.
  intros Hb Hk. unfold process_class.
  destruct (calculate_knee _ _ _ _) as [[[x_list y_list] w1]|e] eqn:Ec; cbn [bind]; [|discriminate].
  unfold binary_search in Hb. rewrite Hb.
  assert (detected_knee KneeLocator (results_df b) class_name = first_knee x_list y_list) as Hd.
  { unfold detected_knee. now rewrite (knee_lists_of _ _ _ _ _ _ Ec). }
  destruct (first_knee x_list y_list) as [k|].
  - destruct (knee_index_labels _ k) as [labels|e] eqn:El; cbn [bind]; [|discriminate].
    intros H. injection H as _ <-. cbn [results_df].
    rewrite (mark_rows_spec _ _ _ _ El Hk).
    destruct (knee_index_labels_spec _ _ _ _ El) as [-> _]. f_equal.
    apply map_ext. intros r. unfold flag_row. cbn [existsb]. rewrite orb_false_r.
    destruct (String.eqb (object_name r) class_name) eqn:E; [|reflexivity].
    apply String.eqb_eq in E. now rewrite E, Hd.
  - intros H. injection H as _ <-.
    destruct (results_df b) as [hd hk rs] eqn:Edf. cbn [has_knee] in Hk. subst hk.
    cbn [has_degradation_factor rows]. f_equal.
    rewrite <- (map_id rs) at 1. apply map_ext. intros r. unfold flag_row. cbn [existsb].
    rewrite orb_false_r.
    destruct (String.eqb (object_name r) class_name) eqn:E; [|reflexivity].
    apply String.eqb_eq in E. now rewrite E, Hd.
Qed.

Lemma for_classes_plain (fuel : nat) (class_names : list string) :
  binary_search ctxt = false ->
  forall (w : World) (b : Binding) (w' : World) (b' : Binding),
    has_knee (results_df b) = true ->
    for_classes KneeLocator run_eval ctxt fuel (w, b) class_names = Ok (Some (w', b')) ->
    results_df b'
    = {| has_degradation_factor := has_degradation_factor (results_df b);
         has_knee := true;
         rows := map (flag_row (detected_knee KneeLocator (results_df b)) class_names)
                   (rows (results_df b)) |}.
Proof.
  intros Hb. induction class_names as [|c cs IH]; intros w b w' b' Hk; cbn [for_classes].
  - intros H. injection H as _ <-.
    destruct (results_df b) as [hd hk rs]. cbn [has_knee] in Hk. subst hk.
    cbn [has_degradation_factor rows]. f_equal. rewrite <- (map_id rs) at 1.
    apply map_ext. intros r. reflexivity.
  - destruct (process_class _ _ _ _ _ _) as [[[w1 b1]|]|e] eqn:Ep; cbn [bind]; try discriminate.
    intros H.
    pose proof (process_class_plain _ _ _ _ _ _ Hb Hk Ep) as E1.
    assert (has_knee (results_df b1) = true) as Hk1 by now rewrite E1.
    rewrite (IH _ _ _ _ Hk1 H), E1. cbn [has_degradation_factor rows]. f_equal.
    rewrite map_map. apply map_ext. intros r.
    etransitivity; [|apply flag_row_cons].
    apply flag_row_ext. intros name.
    apply detected_knee_map. apply flag_row_is_set_knee.
Qed.
End Flags.

Lemma clear_class_rows (df : DataFrame) (class_name : string) :
  has_knee (clear_class df class_name) = true
  /\ has_degradation_factor (clear_class df class_name) = has_degradation_factor df
  /\ exists f : Row -> Row,
       rows (clear_class df class_name) = map f (rows df)
       /\ (forall r, exists k, f r = set_knee r k)
       /\ (forall r, object_name r = class_name -> knee (f r) = false).
Proof.
  split; [reflexivity|]. split; [reflexivity|].
  exists (fun r => if String.eqb (object_name r) class_name then set_knee r false
                   else if has_knee df then r else set_knee r false).
  split; [|split].
  - unfold clear_class, loc_set_knee. cbn [rows]. now rewrite <- map_indexed.
  - intros r. destruct (String.eqb _ _); [now exists false|].
    destruct (has_knee df); [|now exists false]. exists (knee r). now destruct r.
  - intros r <-. now rewrite String.eqb_refl.
Qed.

(** Marking a frame whose rows are those of [df] up to their flags, with
    the labels taken from the class slice of [df]. *)
Lemma mark_rows_rows (df df2 : DataFrame) (f : Row -> Row) (class_name : string)
    (k : float) (labels : list nat) :
  knee_index_labels (class_slice df class_name) k = Ok labels ->
  rows df2 = map f (rows df) ->
  (forall r, exists k, f r = set_knee r k) ->
  has_knee df2 = true ->
  rows (mark_rows df2 labels)
  = map (fun r => if String.eqb (object_name r) class_name && close_to (Some k) r
                  then set_knee r true else r) (rows df2).
Proof.
  intros Hl Hrows Hf Hk. destruct (knee_index_labels_spec _ _ _ _ Hl) as [_ Hsel].
  unfold mark_rows, loc_set_knee. cbn [rows]. rewrite Hk.
  rewrite <- map_indexed. apply map_ext_in. intros [i r2] Hin. cbn [fst snd].
  apply in_indexed in Hin. rewrite Hrows in Hin.
  rewrite nth_error_map in Hin.
  destruct (nth_error (rows df) i) as [r|] eqn:Hr; [|discriminate].
  cbn [option_map] in Hin. injection Hin as <-.
  rewrite (Hsel i r (proj2 (in_indexed df i r) Hr)).
  destruct (Hf r) as [k' ->]. reflexivity.
Qed.

Section Marking.

Variable KneeLocator : list float -> list float -> list float * list float.
Variable run_eval : World -> Z * Z -> Z * Z -> string -> World.
Variable ctxt : Ctxt.

Lemma loop_body_slice (class_name : string) (st : LoopState) (s : step) :
  slice_consistent class_name st ->
  loop_body KneeLocator run_eval ctxt class_name st = Ok s ->
  slice_consistent class_name (match s with Continue st' | Break st' => st' end).
Proof.
  unfold slice_consistent, loop_body, bind. intros Hs.
  repeat match goal with
         | |- context [match ?x with _ => _ end] => destruct x
         end;
    intros H; try discriminate; injection H as <-; cbn; auto.
Qed.

Lemma while_loop_slice (class_name : string) (fuel : nat) :
  forall st : LoopState,
    slice_consistent class_name st ->
    match snd (while_loop KneeLocator run_eval ctxt fuel class_name st) with
    | Exit st' | Broke st' => slice_consistent class_name st'
    | _ => True
    end.
Proof.
  induction fuel as [|fuel IH]; intros st Hs; cbn [while_loop];
    destruct (loop_condition st); cbn [snd]; auto.
  destruct (loop_body KneeLocator run_eval ctxt class_name st) as [[st'|st']|e] eqn:Hb;
    cbn [snd]; auto.
  - pose proof (loop_body_slice _ _ _ Hs Hb) as Hs'. cbn in Hs'.
    specialize (IH st' Hs').
    destruct (while_loop KneeLocator run_eval ctxt fuel class_name st'). exact IH.
  - exact (loop_body_slice _ _ _ Hs Hb).
Qed.

(** The marking step of the binary search branch (lines 522-526). *)
Lemma finish_flags (class_name : string) (st : LoopState) (df' : DataFrame) :
  slice_consistent class_name st ->
  (match new_knee_degradation_factor st with
   | Some k =>
       labels <- knee_index_labels (results_class_df st) k ;;
       Ok (mark_rows (clear_class (results_df (binding st)) class_name) labels)
   | None => Ok (clear_class (results_df (binding st)) class_name)
   end) = Ok df' ->
  forall i r', nth_error (rows df') i = Some r' -> object_name r' = class_name ->
    knee r' = close_to (new_knee_degradation_factor st) r'.
Proof.
  intros Hs H i r' Hi Hc.
  destruct (clear_class_rows (results_df (binding st)) class_name)
    as (Hk & _ & f & Hrows & Hf & Hfalse).
  destruct (new_knee_degradation_factor st) as [k|].
  - rewrite Hs in H.
    destruct (knee_index_labels _ k) as [labels|e] eqn:El; cbn [bind] in H; [|discriminate].
    injection H as <-.
    rewrite (mark_rows_rows _ _ f _ _ _ El Hrows Hf Hk), Hrows, map_map in Hi.
    rewrite nth_error_map in Hi.
    destruct (nth_error (rows (results_df (binding st))) i) as [r|]; [|discriminate].
    cbn [option_map] in Hi. injection Hi as <-.
    assert (object_name (f r) = object_name r) as Hn by (destruct (Hf r) as [k' ->]; reflexivity).
    destruct (String.eqb (object_name (f r)) class_name) eqn:E; cbn [andb] in *.
    + unfold close_to in *.
      destruct (isclose (degradation_factor (f r)) k 1e-5%float) eqn:Ecl.
      * cbn [knee set_knee degradation_factor]. now rewrite Ecl.
      * rewrite Ecl. apply Hfalse. apply String.eqb_eq in E. congruence.
    + apply String.eqb_neq in E. contradiction.
  - injection H as <-. rewrite Hrows, nth_error_map in Hi.
    destruct (nth_error (rows (results_df (binding st))) i) as [r|]; [|discriminate].
    cbn [option_map] in Hi. injection Hi as <-. cbn [close_to].
    apply Hfalse. destruct (Hf r) as [k' Hk']. rewrite Hk' in Hc. exact Hc.
Qed.

Lemma detected_knee_of (w w' : World) (df : DataFrame) (class_name : string)
    (x_list y_list : list float) :
  calculate_knee KneeLocator w class_name
    (map snd (slice_rows (class_slice df class_name))) = Ok ((x_list, y_list), w') ->
  detected_knee KneeLocator df class_name = first_knee x_list y_list.
Proof.
  intros H. unfold detected_knee. now rewrite (knee_lists_of _ _ _ _ _ _ H).
Qed.

Lemma loop_body_knee_current (class_name : string) (st : LoopState) (s : step) :
  knee_current KneeLocator class_name st ->
  loop_body KneeLocator run_eval ctxt class_name st = Ok s ->
  knee_current KneeLocator class_name (state_of s).
Proof.
  unfold knee_current, loop_body, bind.
  destruct (new_knee_degradation_factor st) as [new_knee|]; [|discriminate].
  intros Hcur.
  repeat match goal with
         | |- context [calculate_knee ?k ?a ?b ?c] =>
             destruct (calculate_knee k a b c) as [[[x_list y_list] w2]|e] eqn:Hk
         | |- context [match ?x with _ => _ end] => destruct x
         end;
    intros H; try discriminate; injection H as <-;
    cbn [state_of new_knee_degradation_factor binding results_df]; auto.
  all: symmetry; exact (detected_knee_of _ _ _ _ _ _ Hk).
Qed.

Lemma while_loop_knee_current (class_name : string) (fuel : nat) :
  forall st : LoopState,
    knee_current KneeLocator class_name st ->
    match snd (while_loop KneeLocator run_eval ctxt fuel class_name st) with
    | Exit st' | Broke st' => knee_current KneeLocator class_name st'
    | _ => True
    end.
Proof.
  induction fuel as [|fuel IH]; intros st Hs; cbn [while_loop];
    destruct (loop_condition st); cbn [snd]; auto.
  destruct (loop_body KneeLocator run_eval ctxt class_name st) as [[st'|st']|e] eqn:Hb;
    cbn [snd]; auto.
  - pose proof (loop_body_knee_current _ _ _ Hs Hb) as Hs'. cbn [state_of] in Hs'.
    specialize (IH st' Hs').
    destruct (while_loop KneeLocator run_eval ctxt fuel class_name st') as [n e]. exact IH.
  - exact (loop_body_knee_current _ _ _ Hs Hb).
Qed.

(** The table a class is marked into differs from the table in memory in
    knee flags only, so the same knee is detected on both. *)
Lemma marked_same_detection (class_name : string) (st : LoopState) (df' : DataFrame) :
  slice_consistent class_name st ->
  (match new_knee_degradation_factor st with
   | Some k =>
       labels <- knee_index_labels (results_class_df st) k ;;
       Ok (mark_rows (clear_class (results_df (binding st)) class_name) labels)
   | None => Ok (clear_class (results_df (binding st)) class_name)
   end) = Ok df' ->
  detected_knee KneeLocator df' class_name
  = detected_knee KneeLocator (results_df (binding st)) class_name.
Proof.
  assert (forall df f, (forall r, exists k, f r = set_knee r k) ->
                       forall df2, rows df2 = map f (rows df) ->
                                   has_degradation_factor df2 = has_degradation_factor df ->
                                   detected_knee KneeLocator df2 class_name
                                   = detected_knee KneeLocator df class_name) as Hsame.
  { intros df f Hf [hd hk rs] Hrows Hhd. cbn [rows has_degradation_factor] in *. subst.
    exact (detected_knee_map KneeLocator df (has_degradation_factor df) hk f class_name Hf). }
  intros Hs. unfold slice_consistent in Hs. rewrite Hs.
  set (df := results_df (binding st)).
  destruct (clear_class_rows df class_name) as (Hk & Hd & f & Hrows & Hf & _).
  destruct (new_knee_degradation_factor st) as [k|].
  - destruct (knee_index_labels (class_slice df class_name) k) as [labels|e] eqn:El;
      cbn [bind]; [|discriminate].
    intros H. injection H as <-.
    pose proof (mark_rows_rows df (clear_class df class_name) f class_name k labels
                  El Hrows Hf Hk) as Hm.
    apply (Hsame df (fun r => if String.eqb (object_name (f r)) class_name
                                 && close_to (Some k) (f r)
                              then set_knee (f r) true else f r)).
    + intros r. destruct (Hf r) as [k1 E1]. rewrite E1.
      destruct (_ && _); [now exists true | now exists k1].
    + rewrite Hm, Hrows, map_map. reflexivity.
    + exact Hd.
  - intros H. injection H as <-. now apply (Hsame df f).
Qed.

(** The marking step leaves the [knee] column present. *)
Lemma marked_has_knee (class_name : string) (st : LoopState) (df' : DataFrame) :
  (match new_knee_degradation_factor st with
   | Some k =>
       labels <- knee_index_labels (results_class_df st) k ;;
       Ok (mark_rows (clear_class (results_df (binding st)) class_name) labels)
   | None => Ok (clear_class (results_df (binding st)) class_name)
   end) = Ok df' ->
  has_knee df' = true.
Proof.
  destruct (new_knee_degradation_factor st) as [k|].
  - destruct (knee_index_labels _ k) as [labels|e]; cbn [bind]; [|discriminate].
    intros H. now injection H as <-.
  - intros H. now injection H as <-.
Qed.

(** C4 (amended): a class's knee is marked on every row of the class whose
    degradation factor is np.isclose(atol=1e-5) to the knee factor, not on
    one chosen row.  (1) With the binary search, when a class has been
    processed its flagged rows are exactly its rows close to the final knee of
    its refinement, which is the first knee calculate_knee detects on the
    class's rows of the resulting table; a class with no knee has no flagged
    row.  (2) After a full run with no search algorithm, the written table
    flags a row exactly when the row's factor is close to the first knee
    detected for the row's class.  So a class ends with at most one flagged
    row only if at most one of its rows is that close to its knee. *)
Theorem knee_flags_mark_close_rows :
  (forall (fuel : nat) (w : World) (b : Binding) (class_name : string)
          (w' : World) (b' : Binding),
      binary_search ctxt = true ->
      process_class KneeLocator run_eval ctxt fuel (w, b) class_name
      = Ok (Some (w', b')) ->
      has_knee (results_df b') = true
      /\ forall i r, nth_error (rows (results_df b')) i = Some r ->
                     object_name r = class_name ->
                     knee r
                     = close_to (detected_knee KneeLocator (results_df b') class_name) r)
  /\ (forall (fuel : nat) (w w' : World),
         binary_search ctxt = false ->
         run_knee_discovery KneeLocator run_eval ctxt fuel w = Ok (Completed w') ->
         exists df : DataFrame,
           eval_results_file w' = Some df
           /\ has_knee df = true
           /\ forall i r, nth_error (rows df) i = Some r ->
                knee r = close_to (detected_knee KneeLocator df (object_name r)) r).
Proof.
  split.
  - intros fuel w b class_name w' b' Hb. unfold process_class.
    destruct (calculate_knee _ _ _ _) as [[[x_list y_list] w1]|e] eqn:Hck; cbn [bind];
      [|discriminate].
    unfold binary_search in Hb. rewrite Hb.
    match goal with
    | |- context [while_loop _ _ _ fuel class_name ?s] =>
        pose proof (while_loop_slice class_name fuel s eq_refl) as Hinv;
        assert (knee_current KneeLocator class_name s) as Hcur0
          by (symmetry; exact (detected_knee_of _ _ _ _ _ _ Hck));
        pose proof (while_loop_knee_current class_name fuel s Hcur0) as Hcur;
        destruct (snd (while_loop KneeLocator run_eval ctxt fuel class_name s)) as [st|st|e|]
    end; try discriminate.
    all: destruct (match new_knee_degradation_factor st with Some _ => _ | None => _ end)
           as [df'|e] eqn:Ef; cbn [bind]; [|discriminate].
    all: intros H; injection H as _ <-; cbn [results_df].
    all: split; [exact (marked_has_knee _ _ _ Ef)|].
    all: intros i r Hi Hc.
    all: rewrite (marked_same_detection _ _ _ Hinv Ef), <- Hcur.
    all: exact (finish_flags _ _ _ Hinv Ef i r Hi Hc).
  - intros fuel w w' Hb. unfold run_knee_discovery.
    destruct (run_eval_on_degraded_images _ _ _) as [[rep w1]|e]; cbn [bind]; [|discriminate].
    destruct (load_results w1) as [b0|]; [|discriminate].
    destruct (prepare (results_df b0)) as [df0|e] eqn:Ep; cbn [bind]; [|discriminate].
    destruct (prepare_resets _ _ Ep) as [Hk0 Hall].
    match goal with
    | |- context [for_classes _ _ _ fuel (?w2, ?b2) ?cs] =>
        pose proof (for_classes_plain KneeLocator run_eval ctxt fuel cs Hb w2 b2) as Hfc;
        destruct (for_classes KneeLocator run_eval ctxt fuel (w2, b2) cs)
          as [[[w3 b3]|]|e] eqn:Efc
    end; cbn [bind]; try discriminate.
    intros H. injection H as <-.
    specialize (Hfc w3 b3 Hk0 eq_refl). cbn [results_df] in Hfc.
    exists (results_df b3). split; [|split].
    + now destruct (cache_results ctxt).
    + now rewrite Hfc.
    + intros i r Hi. rewrite Hfc in Hi |- *. cbn [rows] in Hi.
      rewrite nth_error_map in Hi.
      destruct (nth_error (rows df0) i) as [r0|] eqn:Hr0; [|discriminate].
      cbn [option_map] in Hi. injection Hi as <-.
      assert (knee r0 = false) as Hf0.
      { rewrite Forall_forall in Hall. apply Hall. eapply nth_error_In; eauto. }
      assert (existsb (String.eqb (object_name r0)) (unique (map object_name (rows df0))) = true)
        as Hin.
      { apply unique_complete. apply in_map. eapply nth_error_In; eauto. }
      destruct (flag_row_is_set_knee (detected_knee KneeLocator df0)
                  (unique (map object_name (rows df0))) r0) as [k Ek].
      rewrite Ek at 2 3. cbn [object_name set_knee].
      rewrite (detected_knee_map KneeLocator df0 _ _ _ (object_name r0)
                 (flag_row_is_set_knee _ _)).
      unfold close_to at 1. cbn [degradation_factor set_knee].
      fold (close_to (detected_knee KneeLocator df0 (object_name r0)) r0).
      unfold flag_row. rewrite Hin. cbn [andb].
      destruct (close_to _ r0); [reflexivity | exact Hf0].
Qed.

End Marking.

Lemma knee_flags_mark_close_rows_witness :
  let w0 :=
    Sample.swept
      (run_eval_on_degraded_images (Sample.run_eval ["car"; "truck"]%string)
         (Sample.ctxt (Some "binary"%string) false) (Sample.disk None None)) in
  let b0 :=
    {| results_df :=
         match eval_results_file w0 with Some df => df | None => Sample.empty_df end;
       cached := false |} in
  let b' :=
    match process_class Sample.locator (Sample.run_eval ["car"; "truck"]%string)
            (Sample.ctxt (Some "binary"%string) false) 10 (w0, b0) "car" with
    | Ok (Some (_, b1)) => b1
    | _ => b0
    end in
  (has_knee (results_df b') = true
   /\ Forall (fun r => object_name r = "car"%string ->
                       knee r
                       = close_to (detected_knee Sample.locator (results_df b') "car") r)
        (rows (results_df b')))
  /\ exists df : DataFrame,
       eval_results_file
         (Sample.completed
            (run_knee_discovery Sample.locator (Sample.run_eval ["car"; "bike"]%string)
               (Sample.ctxt None false) 10 (Sample.disk None None))) = Some df
       /\ has_knee df = true
       /\ forall i r, nth_error (rows df) i = Some r ->
            knee r = close_to (detected_knee Sample.locator df (object_name r)) r.
Proof.
  intros w0 b0 b'. split.
  - destruct (proj1 (knee_flags_mark_close_rows Sample.locator
                       (Sample.run_eval ["car"; "truck"]%string)
                       (Sample.ctxt (Some "binary"%string) false))
                10%nat w0 b0 "car"%string
                (match process_class Sample.locator
                         (Sample.run_eval ["car"; "truck"]%string)
                         (Sample.ctxt (Some "binary"%string) false) 10 (w0, b0) "car" with
                 | Ok (Some (w1, _)) => w1
                 | _ => w0
                 end) b' eq_refl) as [Hk Hrows].
    + vm_compute. reflexivity.
    + split; [exact Hk|]. apply Forall_forall. intros r Hin Hc.
      apply In_nth_error in Hin as [i Hi]. exact (Hrows i r Hi Hc).
  - apply (proj2 (knee_flags_mark_close_rows Sample.locator
                    (Sample.run_eval ["car"; "bike"]%string) (Sample.ctxt None false))
             10 (Sample.disk None None)).
    + reflexivity.
    + vm_compute. reflexivity.
Defined.

(** C4, as stated, fails: the persisted table holds the class "car"
    evaluated from a 200x200 original, and the run sweeps a 100x100
    original.  The rows 80x80 of 200x200 and 40x40 of 100x100 have the same
    degradation factor 0.4, the detected knee; both end flagged. *)
Lemma two_rows_flagged :
  map (fun ir => (fst ir, original_resolution_width (snd ir),
                  effective_resolution_width (snd ir), degradation_factor (snd ir)))
    (flagged_rows
       (Sample.written
          (run_knee_discovery Sample.locator (Sample.run_eval ["car"%string])
             (Sample.ctxt None false) 10
             (Sample.disk (Some Sample.two_resolutions_file) None)))
       "car")
  = [(1%nat, 200%Z, 80%Z, 0.4%float); (6%nat, 100%Z, 40%Z, 0.4%float)].
Proof. vm_compute. reflexivity. Qed.

(** ** A missing results file *)

Section MissingFile.

Variable KneeLocator : list float -> list float -> list float * list float.
Variable run_eval : World -> Z * Z -> Z * Z -> string -> World.
Variable ctxt : Ctxt.

(** The pass in terms of its evaluation: it raises when the evaluation
    raises; it breaks with the world and the table untouched when the
    evaluation is not reached; and once the evaluation is done it breaks
    exactly when the refresh finds neither cache nor results file. *)
Lemma loop_body_refresh (class_name : string) (st : LoopState) :
  match pass_evaluation run_eval ctxt st with
  | Raise e => loop_body KneeLocator run_eval ctxt class_name st = Raise e
  | Ok None =>
      exists st', loop_body KneeLocator run_eval ctxt class_name st = Ok (Break st')
                  /\ world st' = world st /\ binding st' = binding st
  | Ok (Some w2) =>
      match load_results w2 with
      | None =>
          exists st', loop_body KneeLocator run_eval ctxt class_name st = Ok (Break st')
                      /\ world st' = w2
                      /\ results_df (binding st') = results_df (binding st)
                      /\ results_class_df st' = results_class_df st
                      /\ new_knee_degradation_factor st' = new_knee_degradation_factor st
                      /\ iteration st' = (iteration st + 1)%Z
      | Some b =>
          forall st', loop_body KneeLocator run_eval ctxt class_name st <> Ok (Break st')
      end
  end.
Proof.
  unfold pass_evaluation, loop_body.
  destruct (new_knee_degradation_factor st) as [new_knee|] eqn:Hn; [|reflexivity].
  destruct (slice_degradation_factors (results_class_df st)) as [degradation_factors|e];
    cbn [bind]; [|reflexivity].
  destruct (first_true _) as [knee_index|];
    [|eexists; split; [reflexivity|]; now repeat split].
  destruct (match old_knee_mAP st with Some _ => _ | None => false end);
    [eexists; split; [reflexivity|]; now repeat split|].
  destruct (new_candidate _ _ _ _ _) as [new_degradation|];
    [|eexists; split; [reflexivity|]; now repeat split].
  destruct (existsb _ degradation_factors);
    [eexists; split; [reflexivity|]; now repeat split|].
  destruct (slice_rows (results_class_df st)) as [|[i first_row] rest]; [reflexivity|].
  destruct (degraded_resolution _ _ _) as [[degraded_width degraded_height]|e];
    cbn [bind]; [|reflexivity].
  destruct (preprocess_methods ctxt (preprocess_method ctxt)) as [pp_params|];
    [|reflexivity].
  destruct (degrade_images _ _ _ _ _ _) as [[r w]|e]; cbn [bind]; [|reflexivity].
  destruct (load_results _) as [b|].
  - intros st'. destruct (calculate_knee _ _ _ _) as [[[x_list y_list] w3]|e];
      cbn [bind]; discriminate.
  - eexists. split; [reflexivity|]. now repeat split.
Qed.

(** A [break] leaves the table in memory and the current knee as they
    were when the pass began. *)
Lemma loop_body_break (class_name : string) (st st' : LoopState) :
  loop_body KneeLocator run_eval ctxt class_name st = Ok (Break st') ->
  results_df (binding st') = results_df (binding st)
  /\ results_class_df st' = results_class_df st
  /\ new_knee_degradation_factor st' = new_knee_degradation_factor st.
Proof.
  unfold loop_body, bind.
  destruct (new_knee_degradation_factor st) as [new_knee|] eqn:Hn; [|discriminate].
  repeat match goal with
         | |- context [match ?x with _ => _ end] => destruct x
         end;
    intros H; try discriminate; injection H as <-; cbn; auto.
Qed.

(** A pass that ends in a [break] has read the degradation factors of the
    class slice, so the slice has that column. *)
Lemma loop_body_break_factors (class_name : string) (st st' : LoopState) :
  loop_body KneeLocator run_eval ctxt class_name st = Ok (Break st') ->
  slice_has_degradation_factor (results_class_df st') = true.
Proof.
  intros H. destruct (loop_body_break _ _ _ H) as (_ & -> & _).
  unfold loop_body, slice_degradation_factors in H.
  destruct (new_knee_degradation_factor st); [|discriminate].
  now destruct (slice_has_degradation_factor (results_class_df st)).
Qed.

Lemma while_loop_broke_factors (class_name : string) (fuel : nat) :
  forall st st' : LoopState,
    snd (while_loop KneeLocator run_eval ctxt fuel class_name st) = Broke st' ->
    slice_has_degradation_factor (results_class_df st') = true.
Proof.
  induction fuel as [|fuel IH]; intros st st'; cbn [while_loop];
    destruct (loop_condition st); cbn [snd]; try discriminate.
  destruct (loop_body KneeLocator run_eval ctxt class_name st) as [[st1|st1]|e] eqn:Hb;
    cbn [snd]; try discriminate.
  - specialize (IH st1 st').
    destruct (while_loop KneeLocator run_eval ctxt fuel class_name st1) as [n e].
    exact IH.
  - intros H. injection H as <-. exact (loop_body_break_factors _ _ _ Hb).
Qed.

(** The marking step changes knee flags only. *)
Lemma marked_rows (class_name : string) (st : LoopState) (df' : DataFrame) :
  slice_consistent class_name st ->
  (match new_knee_degradation_factor st with
   | Some k =>
       labels <- knee_index_labels (results_class_df st) k ;;
       Ok (mark_rows (clear_class (results_df (binding st)) class_name) labels)
   | None => Ok (clear_class (results_df (binding st)) class_name)
   end) = Ok df' ->
  map (fun r => set_knee r false) (rows df')
  = map (fun r => set_knee r false) (rows (results_df (binding st))).
Proof.
  intros Hs. unfold slice_consistent in Hs. rewrite Hs.
  set (df := results_df (binding st)).
  destruct (clear_class_rows df class_name) as (Hk & Hd & f & Hrows & Hf & _).
  destruct (new_knee_degradation_factor st) as [k|].
  - destruct (knee_index_labels (class_slice df class_name) k) as [labels|e] eqn:El;
      cbn [bind]; [|discriminate].
    intros H. injection H as <-.
    rewrite (mark_rows_rows df (clear_class df class_name) f class_name k labels
               El Hrows Hf Hk), Hrows, !map_map.
    apply map_ext. intros r. destruct (Hf r) as [k1 ->].
    now destruct (_ && _).
  - intros H. injection H as <-. rewrite Hrows, map_map.
    apply map_ext. intros r. now destruct (Hf r) as [k1 ->].
Qed.

(** C5 (amended).  (1) With no in-memory cache and no results file at the
    load that follows the evaluation sweep, the whole run returns early: no
    class is processed and nothing is written.  (2) With neither at the
    refresh inside a refinement pass, the pass ends in a break: the loop of
    the current class stops there, with the table in memory, the class slice
    and the current knee as they were before the pass.  (3) A class whose loop ended
    in a break is marked all the same: its rows of the table in memory are
    flagged against the current knee, nothing but flags changes, and the run
    goes on with the remaining classes.  (4) Once the first load has
    succeeded, a run that does not raise ends by writing the results file.
    (5) Every break keeps the table in memory and the current knee. *)
Theorem missing_results_file :
  (forall (fuel : nat) (w : World) (report : Z * Z) (w1 : World),
      run_eval_on_degraded_images run_eval ctxt
        (if clean_subdir ctxt then set_eval_results_file w None else w) = Ok (report, w1) ->
      results_cache_df w1 = None -> eval_results_file w1 = None ->
      run_knee_discovery KneeLocator run_eval ctxt fuel w = Ok (Returned w1))
  /\ (forall (class_name : string) (st : LoopState) (w2 : World),
         pass_evaluation run_eval ctxt st = Ok (Some w2) ->
         results_cache_df w2 = None -> eval_results_file w2 = None ->
         exists st' : LoopState,
           loop_body KneeLocator run_eval ctxt class_name st = Ok (Break st')
           /\ world st' = w2
           /\ results_df (binding st') = results_df (binding st)
           /\ results_class_df st' = results_class_df st
           /\ new_knee_degradation_factor st' = new_knee_degradation_factor st
           /\ (loop_condition st = true ->
               forall fuel : nat,
                 while_loop KneeLocator run_eval ctxt (S fuel) class_name st
                 = (1%nat, Broke st')))
  /\ (forall (fuel : nat) (w : World) (b : Binding) (class_name : string)
             (x_list y_list : list float) (w1 : World) (st' : LoopState),
         binary_search ctxt = true ->
         calculate_knee KneeLocator w class_name
           (map snd (slice_rows (class_slice (results_df b) class_name)))
         = Ok ((x_list, y_list), w1) ->
         snd (while_loop KneeLocator run_eval ctxt fuel class_name
                (initial_state w1 b (class_slice (results_df b) class_name)
                   (first_knee x_list y_list))) = Broke st' ->
         exists (w' : World) (b' : Binding),
           process_class KneeLocator run_eval ctxt fuel (w, b) class_name
           = Ok (Some (w', b'))
           /\ map (fun r => set_knee r false) (rows (results_df b'))
              = map (fun r => set_knee r false) (rows (results_df (binding st')))
           /\ (forall i r, nth_error (rows (results_df b')) i = Some r ->
                           object_name r = class_name ->
                           knee r = close_to (new_knee_degradation_factor st') r)
           /\ forall rest : list string,
                for_classes KneeLocator run_eval ctxt fuel (w, b) (class_name :: rest)
                = for_classes KneeLocator run_eval ctxt fuel (w', b') rest)
  /\ (forall (fuel : nat) (w : World) (report : Z * Z) (w1 : World),
         run_eval_on_degraded_images run_eval ctxt
           (if clean_subdir ctxt then set_eval_results_file w None else w)
         = Ok (report, w1) ->
         load_results w1 <> None -> (10 <= fuel)%nat ->
         forall r, run_knee_discovery KneeLocator run_eval ctxt fuel w = Ok r ->
                   exists w' df, r = Completed w' /\ eval_results_file w' = Some df)
  /\ (forall class_name st st',
         loop_body KneeLocator run_eval ctxt class_name st = Ok (Break st') ->
         results_df (binding st') = results_df (binding st)
         /\ results_class_df st' = results_class_df st
         /\ new_knee_degradation_factor st' = new_knee_degradation_factor st).
Proof.
  split; [|split; [|split; [|split]]].
  - intros fuel w report w1 Hsweep Hc Hf. unfold run_knee_discovery.
    rewrite Hsweep. cbn [bind]. unfold load_results. now rewrite Hc, Hf.
  - intros class_name st w2 He Hc Hf.
    pose proof (loop_body_refresh class_name st) as H. rewrite He in H.
    unfold load_results in H. rewrite Hc, Hf in H.
    destruct H as (st' & H0 & H1 & H2 & H3 & H4 & _). exists st'.
    repeat (split; [assumption|]).
    intros Hcond fuel. cbn [while_loop]. now rewrite Hcond, H0.
  - intros fuel w b class_name x_list y_list w1 st' Hb Hck Hloop.
    pose proof (while_loop_slice KneeLocator run_eval ctxt class_name fuel
                  (initial_state w1 b (class_slice (results_df b) class_name)
                     (first_knee x_list y_list)) eq_refl) as Hinv.
    rewrite Hloop in Hinv.
    pose proof (while_loop_broke_factors _ _ _ _ Hloop) as Hfac.
    assert (exists df',
               (match new_knee_degradation_factor st' with
                | Some k =>
                    labels <- knee_index_labels (results_class_df st') k ;;
                    Ok (mark_rows (clear_class (results_df (binding st')) class_name) labels)
                | None => Ok (clear_class (results_df (binding st')) class_name)
                end) = Ok df') as [df' Ef].
    { destruct (new_knee_degradation_factor st') as [k|]; [|eauto].
      unfold knee_index_labels, slice_degradation_factors. rewrite Hfac. cbn [bind]. eauto. }
    assert (process_class KneeLocator run_eval ctxt fuel (w, b) class_name
            = Ok (Some (commit (world st') {| results_df := df'; cached := cached (binding st') |},
                        {| results_df := df'; cached := cached (binding st') |}))) as Hp.
    { unfold process_class. rewrite Hck. cbn [bind].
      unfold binary_search in Hb. rewrite Hb, Hloop, Ef. reflexivity. }
    eexists. eexists. split; [exact Hp|]. cbn [results_df].
    split; [exact (marked_rows _ _ _ Hinv Ef)|].
    split; [exact (finish_flags _ _ _ Hinv Ef)|].
    intros rest. cbn [for_classes]. rewrite Hp. reflexivity.
  - intros fuel w report w1 Hsweep Hload Hfuel r. unfold run_knee_discovery.
    rewrite Hsweep. cbn [bind].
    destruct (load_results w1) as [b|]; [|contradiction].
    destruct (prepare (results_df b)) as [df|e]; cbn [bind]; [|discriminate].
    match goal with
    | |- context [for_classes _ _ _ fuel ?a ?cs] =>
        pose proof (for_classes_fuel KneeLocator run_eval ctxt fuel cs Hfuel a) as Hfc;
        destruct (for_classes KneeLocator run_eval ctxt fuel a cs) as [[[w2 b2]|]|e]
    end; cbn [bind]; try discriminate; [|contradiction].
    intros H. injection H as <-. eexists. exists (results_df b2). split; [reflexivity|].
    now destruct (cache_results ctxt).
  - intros class_name st st'. apply loop_body_break.
Qed.

End MissingFile.

Lemma missing_results_file_witness :
  let ctxt := Sample.ctxt (Some "binary"%string) false in
  let w := Sample.disk None None in
  (* the evaluator persists nothing: the first load fails *)
  let silent := Sample.swept (run_eval_on_degraded_images Sample.silent_run_eval ctxt w) in
  (* the evaluator loses the file in the first pass of the class "car" *)
  let swept := Sample.swept (run_eval_on_degraded_images Sample.flaky_run_eval ctxt w) in
  let b :=
    {| results_df :=
         match eval_results_file swept with
         | Some df => match prepare df with Ok d => d | Raise _ => Sample.empty_df end
         | None => Sample.empty_df
         end;
       cached := false |} in
  let xy :=
    match calculate_knee Sample.locator swept "car"
            (map snd (slice_rows (class_slice (results_df b) "car"))) with
    | Ok r => r
    | Raise _ => (([], []), swept)
    end in
  let st0 := initial_state (snd xy) b (class_slice (results_df b) "car")
               (first_knee (fst (fst xy)) (snd (fst xy))) in
  let w2 :=
    match pass_evaluation Sample.flaky_run_eval ctxt st0 with
    | Ok (Some w2) => w2
    | _ => swept
    end in
  let broke :=
    match snd (while_loop Sample.locator Sample.flaky_run_eval ctxt 10 "car" st0) with
    | Broke st => st
    | _ => st0
    end in
  (results_cache_df silent = None /\ eval_results_file silent = None
   /\ run_knee_discovery Sample.locator Sample.silent_run_eval ctxt 10 w
      = Ok (Returned silent))
  /\ (results_cache_df w2 = None /\ eval_results_file w2 = None
      /\ exists st' : LoopState,
           loop_body Sample.locator Sample.flaky_run_eval ctxt "car" st0 = Ok (Break st')
           /\ world st' = w2
           /\ results_df (binding st') = results_df (binding st0)
           /\ results_class_df st' = results_class_df st0
           /\ new_knee_degradation_factor st' = new_knee_degradation_factor st0
           /\ (loop_condition st0 = true ->
               forall fuel : nat,
                 while_loop Sample.locator Sample.flaky_run_eval ctxt (S fuel) "car" st0
                 = (1%nat, Broke st')))
  /\ (exists (w' : World) (b' : Binding),
         process_class Sample.locator Sample.flaky_run_eval ctxt 10 (swept, b) "car"
         = Ok (Some (w', b'))
         /\ map (fun r => set_knee r false) (rows (results_df b'))
            = map (fun r => set_knee r false) (rows (results_df (binding broke)))
         /\ (forall i r, nth_error (rows (results_df b')) i = Some r ->
                         object_name r = "car"%string ->
                         knee r = close_to (new_knee_degradation_factor broke) r)
         /\ forall rest : list string,
              for_classes Sample.locator Sample.flaky_run_eval ctxt 10 (swept, b)
                ("car"%string :: rest)
              = for_classes Sample.locator Sample.flaky_run_eval ctxt 10 (w', b') rest)
  /\ exists w' df,
       run_knee_discovery Sample.locator Sample.flaky_run_eval ctxt 10 w = Ok (Completed w')
       /\ eval_results_file w' = Some df.
Proof.
  intros ctxt w silent swept b xy st0 w2 broke.
  pose proof (missing_results_file Sample.locator Sample.silent_run_eval ctxt) as Hsilent.
  pose proof (missing_results_file Sample.locator Sample.flaky_run_eval ctxt) as Hflaky.
  destruct Hsilent as (A & _). destruct Hflaky as (_ & B & C & D & _).
  split; [|split; [|split]].
  - split; [reflexivity|]. split; [reflexivity|].
    apply (A 10%nat w (1, 2)%Z silent); [vm_compute; reflexivity | reflexivity | reflexivity].
  - split; [reflexivity|]. split; [reflexivity|].
    apply (B "car"%string st0 w2); [vm_compute; reflexivity | reflexivity | reflexivity].
  - apply (C 10%nat swept b "car"%string (fst (fst xy)) (snd (fst xy)) (snd xy) broke).
    + reflexivity.
    + vm_compute. reflexivity.
    + vm_compute. reflexivity.
  - destruct (D 10%nat w (1, 2)%Z swept) with
      (r := Completed (Sample.completed
                         (run_knee_discovery Sample.locator Sample.flaky_run_eval ctxt 10 w)))
      as (w' & df & Hr & Hdf).
    + vm_compute. reflexivity.
    + vm_compute. discriminate.
    + apply Nat.le_refl.
    + vm_compute. reflexivity.
    + exists w', df. split; [|exact Hdf]. rewrite <- Hr. vm_compute. reflexivity.
Defined.

(** C5, as stated, fails: the evaluator of this run loses the results
    file whenever it is asked for a resolution off the sweep grid.  In the
    first pass of the class "car" the refresh finds neither cache nor file and
    the pass ends with a break; the run still marks "car", goes on to the
    class "truck", and writes the results file with both knees flagged. *)
Lemma run_continues_after_missing_file :
  match Sample.class_start Sample.locator Sample.flaky_run_eval
          (Sample.ctxt (Some "binary"%string) false) (Sample.disk None None) "car" with
  | Some st0 =>
      match loop_body Sample.locator Sample.flaky_run_eval
              (Sample.ctxt (Some "binary"%string) false) "car" st0 with
      | Ok (Break st) =>
          Some (results_cache_df (world st), eval_results_file (world st),
                new_knee_degradation_factor st)
      | _ => None
      end
  | None => None
  end = Some (None, None, Some 0.6%float)
  /\ filter (fun f => snd f)
       (Sample.flags
          (Sample.written
             (run_knee_discovery Sample.locator Sample.flaky_run_eval
                (Sample.ctxt (Some "binary"%string) false) 10 (Sample.disk None None))))
     = [("truck"%string, 40%Z, true); ("car"%string, 60%Z, true)]
  /\ map knee_class
       (knee_results
          (Sample.completed
             (run_knee_discovery Sample.locator Sample.flaky_run_eval
                (Sample.ctxt (Some "binary"%string) false) 10 (Sample.disk None None))))
     = ["car"%string; "truck"%string].
Proof. vm_compute. repeat split. Qed.

(** ** The table in memory after a refresh *)

Lemma record_knees_store (class_name : string) (res : float * float) (xs : list float) :
  forall (ys : list float) (w w' : World),
    record_knees w class_name res xs ys = Ok w' ->
    results_cache_df w' = results_cache_df w /\ eval_results_file w' = eval_results_file w.
Proof.
  induction xs as [|x xs IH]; intros ys w w'; cbn [record_knees].
  - intros H. injection H as <-. auto.
  - destruct ys as [|y ys]; [discriminate|]. intros H.
    destruct (IH _ _ _ H) as [Hc Hf]. now rewrite Hc, Hf.
Qed.

Section Refresh.

Variable KneeLocator : list float -> list float -> list float * list float.
Variable run_eval : World -> Z * Z -> Z * Z -> string -> World.
Variable ctxt : Ctxt.

(** Detecting a knee leaves the cache and the results file as they are. *)
Lemma calculate_knee_store (w w' : World) (class_name : string) (rs : list Row)
    (xy : list float * list float) :
  calculate_knee KneeLocator w class_name rs = Ok (xy, w') ->
  results_cache_df w' = results_cache_df w /\ eval_results_file w' = eval_results_file w.
Proof.
  unfold calculate_knee.
  destruct (calc_degradation_factor _ _ _ _) as [factors|e]; cbn [bind]; [|discriminate].
  destruct (forallb _ _); [intros H; injection H as _ <-; auto|].
  destruct (_ || _); [intros H; injection H as _ <-; auto|].
  destruct (sorted _) as [|x xs] eqn:Ex; [intros H; injection H as _ <-; auto|].
  destruct (select _ (map _ rs)) as [|w0 ws]; [discriminate|].
  destruct (select _ (map _ rs)) as [|h0 hs]; [discriminate|].
  match goal with
  | |- bind ?m _ = _ -> _ => destruct m as [w1|e] eqn:Hr
  end; cbn [bind]; [|discriminate].
  intros H. injection H as _ <-. exact (record_knees_store _ _ _ _ _ _ Hr).
Qed.

(** A pass of the refinement loop that goes on to the next one leaves the
    name [results_df] bound to what the store holds after the evaluation:
    the cache object when there is one, else the table re-read from the
    results file, in place of the table the run had in memory before. *)
Theorem refresh_rebinds_results (class_name : string) (st st' : LoopState) :
  loop_body KneeLocator run_eval ctxt class_name st = Ok (Continue st') ->
  load_results (world st') = Some (binding st').
Proof.
  unfold loop_body, bind.
  repeat match goal with
         | |- context [calculate_knee ?k ?a ?b ?c] =>
             destruct (calculate_knee k a b c) as [[[x_list y_list] w2]|e] eqn:Hk
         | |- context [match load_results ?a with _ => _ end] =>
             destruct (load_results a) as [b|] eqn:Hl
         | |- context [match ?x with _ => _ end] => destruct x
         end;
    intros H; try discriminate; injection H as <-; cbn [world binding].
  all: destruct (calculate_knee_store _ _ _ _ _ Hk) as [Hc Hf].
  all: unfold load_results in *; rewrite Hc, Hf; exact Hl.
Qed.

End Refresh.

Lemma refresh_rebinds_results_witness :
  let st0 :=
    Sample.started
      (Sample.class_start Sample.locator (Sample.run_eval ["car"; "truck"]%string)
         (Sample.ctxt (Some "binary"%string) false) (Sample.disk None None) "car") in
  let st1 :=
    Sample.stepped
      (loop_body Sample.locator (Sample.run_eval ["car"; "truck"]%string)
         (Sample.ctxt (Some "binary"%string) false) "car" st0) in
  load_results (world st1) = Some (binding st1).
Proof.
  intros st0 st1.
  apply (refresh_rebinds_results Sample.locator (Sample.run_eval ["car"; "truck"]%string)
           (Sample.ctxt (Some "binary"%string) false) "car" st0 st1).
  vm_compute. reflexivity.
Defined.

(** C10 (failing input): the reset of line 380 is made, but it does not
    last through a refresh from the results file.  The persisted table holds
    a flagged row of the class "bike" (70x70); the run uses the binary search
    and no cache.  When the refinement of "bike" starts, no row of the table
    in memory is flagged.  "bike" has no knee.  The refinement of "car"
    evaluates 50x50 and re-reads the file, and the table written at the end
    has the "bike" row flagged again, next to the knee of "car".  With no
    search algorithm, and with the table held in the cache, the same input
    ends with the knee of "car" as the only flag. *)
Theorem stale_flag_survives :
  filter (fun f => snd f) (Sample.flags Sample.stale_file) = [("bike"%string, 70%Z, true)]
  /\ filter (fun f => snd f)
       (Sample.flags
          (results_df
             (binding
                (Sample.started
                   (Sample.class_start Sample.locator (Sample.run_eval ["bike"; "car"]%string)
                      (Sample.ctxt (Some "binary"%string) false)
                      (Sample.disk (Some Sample.stale_file) None) "bike"))))) = []
  /\ detected_knee Sample.locator
       (Sample.written
          (run_knee_discovery Sample.locator (Sample.run_eval ["bike"; "car"]%string)
             (Sample.ctxt (Some "binary"%string) false) 10
             (Sample.disk (Some Sample.stale_file) None))) "bike" = None
  /\ filter (fun f => snd f)
       (Sample.flags
          (Sample.written
             (run_knee_discovery Sample.locator (Sample.run_eval ["bike"; "car"]%string)
                (Sample.ctxt (Some "binary"%string) false) 10
                (Sample.disk (Some Sample.stale_file) None))))
     = [("bike"%string, 70%Z, true); ("car"%string, 60%Z, true)]
  /\ filter (fun f => snd f)
       (Sample.flags
          (Sample.written
             (run_knee_discovery Sample.locator (Sample.run_eval ["bike"; "car"]%string)
                (Sample.ctxt None false) 10
                (Sample.disk (Some Sample.stale_file) None))))
     = [("car"%string, 60%Z, true)]
  /\ filter (fun f => snd f)
       (Sample.flags
          (Sample.written
             (run_knee_discovery Sample.locator (Sample.run_eval ["bike"; "car"]%string)
                (Sample.ctxt (Some "binary"%string) false) 10
                (Sample.disk None (Some Sample.stale_file)))))
     = [("car"%string, 60%Z, true)].
Proof. vm_compute. repeat split. Qed.

(** The same refresh drops flags the run itself has set: with the binary
    search and no cache, the class "car" is marked at its knee (60x60) when
    its refinement ends; the refinement of "truck" then re-reads the results
    file, in which no row of "car" is flagged, and the table written at the
    end flags the knee of "truck" only, although the knee detected for "car"
    on that table is still 0.6. *)
Lemma earlier_flag_dropped_by_refresh :
  filter (fun f => snd f)
    (Sample.flags
       (Sample.written
          (run_knee_discovery Sample.locator (Sample.run_eval ["car"; "truck"]%string)
             (Sample.ctxt (Some "binary"%string) false) 10 (Sample.disk None None))))
  = [("truck"%string, 45%Z, true)]
  /\ detected_knee Sample.locator
       (Sample.written
          (run_knee_discovery Sample.locator (Sample.run_eval ["car"; "truck"]%string)
             (Sample.ctxt (Some "binary"%string) false) 10 (Sample.disk None None))) "car"
     = Some 0.6%float.
Proof. vm_compute. split; reflexivity. Qed.

(** ** Passes of the refinement loop that end in a break *)

Section Breaks.

Variable KneeLocator : list float -> list float -> list float * list float.
Variable run_eval : World -> Z * Z -> Z * Z -> string -> World.
Variable ctxt : Ctxt.


End Breaks.


(** ** When the bisection has no side to take *)

(** The pass ends with "no further refinement possible" exactly when the
    knee is the last sample in factor order and either it is also the first
    one or the mAP difference to its left neighbour is not above zero. *)
Theorem no_refinement_iff (new_knee : float)
    (degradation_factors_sorted mAP_values_sorted : list float)
    (knee_index : nat) (new_mAP : float) :
  new_candidate new_knee degradation_factors_sorted mAP_values_sorted knee_index new_mAP = None
  <-> (knee_index <? List.length degradation_factors_sorted - 1)%nat = false
      /\ (knee_index = 0%nat
          \/ (0 <? abs (new_mAP - nth (knee_index - 1) mAP_values_sorted nan))%float = false).
Proof.
  unfold new_candidate, left_neighbour, right_neighbour, choose_side.
  destruct (knee_index <? List.length degradation_factors_sorted - 1)%nat;
    destruct (0 <? knee_index)%nat eqn:Hk.
  - split; [|intros [H _]; discriminate H].
    destruct (_ <? _)%float; discriminate.
  - split; [|intros [H _]; discriminate H].
    destruct (_ <? _)%float; discriminate.
  - destruct (0 <? abs (new_mAP - nth (knee_index - 1) mAP_values_sorted nan))%float eqn:Hd.
    + split; [discriminate|]. intros [_ [H|H]]; [|discriminate H].
      apply Nat.ltb_lt in Hk. lia.
    + split; auto.
  - apply Nat.ltb_ge in Hk. rewrite ltb_irrefl. split; [|reflexivity].
    intros _. split; [reflexivity|]. left. lia.
Qed.

(** ** The working set and the disk under degrade_images *)

Lemma path_exists_create (w : World) (p q : string) :
  path_exists (create w p) q = path_exists w q || String.eqb q p.
Proof.
  unfold create. destruct (path_exists w p) eqn:Hp.
  - destruct (String.eqb q p) eqn:E; [|now rewrite orb_false_r].
    apply String.eqb_eq in E. subst. now rewrite Hp.
  - unfold path_exists, set_files. cbn [files]. rewrite existsb_app. cbn.
    now rewrite orb_false_r.
Qed.

Lemma create_keeps (w : World) (p : string) :
  val_image_filename_set (create w p) = val_image_filename_set w
  /\ listdir (create w p) = listdir w
  /\ unreadable (create w p) = unreadable w.
Proof. unfold create. now destruct (path_exists w p). Qed.

Lemma create_existing (w : World) (p : string) :
  path_exists w p = true -> create w p = w.
Proof. unfold create. now intros ->. Qed.

(** The two files a pass creates for an image. *)
Lemma create_pair (w : World) (p1 p2 : string) :
  let w2 := if negb (path_exists (create w p1) p2)
            then create (create w p1) p2 else create w p1 in
  (forall q, path_exists w q = true -> path_exists w2 q = true)
  /\ val_image_filename_set w2 = val_image_filename_set w
  /\ path_exists w2 p1 = true.
Proof.
  cbn zeta. split; [|split].
  - intros q Hq. destruct (negb _); rewrite ?path_exists_create, Hq; reflexivity.
  - destruct (negb _); [rewrite (proj1 (create_keeps _ _))|];
      apply (proj1 (create_keeps _ _)).
  - destruct (negb _); rewrite ?path_exists_create, String.eqb_refl;
      now rewrite ?orb_true_r.
Qed.

(** What one pass of the loop over the images does to the world and to the
    counter: the image stays in the working set and is served, or it leaves
    the working set. *)
Lemma degrade_one_step (orig degraded : Z * Z) (dir : string) (w : World) (c : Z)
    (name : string) :
  (forall q, path_exists w q = true ->
             path_exists (fst (degrade_one orig degraded dir (w, c) name)) q = true)
  /\ ((val_image_filename_set (fst (degrade_one orig degraded dir (w, c) name))
       = val_image_filename_set w
       /\ served (fst (degrade_one orig degraded dir (w, c) name)) dir name = true
       /\ snd (degrade_one orig degraded dir (w, c) name) = c)
      \/ (val_image_filename_set (fst (degrade_one orig degraded dir (w, c) name))
          = option_map (filter (fun x => negb (String.eqb x name)))
              (val_image_filename_set w)
          /\ (c <= snd (degrade_one orig degraded dir (w, c) name) <= c + 1)%Z)).
Proof.
  unfold degrade_one, served, degraded_copy.
  destruct (path_exists w name) eqn:E1; cbn [andb];
    [destruct (path_exists w (Path.replace_image_ext_with_label name)) eqn:E2|].
  - destruct (path_exists w (Path.join dir (Path.basename name))) eqn:E3; cbn [negb].
    + cbn [fst snd]. split; [auto|]. left. now rewrite E1, E2, E3.
    + pose proof (create_pair w (Path.join dir (Path.basename name))
                    (Path.join dir
                       (Path.basename (Path.replace_image_ext_with_label name))))
        as Hmade.
      cbn zeta in Hmade. destruct Hmade as (H1 & H2 & H3).
      destruct ((fst orig =? fst degraded)%Z && (snd orig =? snd degraded)%Z).
      * cbn [fst snd]. split; [exact H1|]. left.
        rewrite (H1 _ E1), (H1 _ E2), H3. now repeat split.
      * destruct (unreadable w name).
        -- cbn [fst snd]. split; [auto|]. right. split; [reflexivity | lia].
        -- cbn [fst snd]. split; [exact H1|]. left.
           rewrite (H1 _ E1), (H1 _ E2), H3. now repeat split.
  - cbn [fst snd]. split; [auto|]. right. split; [reflexivity | lia].
  - cbn [fst snd]. split; [auto|]. right. split; [reflexivity | lia].
Qed.

Lemma in_working_set_filter (w w1 : World) (name x : string) :
  val_image_filename_set w1
  = option_map (filter (fun x => negb (String.eqb x name))) (val_image_filename_set w) ->
  In x (working_set w1) -> In x (working_set w) /\ x <> name.
Proof.
  unfold working_set. intros ->. destruct (val_image_filename_set w) as [s|]; cbn;
    [|contradiction].
  intros H. apply filter_In in H as [H1 H2]. split; [exact H1|].
  intros ->. now rewrite String.eqb_refl in H2.
Qed.

Lemma degrade_fold_serves (orig degraded : Z * Z) (dir : string) (names : list string) :
  forall (w : World) (c : Z),
    (forall q, path_exists w q = true ->
               path_exists (fst (fold_left (degrade_one orig degraded dir) names (w, c))) q
               = true)
    /\ (forall x, In x (working_set
                          (fst (fold_left (degrade_one orig degraded dir) names (w, c)))) ->
                  In x (working_set w))
    /\ (forall x, In x names ->
                  In x (working_set
                          (fst (fold_left (degrade_one orig degraded dir) names (w, c)))) ->
                  served (fst (fold_left (degrade_one orig degraded dir) names (w, c)))
                    dir x = true)
    /\ (forall s, val_image_filename_set w = Some s ->
                  exists s',
                    val_image_filename_set
                      (fst (fold_left (degrade_one orig degraded dir) names (w, c)))
                    = Some s').
Proof.
  induction names as [|name names IH]; intros w c; cbn [fold_left].
  - cbn [fst]. repeat split; eauto; intros x [].
  - destruct (degrade_one_step orig degraded dir w c name) as [Hf Hs].
    destruct (degrade_one orig degraded dir (w, c) name) as [w1 c1] eqn:E.
    cbn [fst snd] in Hf, Hs.
    destruct (IH w1 c1) as (IHf & IHs & IHv & IHset).
    assert (forall x, In x (working_set w1) -> In x (working_set w)) as Hsub.
    { intros x Hx. destruct Hs as [(Hs & _ & _)|(Hs & _)].
      - unfold working_set in *. now rewrite <- Hs.
      - now apply (in_working_set_filter _ _ _ _ Hs). }
    split; [auto|]. split; [auto|]. split.
    + intros x [<-|Hx] Hin; [|now apply IHv].
      assert (served w1 dir name = true) as Hv.
      { destruct Hs as [(_ & Hv & _)|(Hs & _)]; [exact Hv|].
        apply IHs in Hin. now destruct (in_working_set_filter _ _ _ _ Hs Hin). }
      unfold served in *.
      apply andb_prop in Hv as [Hv H3]. apply andb_prop in Hv as [H1 H2].
      now rewrite (IHf _ H1), (IHf _ H2), (IHf _ H3).
    + intros s Hset. destruct Hs as [(Hs & _ & _)|(Hs & _)].
      * apply (IHset s). now rewrite Hs.
      * rewrite Hset in Hs. cbn [option_map] in Hs. exact (IHset _ Hs).
Qed.

Lemma in_distinct (x : string) (l : list string) : In x (distinct l) <-> In x l.
Proof.
  induction l as [|a l IH]; cbn [distinct]; [reflexivity|].
  destruct (existsb (String.eqb a) l) eqn:E; cbn [In]; rewrite IH.
  - split; [auto|]. intros [<-|H]; [|exact H].
    apply existsb_exists in E as (y & Hy & Ey). apply String.eqb_eq in Ey. now subst.
  - reflexivity.
Qed.

(** The state a call of degrade_images leaves. *)
Lemma degrade_images_after (ctxt : Ctxt) (w : World)
    (orig degraded : Z * Z) (dir : string) (corrupted_counter : Z)
    (r : Z * Z) (w' : World) :
  degrade_images ctxt w orig degraded dir corrupted_counter = Ok (r, w') ->
  (forall q, path_exists w q = true -> path_exists w' q = true)
  /\ path_exists w' dir = true
  /\ (exists s', val_image_filename_set w' = Some s')
  /\ (forall s x, val_image_filename_set w = Some s -> In x (working_set w') -> In x s)
  /\ (forall x, In x (working_set w') -> served w' dir x = true).
Proof.
  unfold degrade_images.
  destruct (val_baseline_dir_of ctxt orig) as [base|e]; cbn [bind]; [|discriminate].
  destruct (create_keeps w dir) as (Hs & Hl & _).
  assert (path_exists (create w dir) dir = true) as Hdir.
  { now rewrite path_exists_create, String.eqb_refl, orb_true_r. }
  assert (forall q, path_exists w q = true -> path_exists (create w dir) q = true) as Hc.
  { intros q Hq. now rewrite path_exists_create, Hq. }
  unfold val_image_filenames_of. rewrite Hs, Hl.
  destruct (val_image_filename_set w) as [s|] eqn:Hset; cbn [bind].
  - destruct (degrade_fold_serves orig degraded dir s (create w dir) corrupted_counter)
      as (Hf & Hsub & Hv & Hsome).
    destruct (fold_left _ s _) as [w1 c1]. cbn [fst] in *.
    intros H. injection H as _ <-.
    assert (forall x, In x (working_set w1) -> In x s) as Hin.
    { intros x Hx. apply Hsub in Hx. unfold working_set in Hx. now rewrite Hs in Hx. }
    split; [auto|]. split; [auto|]. split; [exact (Hsome s Hs)|].
    split; [intros s0 x Hs0; injection Hs0 as <-; auto|].
    intros x Hx. apply Hv; auto.
  - destruct (listdir w base) as [names|]; cbn [bind]; [|discriminate].
    match goal with
    | |- context [fold_left ?f ?l (?w0, ?c0)] =>
        destruct (degrade_fold_serves orig degraded dir l w0 c0) as (Hf & Hsub & Hv & Hsome);
        destruct (fold_left f l (w0, c0)) as [w1 c1] eqn:Efold
    end.
    cbn [fst] in *. intros H. injection H as _ <-.
    split; [intros q Hq; apply Hf; unfold path_exists in *; cbn [files]; auto|].
    split; [apply Hf; unfold path_exists in *; cbn [files]; auto|].
    split; [exact (Hsome _ eq_refl)|].
    split; [discriminate|].
    intros x Hx. apply Hv; [|exact Hx].
    apply Hsub in Hx. unfold working_set, set_val_image_filename_set in Hx.
    cbn [val_image_filename_set] in Hx. exact (proj1 (in_distinct _ _) Hx).
Qed.

(** On a first call the names come from the baseline directory: the working
    set left holds only image names of its listing. *)
Lemma degrade_images_listing (ctxt : Ctxt) (w : World)
    (orig degraded : Z * Z) (dir : string) (corrupted_counter : Z)
    (r : Z * Z) (w' : World) :
  degrade_images ctxt w orig degraded dir corrupted_counter = Ok (r, w') ->
  val_image_filename_set w = None ->
  exists base names,
    val_baseline_dir_of ctxt orig = Ok base
    /\ listdir w base = Some names
    /\ forall x, In x (working_set w') ->
                 In x (map (Path.join base)
                         (filter (fun x => Path.endswith_any x Path.exts) names)).
Proof.
  unfold degrade_images. intros H Hset.
  destruct (val_baseline_dir_of ctxt orig) as [base|e]; cbn [bind] in H; [|discriminate].
  destruct (create_keeps w dir) as (Hs & Hl & _).
  unfold val_image_filenames_of in H. rewrite Hs, Hl, Hset in H.
  destruct (listdir w base) as [names|] eqn:Hdir; cbn [bind] in H; [|discriminate].
  exists base, names. split; [reflexivity|]. split; [exact Hdir|].
  match type of H with
  | context [fold_left ?f ?l (?w0, ?c0)] =>
      destruct (degrade_fold_serves orig degraded dir l w0 c0) as (_ & Hsub & _);
      destruct (fold_left f l (w0, c0)) as [w1 c1]
  end.
  cbn [fst] in Hsub. injection H as _ <-.
  intros x Hx. apply Hsub in Hx. unfold working_set, set_val_image_filename_set in Hx.
  cbn [val_image_filename_set] in Hx. exact (proj1 (in_distinct _ _) Hx).
Qed.

(** After a call that returns, the working set is set and holds only names
    the call started from: names of the working set it found or, on a first
    call, image names of the baseline directory's listing.  No file has been
    removed; the degraded directory exists; and every image still in the
    working set is served at the resolution of the call: the image, its label
    and its degraded copy are on disk. *)
Theorem degrade_images_serves_working_set (ctxt : Ctxt) (w : World)
    (orig degraded : Z * Z) (dir : string) (corrupted_counter : Z)
    (r : Z * Z) (w' : World) :
  degrade_images ctxt w orig degraded dir corrupted_counter = Ok (r, w') ->
  (forall q, path_exists w q = true -> path_exists w' q = true)
  /\ path_exists w' dir = true
  /\ (exists s', val_image_filename_set w' = Some s')
  /\ (forall s x, val_image_filename_set w = Some s -> In x (working_set w') -> In x s)
  /\ (val_image_filename_set w = None ->
      exists base names,
        val_baseline_dir_of ctxt orig = Ok base
        /\ listdir w base = Some names
        /\ forall x, In x (working_set w') ->
                     In x (map (Path.join base)
                             (filter (fun x => Path.endswith_any x Path.exts) names)))
  /\ (forall x, In x (working_set w') -> served w' dir x = true).
Proof.
  intros H. destruct (degrade_images_after _ _ _ _ _ _ _ _ H) as (H1 & H2 & H3 & H4 & H5).
  pose proof (degrade_images_listing _ _ _ _ _ _ _ _ H) as H6.
  repeat split; auto.
Qed.

Lemma degrade_images_serves_working_set_witness :
  let ctxt := Sample.ctxt None false in
  (* a first call, and a call that finds the working set the first one left *)
  let first := Sample.disk None None in
  let w1 := Sample.swept (degrade_images ctxt first (100, 100)%Z (50, 50)%Z
                            "pre/val/degraded_50x50" 0) in
  let w2 := Sample.swept (degrade_images ctxt w1 (100, 100)%Z (25, 25)%Z
                            "pre/val/degraded_25x25" 1) in
  ((forall q, path_exists first q = true -> path_exists w1 q = true)
   /\ path_exists w1 "pre/val/degraded_50x50" = true
   /\ (exists s', val_image_filename_set w1 = Some s')
   /\ (exists base names,
          val_baseline_dir_of ctxt (100, 100)%Z = Ok base
          /\ listdir first base = Some names
          /\ forall x, In x (working_set w1) ->
                       In x (map (Path.join base)
                               (filter (fun x => Path.endswith_any x Path.exts) names)))
   /\ (forall x, In x (working_set w1) -> served w1 "pre/val/degraded_50x50" x = true))
  /\ ((forall q, path_exists w1 q = true -> path_exists w2 q = true)
      /\ path_exists w2 "pre/val/degraded_25x25" = true
      /\ (exists s', val_image_filename_set w2 = Some s')
      /\ (forall x, In x (working_set w2) -> In x (working_set w1))
      /\ (forall x, In x (working_set w2) -> served w2 "pre/val/degraded_25x25" x = true)).
Proof.
  intros ctxt first w1 w2. split.
  - destruct (degrade_images_serves_working_set ctxt first (100, 100)%Z (50, 50)%Z
                "pre/val/degraded_50x50" 0 (2, 1)%Z w1)
      as (H1 & H2 & H3 & _ & H5 & H6); [vm_compute; reflexivity|].
    repeat split; auto.
  - destruct (degrade_images_serves_working_set ctxt w1 (100, 100)%Z (25, 25)%Z
                "pre/val/degraded_25x25" 1 (1, 1)%Z w2)
      as (H1 & H2 & H3 & H4 & _ & H6); [vm_compute; reflexivity|].
    split; [exact H1|]. split; [exact H2|]. split; [exact H3|]. split; [|exact H6].
    intros x Hx. exact (H4 (working_set w1) x eq_refl Hx).
Defined.

(** ** What degrade_images returns *)

Lemma degrade_one_count (orig degraded : Z * Z) (dir : string) (w : World) (c : Z)
    (name : string) :
  snd (degrade_one orig degraded dir (w, c) name)
  = (c + if found_corrupt orig degraded dir w name then 1 else 0)%Z.
Proof.
  unfold degrade_one, found_corrupt, degraded_copy.
  destruct (path_exists w name); cbn [andb]; [|cbn [snd]; lia].
  destruct (path_exists w (Path.replace_image_ext_with_label name)); cbn [andb];
    [|cbn [snd]; lia].
  destruct (path_exists w (Path.join dir (Path.basename name))); cbn [negb andb];
    [cbn [snd]; lia|].
  destruct ((fst orig =? fst degraded)%Z && (snd orig =? snd degraded)%Z); cbn [negb andb];
    [cbn [snd]; lia|].
  destruct (unreadable w name); cbn [snd]; lia.
Qed.

Lemma filter_map_length {A B : Type} (p : B -> bool) (g : A -> B) (l : list A) :
  List.length (filter p (map g l)) = List.length (filter (fun a => p (g a)) l).
Proof.
  induction l as [|a l IH]; cbn [map filter]; [reflexivity|].
  destruct (p (g a)); cbn [List.length]; now rewrite IH.
Qed.

Lemma degrade_fold_count (orig degraded : Z * Z) (dir : string) (names : list string) :
  forall (w : World) (c : Z),
    snd (fold_left (degrade_one orig degraded dir) names (w, c))
    = (c + Z.of_nat (List.length (corrupt_positions orig degraded dir (w, c) names)))%Z.
Proof.
  induction names as [|name names IH]; intros w c.
  - cbn. lia.
  - cbn [fold_left]. pose proof (degrade_one_count orig degraded dir w c name) as H1.
    destruct (degrade_one orig degraded dir (w, c) name) as [w1 c1] eqn:E1.
    cbn [snd] in H1. rewrite (IH w1 c1).
    unfold corrupt_positions. cbn [List.length seq]. rewrite <- seq_shift. cbn [filter].
    change (reached orig degraded dir (w, c) (name :: names) 0) with w.
    change (nth 0 (name :: names) ""%string) with name.
    assert (forall i, reached orig degraded dir (w, c) (name :: names) (S i)
                      = reached orig degraded dir (w1, c1) names i) as Hr.
    { intros i. unfold reached. cbn [firstn fold_left]. now rewrite E1. }
    assert (List.length
              (filter (fun i => found_corrupt orig degraded dir
                                  (reached orig degraded dir (w, c) (name :: names) i)
                                  (nth i (name :: names) ""%string))
                 (map S (seq 0 (List.length names))))
            = List.length
                (filter (fun i => found_corrupt orig degraded dir
                                    (reached orig degraded dir (w1, c1) names i)
                                    (nth i names ""%string))
                   (seq 0 (List.length names)))) as Hlen.
    { rewrite filter_map_length. f_equal. apply filter_ext. intros i. now rewrite Hr. }
    destruct (found_corrupt orig degraded dir w name); cbn [List.length]; rewrite Hlen; lia.
Qed.

Lemma degrade_one_unreadable (orig degraded : Z * Z) (dir : string) (w : World) (c : Z)
    (name : string) :
  unreadable (fst (degrade_one orig degraded dir (w, c) name)) = unreadable w.
Proof.
  unfold degrade_one, discard.
  repeat match goal with
         | |- context [if ?b then _ else _] => destruct b
         end; cbn [fst unreadable set_val_image_filename_set];
    rewrite ?(proj2 (proj2 (create_keeps _ _))); reflexivity.
Qed.

Lemma degrade_fold_unreadable (orig degraded : Z * Z) (dir : string) (names : list string) :
  forall (w : World) (c : Z),
    unreadable (fst (fold_left (degrade_one orig degraded dir) names (w, c))) = unreadable w.
Proof.
  induction names as [|name names IH]; intros w c; cbn [fold_left]; [reflexivity|].
  pose proof (degrade_one_unreadable orig degraded dir w c name) as H1.
  destruct (degrade_one orig degraded dir (w, c) name) as [w1 c1]. cbn [fst] in H1.
  now rewrite IH.
Qed.

(** The files only grow during the loop: the world reached at a position
    lies between the world at the start and the world at the end. *)
Lemma reached_between (orig degraded : Z * Z) (dir : string) (w : World) (c : Z)
    (names : list string) (i : nat) (q : string) :
  (path_exists w q = true ->
   path_exists (reached orig degraded dir (w, c) names i) q = true)
  /\ (path_exists (reached orig degraded dir (w, c) names i) q = true ->
      path_exists (fst (fold_left (degrade_one orig degraded dir) names (w, c))) q = true)
  /\ unreadable (reached orig degraded dir (w, c) names i) = unreadable w.
Proof.
  unfold reached. split; [|split].
  - apply (degrade_fold_serves orig degraded dir (firstn i names) w c).
  - rewrite <- (firstn_skipn i names) at 2. rewrite fold_left_app.
    destruct (fold_left (degrade_one orig degraded dir) (firstn i names) (w, c)) as [wi ci].
    cbn [fst]. apply (degrade_fold_serves orig degraded dir (skipn i names) wi ci).
  - apply degrade_fold_unreadable.
Qed.

Lemma map_nth_positions (l : list string) :
  map (fun i => nth i l ""%string) (seq 0 (List.length l)) = l.
Proof.
  induction l as [|a l IH]; [reflexivity|].
  cbn [List.length seq map nth]. rewrite <- seq_shift, map_map. cbn [nth].
  now rewrite IH.
Qed.

(** When the call writes nothing at the paths of its unreadable images, the
    images found corrupt are those that are so in the world the call starts
    in. *)
Lemma corrupt_positions_start (orig degraded : Z * Z) (dir : string) (w w0 : World) (c : Z)
    (names : list string) :
  (forall q, path_exists w q = true -> path_exists w0 q = true) ->
  unreadable w0 = unreadable w ->
  (forall x p, In x names -> unreadable w x = true ->
               In p [x; Path.replace_image_ext_with_label x; degraded_copy dir x] ->
               path_exists (fst (fold_left (degrade_one orig degraded dir) names (w0, c))) p
               = path_exists w p) ->
  List.length (corrupt_positions orig degraded dir (w0, c) names)
  = List.length (filter (found_corrupt orig degraded dir w) names).
Proof.
  intros Hsub Hun Hkept.
  rewrite <- (map_nth_positions names) at 2. rewrite filter_map_length.
  unfold corrupt_positions. f_equal. apply filter_ext_in. intros i Hi.
  apply in_seq in Hi. assert (In (nth i names ""%string) names) as Hin
    by (apply nth_In; lia).
  set (x := nth i names ""%string) in *.
  assert (forall p, In p [x; Path.replace_image_ext_with_label x; degraded_copy dir x] ->
                    unreadable w x = true ->
                    path_exists (reached orig degraded dir (w0, c) names i) p
                    = path_exists w p) as Hsame.
  { intros p Hp Hx.
    destruct (reached_between orig degraded dir w0 c names i p) as (Hlo & Hhi & _).
    specialize (Hkept x p Hin Hx Hp).
    destruct (path_exists w p) eqn:E.
    - apply Hlo, Hsub, E.
    - destruct (path_exists (reached orig degraded dir (w0, c) names i) p); [|reflexivity].
      rewrite (Hhi eq_refl) in Hkept. discriminate Hkept. }
  unfold found_corrupt.
  rewrite (proj2 (proj2 (reached_between orig degraded dir w0 c names i x))), Hun.
  destruct (unreadable w x) eqn:Hx; [|now rewrite !andb_false_r].
  rewrite !Hsame by (cbn [In]; auto). reflexivity.
Qed.

(** C9 (amended): the first component returned by degrade_images is the
    number of image file names the call starts from: the size of the working
    set kept in the context or, on the first call, the number of names in the
    baseline directory that end with an image extension.  It is counted
    before any image is looked at, so it includes the images the call then
    finds missing or corrupt.  The second component is the counter passed in
    plus the number of images of that list found corrupt: those that, when the
    loop reaches them, are on disk with their label, have no degraded copy
    yet, have to be resized and cannot be opened.  A missing image and an
    image without label are not counted.  When the call writes nothing at the
    paths of its unreadable images, these are the images that are so in the
    world the call starts in. *)
Theorem degrade_images_counts (ctxt : Ctxt) (w : World) (orig degraded : Z * Z)
    (dir : string) (corrupted_counter num_images corrupted_counter' : Z) (w' : World) :
  degrade_images ctxt w orig degraded dir corrupted_counter
  = Ok ((num_images, corrupted_counter'), w') ->
  (forall s, val_image_filename_set w = Some s ->
             num_images = Z.of_nat (List.length s))
  /\ (val_image_filename_set w = None ->
      exists base names,
        val_baseline_dir_of ctxt orig = Ok base
        /\ listdir w base = Some names
        /\ num_images
           = Z.of_nat (List.length
                         (filter (fun x => Path.endswith_any x Path.exts) names)))
  /\ (corrupted_counter <= corrupted_counter' <= corrupted_counter + num_images)%Z
  /\ exists (base : string) (names : list string) (w0 : World),
       val_baseline_dir_of ctxt orig = Ok base
       /\ val_image_filenames_of (create w dir) base = Ok (names, w0)
       /\ num_images = Z.of_nat (List.length names)
       /\ corrupted_counter'
          = (corrupted_counter
             + Z.of_nat (List.length
                           (corrupt_positions orig degraded dir
                              (w0, corrupted_counter) names)))%Z
       /\ ((forall x p, In x names -> unreadable w x = true ->
                        In p [x; Path.replace_image_ext_with_label x;
                              degraded_copy dir x] ->
                        path_exists w' p = path_exists w p) ->
           corrupted_counter'
           = (corrupted_counter
              + Z.of_nat (List.length
                            (filter (found_corrupt orig degraded dir w) names)))%Z).
Proof.
  unfold degrade_images.
  destruct (val_baseline_dir_of ctxt orig) as [base|e]; cbn [bind]; [|discriminate].
  destruct (create_keeps w dir) as (Hs & Hl & Hu).
  assert (forall q, path_exists w q = true -> path_exists (create w dir) q = true) as Hc.
  { intros q Hq. now rewrite path_exists_create, Hq. }
  destruct (val_image_filenames_of (create w dir) base) as [[names w0]|e] eqn:Ev;
    cbn [bind]; [|discriminate].
  assert ((forall q, path_exists w q = true -> path_exists w0 q = true)
          /\ unreadable w0 = unreadable w
          /\ (forall s, val_image_filename_set w = Some s -> names = s)
          /\ (val_image_filename_set w = None ->
              exists listing,
                listdir w base = Some listing
                /\ List.length names
                   = List.length (filter (fun x => Path.endswith_any x Path.exts) listing)))
    as (Hsub & Hun & Hsome & Hnone).
  { unfold val_image_filenames_of in Ev. rewrite Hs, Hl in Ev.
    destruct (val_image_filename_set w) as [s|].
    - injection Ev as <- <-. repeat split; auto; [intros s0 H; now injection H|discriminate].
    - destruct (listdir w base) as [listing|]; [|discriminate]. injection Ev as <- <-.
      repeat split; auto; [discriminate|]. intros _. exists listing.
      now rewrite length_map. }
  pose proof (degrade_fold_counter orig degraded dir names w0 corrupted_counter) as Hb.
  pose proof (degrade_fold_count orig degraded dir names w0 corrupted_counter) as Hcount.
  pose proof (corrupt_positions_start orig degraded dir w w0 corrupted_counter names Hsub Hun)
    as Hstart.
  destruct (fold_left _ names _) as [w1 c1]. cbn [fst snd] in *.
  intros H. injection H as <- <- <-.
  split; [intros s Hset; now rewrite (Hsome s Hset)|].
  split.
  { intros Hset. destruct (Hnone Hset) as (listing & Hdir & Hlen).
    exists base, listing. rewrite Hlen. now repeat split. }
  split; [exact Hb|].
  exists base, names, w0. repeat split; auto.
  intros Hkept. now rewrite Hcount, (Hstart Hkept).
Qed.

Lemma degrade_images_counts_witness :
  let ctxt := Sample.ctxt None false in
  let a := "pre/val/baseline/a.jpg"%string in
  let b := "pre/val/baseline/b.png"%string in
  let c := "pre/val/baseline/c.gif"%string in
  (* a first call: the names come from the directory *)
  let first := Sample.disk None None in
  (* a call that finds the working set [a; b; c]: b cannot be opened, c is missing *)
  let later := set_val_image_filename_set first (Some [a; b; c]) in
  ((val_image_filename_set first = None ->
    exists base names,
      val_baseline_dir_of ctxt (100, 100)%Z = Ok base
      /\ listdir first base = Some names
      /\ 2%Z = Z.of_nat (List.length
                           (filter (fun x => Path.endswith_any x Path.exts) names)))
   /\ (0 <= 1 <= 0 + 2)%Z
   /\ 1%Z = (0 + Z.of_nat (List.length
                             (filter (found_corrupt (100, 100)%Z (50, 50)%Z
                                        "pre/val/degraded_50x50" first) [a; b])))%Z)
  /\ ((forall s, val_image_filename_set later = Some s -> 3%Z = Z.of_nat (List.length s))
      /\ (5 <= 6 <= 5 + 3)%Z
      /\ 6%Z = (5 + Z.of_nat (List.length
                                (filter (found_corrupt (100, 100)%Z (50, 50)%Z
                                           "pre/val/degraded_50x50" later) [a; b; c])))%Z).
Proof.
  intros ctxt a b c first later. split.
  - destruct (degrade_images_counts ctxt first (100, 100)%Z (50, 50)%Z
                "pre/val/degraded_50x50" 0 2 1
                (Sample.swept (degrade_images ctxt first (100, 100)%Z (50, 50)%Z
                                 "pre/val/degraded_50x50" 0)))
      as (_ & Hnone & Hbound & base & names & w0 & Hbase & Hnames & _ & _ & Hstart).
    + vm_compute. reflexivity.
    + split; [exact Hnone|]. split; [exact Hbound|].
      vm_compute in Hbase. injection Hbase as <-.
      vm_compute in Hnames. injection Hnames as <- _.
      apply Hstart. intros x p [<-|[<-|[]]] Hx; [discriminate Hx|].
      intros [<-|[<-|[<-|[]]]]; vm_compute; reflexivity.
  - destruct (degrade_images_counts ctxt later (100, 100)%Z (50, 50)%Z
                "pre/val/degraded_50x50" 5 3 6
                (Sample.swept (degrade_images ctxt later (100, 100)%Z (50, 50)%Z
                                 "pre/val/degraded_50x50" 5)))
      as (Hsome & _ & Hbound & base & names & w0 & Hbase & Hnames & _ & _ & Hstart).
    + vm_compute. reflexivity.
    + split; [exact Hsome|]. split; [exact Hbound|].
      vm_compute in Hbase. injection Hbase as <-.
      vm_compute in Hnames. injection Hnames as <- _.
      apply Hstart. intros x p [<-|[<-|[<-|[]]]] Hx; try discriminate Hx.
      intros [<-|[<-|[<-|[]]]]; vm_compute; reflexivity.
Defined.

(** C9, as stated, fails: of the two images of the sample directory one is
    unreadable.  degrade_images returns 2 as its first component, although
    only one image was processed and stays in the working set; the second
    component is the corrupted count 1. *)
Lemma processed_count_reading_differs :
  match degrade_images (Sample.ctxt None false) (Sample.disk None None)
          (100, 100)%Z (50, 50)%Z "pre/val/degraded_50x50" 0 with
  | Ok ((num_images, corrupted_counter), w') =>
      (num_images, corrupted_counter,
       valid_images ["pre/val/baseline/a.jpg"; "pre/val/baseline/b.png"]%string w',
       val_image_filename_set w')
  | Raise _ => (0, 0, 0, None)%Z
  end
  = (2, 1, 1, Some ["pre/val/baseline/a.jpg"%string])%Z.
Proof. vm_compute. reflexivity. Qed.

(** ** A repeated call of degrade_images *)

Lemma degrade_one_served (orig degraded : Z * Z) (dir : string) (w : World) (c : Z)
    (name : string) :
  served w dir name = true -> degrade_one orig degraded dir (w, c) name = (w, c).
Proof.
  unfold served, degraded_copy, degrade_one. intros H.
  apply andb_prop in H as [H H3]. apply andb_prop in H as [H1 H2].
  now rewrite H1, H2, H3.
Qed.

Lemma degrade_fold_served (orig degraded : Z * Z) (dir : string) (w : World) (c : Z)
    (names : list string) :
  (forall x, In x names -> served w dir x = true) ->
  fold_left (degrade_one orig degraded dir) names (w, c) = (w, c).
Proof.
  induction names as [|name names IH]; intros H; cbn [fold_left]; [reflexivity|].
  rewrite degrade_one_served by (apply H; now left).
  apply IH. intros x Hx. apply H. now right.
Qed.

(** Calling degrade_images again for the same resolution and directory does
    no work: whatever the counter passed in, it comes back unchanged, the
    first component is the size of the working set the first call left, and
    the context and the disk stay as they are. *)
Theorem degrade_images_repeat (ctxt : Ctxt) (w : World) (orig degraded : Z * Z)
    (dir : string) (corrupted_counter : Z) (r : Z * Z) (w' : World) (again : Z) :
  degrade_images ctxt w orig degraded dir corrupted_counter = Ok (r, w') ->
  degrade_images ctxt w' orig degraded dir again
  = Ok ((Z.of_nat (List.length (working_set w')), again), w').
Proof.
  intros H.
  destruct (degrade_images_after _ _ _ _ _ _ _ _ H)
    as (_ & Hdir & (s' & Hs') & _ & Hv).
  unfold degrade_images in *.
  destruct (val_baseline_dir_of ctxt orig) as [base|e]; cbn [bind] in *; [|discriminate].
  rewrite (create_existing _ _ Hdir).
  unfold val_image_filenames_of. unfold working_set in *. rewrite Hs' in *. cbn [bind].
  now rewrite (degrade_fold_served _ _ _ _ _ _ Hv).
Qed.

Lemma degrade_images_repeat_witness :
  let w' :=
    Sample.swept
      (degrade_images (Sample.ctxt None false) (Sample.disk None None)
         (100, 100)%Z (50, 50)%Z "pre/val/degraded_50x50" 0) in
  degrade_images (Sample.ctxt None false) w' (100, 100)%Z (50, 50)%Z
    "pre/val/degraded_50x50" 7
  = Ok ((Z.of_nat (List.length (working_set w')), 7%Z), w').
Proof.
  intros w'.
  apply (degrade_images_repeat (Sample.ctxt None false) (Sample.disk None None)
           (100, 100)%Z (50, 50)%Z "pre/val/degraded_50x50" 0 (2, 1)%Z w' 7).
  vm_compute. reflexivity.
Defined.

(** ** Corrupted images and the working set *)

Lemma append_inj (d a b : string) : (d ++ a)%string = (d ++ b)%string -> a = b.
Proof.
  induction d as [|c d IH]; cbn [String.append]; intros H; [exact H|].
  injection H as H. now apply IH.
Qed.

Lemma join_inj (d a b : string) : Path.join d a = Path.join d b -> a = b.
Proof.
  unfold Path.join. destruct (String.eqb d ""); [auto|].
  destruct (Path.endswith d "/"); intros H; apply append_inj in H; [exact H|].
  now apply (append_inj "/") in H.
Qed.

Lemma nodup_map_join (d : string) (l : list string) :
  NoDup l -> NoDup (map (Path.join d) l).
Proof.
  induction 1 as [|a l Ha _ IH]; cbn [map]; constructor; [|exact IH].
  intros Hin. apply in_map_iff in Hin as (y & Hy & Hin).
  apply join_inj in Hy. now subst.
Qed.

Lemma distinct_nodup (l : list string) : NoDup l -> distinct l = l.
Proof.
  induction 1 as [|a l Ha _ IH]; cbn [distinct]; [reflexivity|].
  destruct (existsb (String.eqb a) l) eqn:E; [|now rewrite IH].
  apply existsb_exists in E as (y & Hy & Ey). apply String.eqb_eq in Ey. now subst.
Qed.

Lemma filter_out_absent (a : string) (s : list string) :
  ~ In a s -> filter (fun x => negb (String.eqb x a)) s = s.
Proof.
  induction s as [|x s IH]; cbn [filter In]; intros H; [reflexivity|].
  destruct (String.eqb x a) eqn:E.
  - apply String.eqb_eq in E. subst. exfalso. apply H. now left.
  - cbn [negb]. rewrite IH; [reflexivity|]. intros Hin. apply H. now right.
Qed.

Lemma filter_out_length (a : string) (s : list string) :
  NoDup s -> In a s ->
  S (List.length (filter (fun x => negb (String.eqb x a)) s)) = List.length s.
Proof.
  induction 1 as [|x s Hx Hs IH]; cbn [filter In List.length]; [contradiction|].
  intros [->|Hin].
  - rewrite String.eqb_refl. cbn [negb]. now rewrite (filter_out_absent _ _ Hx).
  - destruct (String.eqb x a) eqn:E.
    + apply String.eqb_eq in E. now subst.
    + cbn [negb List.length]. now rewrite (IH Hin).
Qed.

Lemma degrade_fold_balance (orig degraded : Z * Z) (dir : string) (names : list string) :
  forall (w : World) (c : Z) (s : list string),
    val_image_filename_set w = Some s -> NoDup s -> NoDup names -> incl names s ->
    exists s',
      val_image_filename_set (fst (fold_left (degrade_one orig degraded dir) names (w, c)))
      = Some s'
      /\ NoDup s'
      /\ (c <= snd (fold_left (degrade_one orig degraded dir) names (w, c)))%Z
      /\ (snd (fold_left (degrade_one orig degraded dir) names (w, c)) - c
          + Z.of_nat (List.length s') <= Z.of_nat (List.length s))%Z.
Proof.
  induction names as [|name names IH]; intros w c s Hset Hs Hn Hincl; cbn [fold_left].
  - exists s. cbn [fst snd]. repeat split; auto; lia.
  - destruct (degrade_one_step orig degraded dir w c name) as [_ Hstep].
    destruct (degrade_one orig degraded dir (w, c) name) as [w1 c1].
    cbn [fst snd] in Hstep.
    inversion Hn as [|? ? Hname Hn']; subst.
    assert (incl names s) as Hincl' by (intros x Hx; apply Hincl; now right).
    destruct Hstep as [(Hs1 & _ & ->)|(Hs1 & Hc1)].
    + rewrite Hset in Hs1. exact (IH w1 c s Hs1 Hs Hn' Hincl').
    + rewrite Hset in Hs1. cbn [option_map] in Hs1.
      assert (In name s) as Hin by (apply Hincl; now left).
      pose proof (filter_out_length name s Hs Hin) as Hlen.
      destruct (IH w1 c1 _ Hs1 (NoDup_filter _ Hs) Hn') as (s' & E & Hs' & Hle & Hbal).
      { intros x Hx. apply filter_In. split; [now apply Hincl'|].
        destruct (String.eqb x name) eqn:Ex; [|reflexivity].
        apply String.eqb_eq in Ex. now subst. }
      exists s'. repeat split; auto; lia.
Qed.

(** The balance of one call: the names it starts from are once each (the
    working set, or the listing of the baseline directory); the counter does
    not fall; and what it gains the working set has lost. *)
Lemma degrade_images_balance (ctxt : Ctxt) (w : World) (orig degraded : Z * Z)
    (dir : string) (c n c' : Z) (w' : World) :
  degrade_images ctxt w orig degraded dir c = Ok ((n, c'), w') ->
  tidy w ->
  (forall s, val_image_filename_set w = Some s -> n = Z.of_nat (List.length s))
  /\ exists s',
       val_image_filename_set w' = Some s'
       /\ NoDup s'
       /\ (c <= c')%Z
       /\ (c' - c + Z.of_nat (List.length s') <= n)%Z.
Proof.
  unfold degrade_images, tidy.
  destruct (val_baseline_dir_of ctxt orig) as [base|e]; cbn [bind]; [|discriminate].
  destruct (create_keeps w dir) as (Hs & Hl & _).
  unfold val_image_filenames_of. rewrite Hs, Hl.
  destruct (val_image_filename_set w) as [s|] eqn:Hset; cbn [bind].
  - intros H Hnd.
    destruct (degrade_fold_balance orig degraded dir s (create w dir) c s Hs Hnd Hnd
                (incl_refl s)) as (s' & E & Hs' & Hle & Hbal).
    destruct (fold_left _ s _) as [w1 c1]. cbn [fst snd] in *.
    injection H as <- <- <-.
    split; [intros s0 H0; now injection H0 as <-|].
    exists s'. now repeat split.
  - destruct (listdir w base) as [names|] eqn:Hdir; cbn [bind]; [|discriminate].
    intros H Hnd. specialize (Hnd _ _ Hdir).
    assert (NoDup (map (Path.join base)
                     (filter (fun x => Path.endswith_any x Path.exts) names))) as Hl'.
    { apply nodup_map_join. now apply NoDup_filter. }
    rewrite (distinct_nodup _ Hl') in H.
    match type of H with
    | context [fold_left ?f ?l (?w0, ?c0)] =>
        destruct (degrade_fold_balance orig degraded dir l w0 c0 l eq_refl Hl' Hl'
                    (incl_refl l)) as (s' & E & Hs' & Hle & Hbal);
        destruct (fold_left f l (w0, c0)) as [w1 c1]
    end.
    cbn [fst snd] in *. injection H as <- <- <-.
    split; [discriminate|].
    exists s'. now repeat split.
Qed.

(** Every image a call counts as corrupted has left the working set: when
    each name is there once, the rise of the counter is at most the number of
    names the call starts from less the size of the working set it leaves,
    and the working set it leaves holds each name once. *)
Theorem corrupted_images_leave_working_set (ctxt : Ctxt) (w : World)
    (orig degraded : Z * Z) (dir : string) (corrupted_counter num_images
    corrupted_counter' : Z) (w' : World) :
  degrade_images ctxt w orig degraded dir corrupted_counter
  = Ok ((num_images, corrupted_counter'), w') ->
  tidy w ->
  tidy w'
  /\ (0 <= corrupted_counter' - corrupted_counter
      <= num_images - Z.of_nat (List.length (working_set w')))%Z.
Proof.
  intros H Ht.
  destruct (degrade_images_balance _ _ _ _ _ _ _ _ _ H Ht)
    as (_ & s' & Hs' & Hnd & Hle & Hbal).
  unfold tidy, working_set. rewrite Hs'. split; [exact Hnd | lia].
Qed.

Lemma sample_disk_tidy : tidy (Sample.disk None None).
Proof.
  intros d names. cbn [Sample.disk listdir].
  destruct (String.eqb d "pre/val/baseline"); [|discriminate].
  intros H. injection H as <-.
  repeat (constructor; [cbn [In]; intuition discriminate|]). constructor.
Qed.

Lemma corrupted_images_leave_working_set_witness :
  let w' :=
    Sample.swept
      (degrade_images (Sample.ctxt None false) (Sample.disk None None)
         (100, 100)%Z (50, 50)%Z "pre/val/degraded_50x50" 0) in
  tidy w' /\ (0 <= 1 - 0 <= 2 - Z.of_nat (List.length (working_set w')))%Z.
Proof.
  intros w'.
  apply (corrupted_images_leave_working_set (Sample.ctxt None false)
           (Sample.disk None None) (100, 100)%Z (50, 50)%Z "pre/val/degraded_50x50"
           0 2 1 w').
  - vm_compute. reflexivity.
  - exact sample_disk_tidy.
Defined.

(** ** The report of the evaluation sweep *)

Lemma fold_left_invariant {A B : Type} (P : A -> Prop) (f : A -> B -> A) (l : list B) :
  (forall a b, P a -> P (f a b)) -> forall a, P a -> P (fold_left f l a).
Proof.
  intros Hf. induction l as [|b l IH]; intros a Ha; cbn [fold_left]; auto.
Qed.

Section Sweep.

Variable run_eval : World -> Z * Z -> Z * Z -> string -> World.
Variable ctxt : Ctxt.

(** The two numbers of the sweep's report "N out of M images are
    corrupted": when each image name is there once and the evaluator leaves
    the working set alone, the corrupted count N is at most M, the number of
    images the first resolution started from. *)
Theorem corrupted_report_bounded (w : World) (corrupted_counter max_images : Z)
    (w' : World) :
  (forall w0 o e d,
      val_image_filename_set (run_eval w0 o e d) = val_image_filename_set w0) ->
  tidy w ->
  run_eval_on_degraded_images run_eval ctxt w = Ok ((corrupted_counter, max_images), w') ->
  (0 <= corrupted_counter <= max_images)%Z.
Proof.
  intros Heval Ht. unfold run_eval_on_degraded_images.
  destruct (preprocess_methods ctxt (preprocess_method ctxt)) as [pp|]; [|discriminate].
  unfold bind.
  repeat match goal with
         | |- match ?x with Ok _ => _ | Raise _ => _ end = _ -> _ =>
             destruct x; [|discriminate]
         end.
  set (inv := fun acc : result (Z * Z * World) =>
                match acc with
                | Ok (c, m, w0) =>
                    (c = 0 /\ m = 0 /\ tidy w0)%Z
                    \/ exists s, val_image_filename_set w0 = Some s /\ NoDup s
                                 /\ (0 <= c)%Z
                                 /\ (c + Z.of_nat (List.length s) <= m)%Z
                | Raise _ => True
                end).
  match goal with
  | |- fold_left ?f ?l ?a = _ -> _ =>
      assert (inv (fold_left f l a)) as Hinv;
      [apply (fold_left_invariant inv f l); [|left; now repeat split]|]
  end.
  - intros [[[c m] w0]|e] r Hacc; [|exact I].
    cbn beta iota.
    destruct (math_ceil _) as [short|e]; [|exact I].
    destruct (degrade_images _ _ _ _ _ _) as [[[n c1] w1]|e] eqn:Hd; [|exact I].
    cbn beta iota. right. rewrite Heval.
    destruct Hacc as [(-> & -> & Ht0)|(s & Hs & Hnd & Hc & Hm)].
    + destruct (degrade_images_balance _ _ _ _ _ _ _ _ _ Hd Ht0)
        as (_ & s' & Hs' & Hnd' & Hle & Hbal).
      exists s'. cbn. repeat split; auto; lia.
    + assert (tidy w0) as Ht0 by (unfold tidy; now rewrite Hs).
      destruct (degrade_images_balance _ _ _ _ _ _ _ _ _ Hd Ht0)
        as (Hn & s' & Hs' & Hnd' & Hle & Hbal).
      specialize (Hn _ Hs). exists s'.
      repeat split; auto; destruct (m =? 0)%Z eqn:Em; lia.
  - intros H. rewrite H in Hinv. cbn in Hinv.
    destruct Hinv as [(-> & -> & _)|(s & _ & _ & Hc & Hm)]; lia.
Qed.

End Sweep.

Lemma sample_run_eval_keeps_working_set (classes : list string) (w : World)
    (orig eff : Z * Z) (dir : string) :
  val_image_filename_set (Sample.run_eval classes w orig eff dir)
  = val_image_filename_set w.
Proof.
  unfold Sample.run_eval. cbn [results_cache_df set_eval_results_file].
  now destruct (results_cache_df w).
Qed.

Lemma corrupted_report_bounded_witness : (0 <= 1 <= 2)%Z.
Proof.
  apply (corrupted_report_bounded (Sample.run_eval ["car"%string]) (Sample.ctxt None false)
           (Sample.disk None None) 1 2
           (Sample.swept
              (run_eval_on_degraded_images (Sample.run_eval ["car"%string])
                 (Sample.ctxt None false) (Sample.disk None None)))).
  - intros w0 o e d. apply sample_run_eval_keeps_working_set.
  - exact sample_disk_tidy.
  - vm_compute. reflexivity.
Defined.

(** ** What calculate_knee reads, returns and logs *)

Lemma record_knees_log (class_name : string) (res : float * float) (xs : list float) :
  forall (ys : list float) (w w' : World),
    record_knees w class_name res xs ys = Ok w' ->
    same_but_log w w'
    /\ knee_results w' = knee_results w ++ knee_events class_name res xs ys
    /\ List.length (knee_events class_name res xs ys) = List.length xs.
Proof.
  unfold same_but_log, knee_events.
  induction xs as [|x xs IH]; intros ys w w'; cbn [record_knees].
  - intros H. injection H as <-. cbn [map2 List.length]. rewrite app_nil_r. now repeat split.
  - destruct ys as [|y ys]; [discriminate|]. intros H.
    destruct (IH _ _ _ H) as ((H1 & H2 & H3 & H4 & H5 & H6) & Hlog & Hlen).
    cbn [update_knee_results results_cache_df eval_results_file val_image_filename_set
         files listdir unreadable knee_results] in *.
    cbn [map2 List.length]. rewrite Hlog, <- app_assoc, Hlen. now repeat split.
Qed.

Lemma select_head {A : Type} (p : Row -> bool) (f : Row -> A) (rs : list Row)
    (a : A) (t : list A) :
  select (map p rs) (map f rs) = a :: t ->
  exists r, find p rs = Some r /\ a = f r.
Proof.
  induction rs as [|r rs IH]; cbn [map select find]; [discriminate|].
  destruct (p r); [|exact IH].
  intros H. injection H as <- _. now exists r.
Qed.

Section Detecting.

Variable KneeLocator : list float -> list float -> list float * list float.

(** calculate_knee changes nothing but the knee log, to which it appends
    one event per returned knee: the class, the original resolution of the
    first row above the noise floor, the knee factor, and the mAP value at the
    same position of the second list. *)
Theorem calculate_knee_log (w w' : World) (class_name : string) (rs : list Row)
    (xs ys : list float) :
  calculate_knee KneeLocator w class_name rs = Ok ((xs, ys), w') ->
  same_but_log w w'
  /\ knee_results w'
     = knee_results w ++ knee_events class_name (logged_resolution rs) xs ys
  /\ List.length (knee_events class_name (logged_resolution rs) xs ys) = List.length xs.
Proof.
  assert (forall res, same_but_log w w
                      /\ knee_results w = knee_results w ++ knee_events class_name res [] ys
                      /\ List.length (knee_events class_name res [] ys) = 0%nat) as Hnone.
  { intros res. unfold same_but_log, knee_events. cbn [map2 List.length].
    rewrite app_nil_r. now repeat split. }
  assert (forall res, same_but_log w w
                      /\ knee_results w
                         = knee_results w ++ knee_events class_name res [] []
                      /\ List.length (knee_events class_name res [] []) = 0%nat) as Hnil.
  { intros res. unfold same_but_log, knee_events. cbn [map2 List.length].
    rewrite app_nil_r. now repeat split. }
  unfold calculate_knee.
  destruct (calc_degradation_factor _ _ _ _) as [factors|e]; cbn [bind]; [|discriminate].
  destruct (forallb _ _); [intros H; injection H as <- <- <-; apply Hnil|].
  destruct (_ || _); [intros H; injection H as <- <- <-; apply Hnil|].
  destruct (sorted _) as [|x0 xs0] eqn:Ex; [intros H; injection H as <- <- <-; apply Hnone|].
  rewrite !map_map.
  destruct (select _ (map (fun r => float_of_Z (original_resolution_width r)) rs))
    as [|w0 ws] eqn:Ew; [discriminate|].
  destruct (select _ (map (fun r => float_of_Z (original_resolution_height r)) rs))
    as [|h0 hs] eqn:Eh; [discriminate|].
  destruct (select_head _ _ _ _ _ Ew) as (r1 & Hf1 & ->).
  destruct (select_head _ _ _ _ _ Eh) as (r2 & Hf2 & ->).
  rewrite Hf1 in Hf2. injection Hf2 as <-.
  match goal with
  | |- bind ?m _ = _ -> _ => destruct m as [w1|e] eqn:Hr
  end; cbn [bind]; [|discriminate].
  intros H. injection H as <- <- <-.
  unfold logged_resolution. rewrite Hf1.
  exact (record_knees_log _ _ _ _ _ _ Hr).
Qed.

(** calculate_knee reads the resolutions and the mAP of the rows and
    nothing else: two tables that agree on these columns give the same knees
    and the same log, whatever their stored degradation factors, knee flags
    and object names. *)
Theorem calculate_knee_reads (w : World) (class_name : string) (rs rs' : list Row) :
  map sample_of_row rs = map sample_of_row rs' ->
  calculate_knee KneeLocator w class_name rs = calculate_knee KneeLocator w class_name rs'.
Proof.
  intros H.
  assert (forall (A : Type) (g : Z * Z * Z * Z * float -> A),
             map (fun r => g (sample_of_row r)) rs
             = map (fun r => g (sample_of_row r)) rs') as Hg.
  { intros A g. now rewrite <- !(map_map sample_of_row g), H. }
  unfold calculate_knee.
  replace (map (fun r => float_of_Z (original_resolution_width r)) rs)
    with (map (fun r => float_of_Z (original_resolution_width r)) rs')
    by (symmetry; exact (Hg _ (fun q => float_of_Z (fst (fst (fst (fst q))))))).
  replace (map (fun r => float_of_Z (original_resolution_height r)) rs)
    with (map (fun r => float_of_Z (original_resolution_height r)) rs')
    by (symmetry; exact (Hg _ (fun q => float_of_Z (snd (fst (fst (fst q))))))).
  replace (map (fun r => float_of_Z (effective_resolution_width r)) rs)
    with (map (fun r => float_of_Z (effective_resolution_width r)) rs')
    by (symmetry; exact (Hg _ (fun q => float_of_Z (snd (fst (fst q)))))).
  replace (map (fun r => float_of_Z (effective_resolution_height r)) rs)
    with (map (fun r => float_of_Z (effective_resolution_height r)) rs')
    by (symmetry; exact (Hg _ (fun q => float_of_Z (snd (fst q))))).
  replace (map mAP rs) with (map mAP rs')
    by (symmetry; exact (Hg _ (fun q => snd q))).
  reflexivity.
Qed.

End Detecting.

Lemma calculate_knee_log_witness :
  let w' :=
    Sample.swept
      (match calculate_knee Sample.locator (Sample.disk None None) "car" Sample.scenario1 with
       | Ok (xy, w0) => Ok ((0, 0)%Z, w0)
       | Raise e => Raise e
       end) in
  same_but_log (Sample.disk None None) w'
  /\ knee_results w'
     = knee_results (Sample.disk None None)
       ++ knee_events "car" (logged_resolution Sample.scenario1) [0.6%float] [0.85%float]
  /\ List.length (knee_events "car" (logged_resolution Sample.scenario1)
                    [0.6%float] [0.85%float]) = List.length [0.6%float].
Proof.
  intros w'.
  apply (calculate_knee_log Sample.locator (Sample.disk None None) w' "car"
           Sample.scenario1 [0.6%float] [0.85%float]).
  vm_compute. reflexivity.
Defined.

Lemma calculate_knee_reads_witness :
  calculate_knee Sample.locator (Sample.disk None None) "car" Sample.scenario1
  = calculate_knee Sample.locator (Sample.disk None None) "car"
      (map (fun r => set_knee (set_degradation_factor r 0.5) true) Sample.scenario1).
Proof.
  apply (calculate_knee_reads Sample.locator (Sample.disk None None) "car"
           Sample.scenario1
           (map (fun r => set_knee (set_degradation_factor r 0.5) true) Sample.scenario1)).
  reflexivity.
Defined.

(** ** The order of the returned knees *)

Lemma ltb_asym (x y : float) : (x <? y)%float = true -> (y <? x)%float = false.
Proof.
  rewrite !FloatAxioms.ltb_spec. unfold SFltb.
  rewrite (SFcompare_antisym (Prim2SF x) (Prim2SF y)).
  destruct (SFcompare (Prim2SF x) (Prim2SF y)) as [[]|]; simpl; congruence.
Qed.

Lemma insert_sorted_perm {A : Type} (lt : A -> A -> bool) (a : A) (l : list A) :
  Permutation (insert_sorted lt a l) (a :: l).
Proof.
  induction l as [|b l IH]; cbn [insert_sorted]; [reflexivity|].
  destruct (lt a b); [reflexivity|].
  rewrite IH. apply perm_swap.
Qed.

Lemma sort_by_perm {A : Type} (lt : A -> A -> bool) (l : list A) :
  Permutation (sort_by lt l) l.
Proof.
  unfold sort_by. induction l as [|a l IH]; cbn [fold_right]; [reflexivity|].
  rewrite insert_sorted_perm. now constructor.
Qed.

Lemma insert_sorted_ascending (a : float) (l : list float) :
  ascending l = true ->
  ascending (insert_sorted (fun a b => (a <? b)%float) a l) = true.
Proof.
  induction l as [|b l IH]; cbn [insert_sorted]; [reflexivity|].
  intros Hl. destruct (a <? b)%float eqn:E.
  - cbn [ascending]. rewrite (ltb_asym _ _ E). cbn [negb andb]. exact Hl.
  - assert (ascending l = true) as Hl'.
    { destruct l as [|c l]; [reflexivity|]. cbn [ascending] in Hl.
      now apply andb_prop in Hl as [_ Hl]. }
    specialize (IH Hl').
    destruct l as [|c l]; cbn [insert_sorted] in *.
    + cbn [ascending]. now rewrite E.
    + cbn [ascending] in Hl. apply andb_prop in Hl as [Hcb _].
      destruct (a <? c)%float.
      * change (ascending (b :: a :: c :: l)) with
          (negb (a <? b)%float && ascending (a :: c :: l)).
        rewrite E. exact IH.
      * change (ascending (b :: c :: insert_sorted (fun a b => (a <? b)%float) a l))
          with (negb (c <? b)%float
                && ascending (c :: insert_sorted (fun a b => (a <? b)%float) a l)).
        rewrite Hcb. exact IH.
Qed.

Lemma sorted_ascending (l : list float) : ascending (sorted l) = true.
Proof.
  unfold sorted, sort_by. induction l as [|a l IH]; cbn [fold_right]; [reflexivity|].
  now apply insert_sorted_ascending.
Qed.

Section Ordering.

Variable KneeLocator : list float -> list float -> list float * list float.

(** The knees calculate_knee returns are the knees of the locator on the
    curve above the noise floor, rearranged so that none is below the one
    before it; the mAP values are returned in the locator's own order, not
    rearranged with the knees. *)
Theorem calculate_knee_ascending (w w' : World) (class_name : string) (rs : list Row)
    (xs ys : list float) :
  calculate_knee KneeLocator w class_name rs = Ok ((xs, ys), w') ->
  ascending xs = true
  /\ (xs <> [] ->
      exists x y,
        curve_above_floor rs = Ok (x, y)
        /\ Permutation xs (fst (KneeLocator x y))
        /\ ys = snd (KneeLocator x y)).
Proof.
  unfold calculate_knee, curve_above_floor.
  destruct (calc_degradation_factor _ _ _ _) as [factors|e]; cbn [bind]; [|discriminate].
  destruct (forallb _ _); [intros H; injection H as <- _ _; split; [reflexivity|congruence]|].
  destruct (_ || _); [intros H; injection H as <- _ _; split; [reflexivity|congruence]|].
  destruct (sorted _) as [|x0 xs0] eqn:Ex;
    [intros H; injection H as <- _ _; split; [reflexivity|congruence]|].
  destruct (select _ (map _ rs)) as [|w0 ws]; [discriminate|].
  destruct (select _ (map _ rs)) as [|h0 hs]; [discriminate|].
  match goal with
  | |- bind ?m _ = _ -> _ => destruct m as [w1|e]
  end; cbn [bind]; [|discriminate].
  intros H. injection H as <- <- _. split.
  - rewrite <- Ex. apply sorted_ascending.
  - intros _. eexists _, _. split; [reflexivity|]. split; [|reflexivity].
    rewrite <- Ex. apply sort_by_perm.
Qed.

End Ordering.

Lemma calculate_knee_ascending_witness :
  ascending [0.6%float] = true
  /\ ([0.6%float] <> [] ->
      exists x y,
        curve_above_floor Sample.scenario1 = Ok (x, y)
        /\ Permutation [0.6%float] (fst (Sample.locator x y))
        /\ [0.85%float] = snd (Sample.locator x y)).
Proof.
  apply (calculate_knee_ascending Sample.locator (Sample.disk None None)
           (Sample.swept
              (match calculate_knee Sample.locator (Sample.disk None None) "car"
                       Sample.scenario1 with
               | Ok (xy, w0) => Ok ((0, 0)%Z, w0)
               | Raise e => Raise e
               end))
           "car" Sample.scenario1 [0.6%float] [0.85%float]).
  vm_compute. reflexivity.
Defined.

(** ** The label file of an image *)

Lemma string_length_app (s1 s2 : string) :
  String.length (s1 ++ s2) = (String.length s1 + String.length s2)%nat.
Proof. induction s1 as [|a s1 IH]; cbn; [reflexivity | now rewrite IH]. Qed.

Lemma string_append_assoc (s1 s2 s3 : string) :
  ((s1 ++ s2) ++ s3)%string = (s1 ++ (s2 ++ s3))%string.
Proof. induction s1 as [|a s1 IH]; cbn; [reflexivity | now rewrite IH]. Qed.

Lemma substring_all (s : string) : substring 0 (String.length s) s = s.
Proof. induction s as [|a s IH]; cbn; [reflexivity | now rewrite IH]. Qed.

Lemma substring_app_drop (s1 s2 : string) :
  substring (String.length s1) (String.length s2) (s1 ++ s2) = s2.
Proof. induction s1 as [|a s1 IH]; cbn; [apply substring_all | exact IH]. Qed.

Lemma substring_app_take (s1 s2 : string) :
  substring 0 (String.length s1) (s1 ++ s2) = s1.
Proof.
  induction s1 as [|a s1 IH]; cbn; [now destruct s2 | now rewrite IH].
Qed.

Lemma after_last_app (c : ascii) (s1 s2 : string) :
  Path.after_last c (s1 ++ s2)
  = match Path.after_last c s2 with
    | O => Path.after_last c s1
    | S k => (String.length s1 + S k)%nat
    end.
Proof.
  induction s1 as [|a s1 IH]; cbn [String.append Path.after_last String.length].
  - now destruct (Path.after_last c s2).
  - rewrite IH. destruct (Path.after_last c s2) as [|k]; [reflexivity|].
    rewrite !Nat.add_succ_r. reflexivity.
Qed.

Lemma after_last_absent (c : ascii) (s : string) :
  string_exists (Ascii.eqb c) s = false -> Path.after_last c s = 0%nat.
Proof.
  induction s as [|a s IH]; cbn [string_exists Path.after_last]; [reflexivity|].
  intros H. apply orb_false_elim in H as [Ha Hs]. rewrite (IH Hs).
  now rewrite Ascii.eqb_sym, Ha.
Qed.

Lemma after_last_endswith (d : string) :
  Path.endswith d "/" = true -> Path.after_last "/" d = String.length d.
Proof.
  unfold Path.endswith. cbn [String.length].
  induction d as [|a d IH]; [discriminate|].
  cbn [String.length Path.after_last].
  replace (S (String.length d) - 1)%nat with (String.length d) by lia.
  destruct d as [|b d].
  - cbn. destruct (Ascii.eqb a "/") eqn:E; [reflexivity|].
    intros H. discriminate H.
  - cbn [String.length] in *.
    replace (S (String.length d) - 1)%nat with (String.length d) in IH by lia.
    cbn [substring]. cbn [substring] in IH. cbn [Nat.leb andb] in *.
    intros H. now rewrite (IH H).
Qed.

(** The three shapes of [os.path.join(d, name)]: a prefix that is empty or
    ends with the separator, then the name. *)
Lemma join_prefix (d : string) :
  exists pre, (forall name, Path.join d name = (pre ++ name)%string)
              /\ Path.after_last "/" pre = String.length pre.
Proof.
  unfold Path.join. destruct (String.eqb d "") eqn:Ed.
  - exists ""%string. split; reflexivity.
  - destruct (Path.endswith d "/") eqn:Es.
    + exists d. split; [reflexivity | now apply after_last_endswith].
    + exists (d ++ "/")%string. split.
      * intros name. now rewrite string_append_assoc.
      * rewrite after_last_app, string_length_app. reflexivity.
Qed.

Lemma lower_ascii_keeps (c : ascii) :
  (c = "."%char \/ c = "/"%char) ->
  forall a, Ascii.eqb (Path.lower_ascii a) c = Ascii.eqb a c.
Proof.
  intros [-> | ->] [b0 b1 b2 b3 b4 b5 b6 b7];
    destruct b0, b1, b2, b3, b4, b5, b6, b7; reflexivity.
Qed.

Lemma after_last_lower (c : ascii) (s : string) :
  (c = "."%char \/ c = "/"%char) ->
  Path.after_last c (Path.lower s) = Path.after_last c s.
Proof.
  intros Hc. induction s as [|a s IH]; cbn [Path.lower Path.after_last]; [reflexivity|].
  now rewrite IH, (lower_ascii_keeps c Hc).
Qed.

Lemma length_lower (s : string) : String.length (Path.lower s) = String.length s.
Proof. induction s as [|a s IH]; cbn; [reflexivity | now rewrite IH]. Qed.

(** An extension that is one of [exts] up to the case of its letters: one
    dot, at its start, no separator, and at least one more character. *)
Lemma image_extension (e : string) :
  In (Path.lower e) Path.exts ->
  Path.after_last "." e = 1%nat /\ Path.after_last "/" e = 0%nat
  /\ (2 <= String.length e)%nat.
Proof.
  intros H.
  rewrite <- (after_last_lower "." e) by now left.
  rewrite <- (after_last_lower "/" e) by now right.
  rewrite <- (length_lower e).
  unfold Path.exts in H. cbn [In] in H.
  repeat (destruct H as [<-|H]; [cbn; repeat split; lia|]). contradiction.
Qed.

(** The label file of an image is found from the path as [Path] holds it:
    when that path is a directory joined with a file name made of a stem and
    an extension that is one of [exts] up to the case of its letters, where
    the stem has no separator and is not made of dots only, the label file is
    the stem with [.txt] in that directory.  A path given with a leading
    ["./"], a doubled or a trailing separator has the label file of its
    normal form. *)
Theorem label_of_image (p d stem e : string) :
  Path.normalize p = Path.join d (stem ++ e) ->
  string_exists (fun a => negb (Ascii.eqb a ".")) stem = true ->
  string_exists (Ascii.eqb "/") stem = false ->
  In (Path.lower e) Path.exts ->
  Path.replace_image_ext_with_label p = Path.join d (stem ++ ".txt").
Proof.
  intros Hp Hdot Hsep He.
  destruct (image_extension e He) as (He1 & He2 & He3).
  destruct (join_prefix d) as (pre & Hjoin & Hpre). rewrite Hjoin in Hp |- *.
  assert (1 <= String.length stem)%nat as Hstem.
  { destruct stem; [discriminate | cbn; lia]. }
  assert (Path.basename (pre ++ stem ++ e) = (stem ++ e)%string) as Hbase.
  { unfold Path.basename.
    rewrite after_last_app, after_last_app, He2, (after_last_absent _ _ Hsep), Hpre.
    rewrite string_length_app.
    replace (String.length pre + String.length (stem ++ e) - String.length pre)%nat
      with (String.length (stem ++ e)) by lia.
    apply substring_app_drop. }
  assert (Path.suffix p = e) as Hsuf.
  { unfold Path.suffix. rewrite Hp, Hbase, after_last_app, He1, string_length_app.
    replace (2 <=? String.length stem + 1)%nat with true
      by (symmetry; apply Nat.leb_le; lia).
    replace (String.length stem + 1 <? String.length stem + String.length e)%nat
      with true by (symmetry; apply Nat.ltb_lt; lia).
    cbn [andb].
    replace (String.length stem + 1 - 1)%nat with (String.length stem) by lia.
    replace (String.length stem + String.length e - String.length stem)%nat
      with (String.length e) by lia.
    apply substring_app_drop. }
  unfold Path.replace_image_ext_with_label. rewrite Hsuf.
  assert (existsb (String.eqb (Path.lower e)) Path.exts = true) as ->.
  { apply existsb_exists. exists (Path.lower e). split; [exact He | apply String.eqb_refl]. }
  unfold Path.with_suffix, Path.label_ext. rewrite Hsuf, Hp.
  rewrite <- string_append_assoc, string_length_app.
  replace (String.length (pre ++ stem) + String.length e - String.length e)%nat
    with (String.length (pre ++ stem)) by lia.
  rewrite substring_app_take. now rewrite string_append_assoc.
Qed.

Lemma label_of_image_witness :
  Path.replace_image_ext_with_label "./pre//val/archive.tar.JPG"
  = Path.join "pre/val" ("archive.tar" ++ ".txt")
  /\ Path.replace_image_ext_with_label (Path.join "pre/val" "b.png")
     = Path.join "pre/val" ("b" ++ ".txt").
Proof.
  split.
  - apply (label_of_image "./pre//val/archive.tar.JPG" "pre/val" "archive.tar" ".JPG").
    + reflexivity.
    + reflexivity.
    + reflexivity.
    + vm_compute. tauto.
  - apply (label_of_image (Path.join "pre/val" "b.png") "pre/val" "b" ".png").
    + reflexivity.
    + reflexivity.
    + reflexivity.
    + vm_compute. tauto.
Defined.

(** ** The flags of a class after its refinement *)

Section Refined.

Variable KneeLocator : list float -> list float -> list float * list float.
Variable run_eval : World -> Z * Z -> Z * Z -> string -> World.
Variable ctxt : Ctxt.

(** With the binary search, once a class has been processed its flagged
    rows are exactly its rows whose factor is close (np.isclose, atol 1e-5)
    to the first knee that calculate_knee detects on the class's rows of the
    resulting table; a class with no detected knee has no flagged row. *)
Theorem refined_flags_match_detection (fuel : nat) (w : World) (b : Binding)
    (class_name : string) (w' : World) (b' : Binding) :
  binary_search ctxt = true ->
  process_class KneeLocator run_eval ctxt fuel (w, b) class_name = Ok (Some (w', b')) ->
  forall i r, nth_error (rows (results_df b')) i = Some r ->
              object_name r = class_name ->
              knee r = close_to (detected_knee KneeLocator (results_df b') class_name) r.
Proof.
  intros Hb. unfold process_class.
  destruct (calculate_knee _ _ _ _) as [[[x_list y_list] w1]|e] eqn:Hck; cbn [bind];
    [|discriminate].
  unfold binary_search in Hb. rewrite Hb.
  match goal with
  | |- context [while_loop _ _ _ fuel class_name ?s] =>
      pose proof (while_loop_slice KneeLocator run_eval ctxt class_name fuel s eq_refl)
        as Hinv;
      assert (knee_current KneeLocator class_name s) as Hcur0
        by (symmetry; exact (detected_knee_of KneeLocator _ _ _ _ _ _ Hck));
      pose proof (while_loop_knee_current KneeLocator run_eval ctxt class_name fuel s Hcur0)
        as Hcur;
      destruct (snd (while_loop KneeLocator run_eval ctxt fuel class_name s)) as [st|st|e|]
  end; try discriminate.
  all: destruct (match new_knee_degradation_factor st with Some _ => _ | None => _ end)
         as [df'|e] eqn:Ef; cbn [bind]; [|discriminate].
  all: intros H; injection H as _ <-; cbn [results_df].
  all: intros i r Hi Hc.
  all: rewrite (marked_same_detection KneeLocator _ _ _ Hinv Ef), <- Hcur.
  all: exact (finish_flags _ _ _ Hinv Ef i r Hi Hc).
Qed.

End Refined.

Lemma refined_flags_match_detection_witness :
  let w0 :=
    Sample.swept
      (run_eval_on_degraded_images (Sample.run_eval ["car"; "truck"]%string)
         (Sample.ctxt (Some "binary"%string) false) (Sample.disk None None)) in
  let b0 :=
    {| results_df :=
         match eval_results_file w0 with Some df => df | None => Sample.empty_df end;
       cached := false |} in
  let b' :=
    match process_class Sample.locator (Sample.run_eval ["car"; "truck"]%string)
            (Sample.ctxt (Some "binary"%string) false) 10 (w0, b0) "car" with
    | Ok (Some (_, b1)) => b1
    | _ => b0
    end in
  Forall (fun r => object_name r = "car"%string ->
                   knee r = close_to (detected_knee Sample.locator (results_df b') "car") r)
    (rows (results_df b')).
Proof.
  intros w0 b0 b'. apply Forall_forall. intros r Hin Hc.
  apply In_nth_error in Hin as [i Hi].
  apply (refined_flags_match_detection Sample.locator
           (Sample.run_eval ["car"; "truck"]%string)
           (Sample.ctxt (Some "binary"%string) false) 10 w0 b0 "car"
           (match process_class Sample.locator (Sample.run_eval ["car"; "truck"]%string)
                    (Sample.ctxt (Some "binary"%string) false) 10 (w0, b0) "car" with
            | Ok (Some (w1, _)) => w1
            | _ => w0
            end) b' eq_refl) with (i := i); [|exact Hi|exact Hc].
  vm_compute. reflexivity.
Defined.

(** ** The table before the classes are processed *)

Lemma mapM_length {A B : Type} (f : A -> result B) (l : list A) :
  forall l', mapM f l = Ok l' -> List.length l' = List.length l.
Proof.
  induction l as [|a l IH]; cbn [mapM]; intros l' H.
  - now injection H as <-.
  - unfold bind in H. destruct (f a) as [b|e]; [|discriminate].
    destruct (mapM f l) as [bs|e]; [|discriminate].
    injection H as <-. cbn [List.length]. now rewrite (IH bs eq_refl).
Qed.

Lemma calc_degradation_factor_length (rs : list Row) (factors : list float) :
  calc_degradation_factor
    (map (fun r => float_of_Z (original_resolution_width r)) rs)
    (map (fun r => float_of_Z (original_resolution_height r)) rs)
    (map (fun r => float_of_Z (effective_resolution_width r)) rs)
    (map (fun r => float_of_Z (effective_resolution_height r)) rs) = Ok factors ->
  List.length factors = List.length rs.
Proof.
  unfold calc_degradation_factor. intros H. apply mapM_length in H. rewrite H.
  clear H. induction rs as [|r rs IH]; cbn; [reflexivity | now rewrite IH].
Qed.

Lemma map2_set_degradation_factor (rs : list Row) :
  forall factors : list float,
    List.length factors = List.length rs ->
    map degradation_factor (map2 set_degradation_factor rs factors) = factors
    /\ map sample_of_row (map2 set_degradation_factor rs factors) = map sample_of_row rs
    /\ map object_name (map2 set_degradation_factor rs factors) = map object_name rs.
Proof.
  induction rs as [|r rs IH]; intros [|d factors] H; try discriminate; cbn [map2 map].
  - now repeat split.
  - injection H as H. destruct (IH factors H) as (H1 & H2 & H3).
    rewrite H1, H2, H3. now repeat split.
Qed.

Lemma loc_set_knee_all (df : DataFrame) :
  rows (loc_set_knee df (fun _ _ => true) false) = map (fun r => set_knee r false) (rows df).
Proof.
  unfold loc_set_knee. cbn [rows].
  exact (map_indexed df (fun r => set_knee r false)).
Qed.

Lemma loc_set_knee_columns (d : DataFrame) :
  has_degradation_factor (loc_set_knee d (fun _ _ => true) false) = has_degradation_factor d
  /\ has_knee (loc_set_knee d (fun _ _ => true) false) = true
  /\ map object_name (rows (loc_set_knee d (fun _ _ => true) false))
     = map object_name (rows d)
  /\ map sample_of_row (rows (loc_set_knee d (fun _ _ => true) false))
     = map sample_of_row (rows d)
  /\ map degradation_factor (rows (loc_set_knee d (fun _ _ => true) false))
     = map degradation_factor (rows d)
  /\ Forall (fun r => knee r = false) (rows (loc_set_knee d (fun _ _ => true) false)).
Proof.
  rewrite loc_set_knee_all, !map_map. repeat split.
  apply Forall_map, Forall_forall. reflexivity.
Qed.

(** The preparation of lines 361-380 keeps the rows, their order and their
    name, resolution and mAP columns; it keeps a stored degradation_factor
    column as it is, and computes the column from the resolutions only when it
    is absent; and it leaves both columns present and every knee flag
    False. *)
Theorem prepare_keeps_columns (df df' : DataFrame) :
  prepare df = Ok df' ->
  has_degradation_factor df' = true
  /\ has_knee df' = true
  /\ map object_name (rows df') = map object_name (rows df)
  /\ map sample_of_row (rows df') = map sample_of_row (rows df)
  /\ (if has_degradation_factor df
      then map degradation_factor (rows df') = map degradation_factor (rows df)
      else calc_degradation_factor
             (map (fun r => float_of_Z (original_resolution_width r)) (rows df))
             (map (fun r => float_of_Z (original_resolution_height r)) (rows df))
             (map (fun r => float_of_Z (effective_resolution_width r)) (rows df))
             (map (fun r => float_of_Z (effective_resolution_height r)) (rows df))
           = Ok (map degradation_factor (rows df')))
  /\ Forall (fun r => knee r = false) (rows df').
Proof.
  assert (forall d : DataFrame,
             has_degradation_factor d = true ->
             has_degradation_factor
               (loc_set_knee (if has_knee d then d
                              else loc_set_knee d (fun _ _ => true) false)
                  (fun _ _ => true) false) = true
             /\ has_knee
                  (loc_set_knee (if has_knee d then d
                                 else loc_set_knee d (fun _ _ => true) false)
                     (fun _ _ => true) false) = true
             /\ map object_name
                  (rows (loc_set_knee (if has_knee d then d
                                       else loc_set_knee d (fun _ _ => true) false)
                           (fun _ _ => true) false))
                = map object_name (rows d)
             /\ map sample_of_row
                  (rows (loc_set_knee (if has_knee d then d
                                       else loc_set_knee d (fun _ _ => true) false)
                           (fun _ _ => true) false))
                = map sample_of_row (rows d)
             /\ map degradation_factor
                  (rows (loc_set_knee (if has_knee d then d
                                       else loc_set_knee d (fun _ _ => true) false)
                           (fun _ _ => true) false))
                = map degradation_factor (rows d)
             /\ Forall (fun r => knee r = false)
                  (rows (loc_set_knee (if has_knee d then d
                                       else loc_set_knee d (fun _ _ => true) false)
                           (fun _ _ => true) false))) as Hreset.
  { intros d Hd.
    destruct (loc_set_knee_columns
                (if has_knee d then d else loc_set_knee d (fun _ _ => true) false))
      as (A1 & A2 & A3 & A4 & A5 & A6).
    rewrite A1, A2, A3, A4, A5. clear A1 A2 A3 A4 A5.
    destruct (has_knee d); [now repeat split|].
    destruct (loc_set_knee_columns d) as (B1 & B2 & B3 & B4 & B5 & B6).
    rewrite B1, B3, B4, B5. now repeat split. }
  unfold prepare. destruct (has_degradation_factor df) eqn:Hd; cbn [bind].
  - intros H. injection H as <-. exact (Hreset df Hd).
  - destruct (calc_degradation_factor _ _ _ _) as [factors|e] eqn:Ec; cbn [bind];
      [|discriminate].
    intros H. injection H as <-.
    pose proof (calc_degradation_factor_length _ _ Ec) as Hlen.
    destruct (map2_set_degradation_factor (rows df) factors Hlen) as (F1 & F2 & F3).
    destruct (Hreset {| has_degradation_factor := true;
                        has_knee := has_knee df;
                        rows := map2 set_degradation_factor (rows df) factors |} eq_refl)
      as (H1 & H2 & H3 & H4 & H5 & H6).
    split; [exact H1|]. split; [exact H2|].
    split; [etransitivity; [exact H3 | exact F3]|].
    split; [etransitivity; [exact H4 | exact F2]|].
    split; [|exact H6].
    f_equal. symmetry. etransitivity; [exact H5 | exact F1].
Qed.

Lemma prepare_keeps_columns_witness :
  let df' :=
    match prepare Sample.stale_file with
    | Ok d => d
    | Raise _ => Sample.empty_df
    end in
  has_degradation_factor df' = true
  /\ has_knee df' = true
  /\ map object_name (rows df') = map object_name (rows Sample.stale_file)
  /\ map sample_of_row (rows df') = map sample_of_row (rows Sample.stale_file)
  /\ (if has_degradation_factor Sample.stale_file
      then map degradation_factor (rows df')
           = map degradation_factor (rows Sample.stale_file)
      else calc_degradation_factor
             (map (fun r => float_of_Z (original_resolution_width r))
                (rows Sample.stale_file))
             (map (fun r => float_of_Z (original_resolution_height r))
                (rows Sample.stale_file))
             (map (fun r => float_of_Z (effective_resolution_width r))
                (rows Sample.stale_file))
             (map (fun r => float_of_Z (effective_resolution_height r))
                (rows Sample.stale_file))
           = Ok (map degradation_factor (rows df')))
  /\ Forall (fun r => knee r = false) (rows df').
Proof.
  intros df'. apply (prepare_keeps_columns Sample.stale_file df').
  vm_compute. reflexivity.
Defined.

(** ** Copying at the original resolution *)

Lemma degrade_one_copy (size : Z * Z) (dir : string) (w : World) (c : Z) (name : string) :
  snd (degrade_one size size dir (w, c) name) = c
  /\ (path_exists w name && path_exists w (Path.replace_image_ext_with_label name) = true ->
      val_image_filename_set (fst (degrade_one size size dir (w, c) name))
      = val_image_filename_set w).
Proof.
  unfold degrade_one. rewrite !Z.eqb_refl. cbn [andb].
  destruct (path_exists w name && path_exists w (Path.replace_image_ext_with_label name));
    [|split; [reflexivity | discriminate]].
  destruct (negb (path_exists w (Path.join dir (Path.basename name)))); cbn [fst snd];
    [|split; reflexivity].
  split; [reflexivity|]. intros _.
  exact (proj1 (proj2 (create_pair w _ _))).
Qed.

Lemma degrade_fold_copy (size : Z * Z) (dir : string) (names : list string) :
  forall (w : World) (c : Z),
    snd (fold_left (degrade_one size size dir) names (w, c)) = c
    /\ forall x, In x (working_set w) ->
                 path_exists w x && path_exists w (Path.replace_image_ext_with_label x) = true ->
                 In x (working_set (fst (fold_left (degrade_one size size dir) names (w, c)))).
Proof.
  induction names as [|name names IH]; intros w c; cbn [fold_left]; [now split|].
  destruct (degrade_one_copy size dir w c name) as [Hc Hkeep].
  destruct (degrade_one_step size size dir w c name) as [Hf Hstep].
  destruct (degrade_one size size dir (w, c) name) as [w1 c1]. cbn [fst snd] in *. subst c1.
  destruct (IH w1 c) as [IHc IHin]. split; [exact IHc|].
  intros x Hx Hex. apply IHin.
  - destruct Hstep as [(Hs & _)|(Hs & _)].
    + unfold working_set in *. now rewrite Hs.
    + destruct (String.eqb x name) eqn:E.
      * apply String.eqb_eq in E. subst x. unfold working_set in *.
        now rewrite (Hkeep Hex).
      * unfold working_set in *. rewrite Hs.
        destruct (val_image_filename_set w) as [s|]; cbn [option_map]; [|contradiction].
        apply filter_In. split; [exact Hx | now rewrite E].
  - apply andb_prop in Hex as [H1 H2]. now rewrite (Hf _ H1), (Hf _ H2).
Qed.

(** When the degraded size equals the original size the images are copied,
    not opened: the call never raises the corrupted counter, and an image of
    the working set whose file and label exist stays in the working set even
    when it is unreadable. *)
Theorem copy_never_corrupted (ctxt : Ctxt) (w : World) (size : Z * Z) (dir : string)
    (corrupted_counter num_images corrupted_counter' : Z) (w' : World) :
  degrade_images ctxt w size size dir corrupted_counter
  = Ok ((num_images, corrupted_counter'), w') ->
  corrupted_counter' = corrupted_counter
  /\ forall s x, val_image_filename_set w = Some s -> In x s ->
                 path_exists w x && path_exists w (Path.replace_image_ext_with_label x) = true ->
                 In x (working_set w').
Proof.
  unfold degrade_images.
  destruct (val_baseline_dir_of ctxt size) as [base|e]; cbn [bind]; [|discriminate].
  destruct (create_keeps w dir) as (Hs & Hl & _).
  unfold val_image_filenames_of. rewrite Hs, Hl.
  destruct (val_image_filename_set w) as [s|] eqn:Hset; cbn [bind].
  - destruct (degrade_fold_copy size dir s (create w dir) corrupted_counter) as [Hc Hin].
    destruct (fold_left _ s _) as [w1 c1]. cbn [fst snd] in *.
    intros H. injection H as _ <- <-. split; [exact Hc|].
    intros s0 x Hs0 Hx Hex. injection Hs0 as <-. apply Hin.
    + unfold working_set. now rewrite Hs.
    + apply andb_prop in Hex as [H1 H2]. now rewrite !path_exists_create, H1, H2.
  - destruct (listdir w base) as [names|]; cbn [bind]; [|discriminate].
    match goal with
    | |- context [fold_left ?f ?l (?w0, ?c0)] =>
        destruct (degrade_fold_copy size dir l w0 c0) as [Hc _];
        destruct (fold_left f l (w0, c0)) as [w1 c1]
    end.
    cbn [snd] in Hc. intros H. injection H as _ <- <-. split; [exact Hc | discriminate].
Qed.

Lemma copy_never_corrupted_witness :
  let w0 :=
    Sample.swept
      (degrade_images (Sample.ctxt None false) (Sample.disk None None)
         (100, 100)%Z (50, 50)%Z "pre/val/degraded_50x50" 0) in
  let w1 := set_val_image_filename_set w0
              (Some ["pre/val/baseline/a.jpg"; "pre/val/baseline/b.png"]%string) in
  let w' :=
    Sample.swept
      (degrade_images (Sample.ctxt None false) w1 (100, 100)%Z (100, 100)%Z
         "pre/val/degraded_100x100" 0) in
  0%Z = 0%Z
  /\ forall s x, val_image_filename_set w1 = Some s -> In x s ->
                 path_exists w1 x
                 && path_exists w1 (Path.replace_image_ext_with_label x) = true ->
                 In x (working_set w').
Proof.
  intros w0 w1 w'.
  apply (copy_never_corrupted (Sample.ctxt None false) w1 (100, 100)%Z
           "pre/val/degraded_100x100" 0 2 0 w').
  vm_compute. reflexivity.
Defined.

(** ** When calc_degradation_factor raises *)

Lemma mapM_sqrt_raises (l : list float) (e : exn) :
  mapM math_sqrt l = Raise e <->
  e = ValueError /\ existsb (fun a => (a <? 0)%float) l = true.
Proof.
  induction l as [|a l IH]; cbn [mapM existsb].
  - split; [discriminate | intros [_ H]; discriminate H].
  - unfold bind, math_sqrt at 1. destruct (a <? 0)%float; cbn [orb].
    + split; [intros H; injection H as <-; now split | intros [-> _]; reflexivity].
    + destruct (mapM math_sqrt l) as [bs|e'].
      * split; [discriminate|]. intros H. apply IH in H. discriminate H.
      * split.
        -- intros H. injection H as <-. now apply IH.
        -- intros H. apply IH in H. exact H.
Qed.

(** calc_degradation_factor raises exactly when the area ratio of some row
    is below zero, and then it raises ValueError (math.sqrt's domain error)
    for the whole table: no factor is returned for any row.  Ratios that are
    zero, infinite or NaN (a zero original dimension) do not raise. *)
Theorem calc_degradation_factor_raises_iff
    (orig_res_w orig_res_h eff_res_w eff_res_h : list float) (e : exn) :
  calc_degradation_factor orig_res_w orig_res_h eff_res_w eff_res_h = Raise e
  <-> e = ValueError
      /\ existsb (fun a => (a <? 0)%float)
           (area_ratios orig_res_w orig_res_h eff_res_w eff_res_h) = true.
Proof. unfold calc_degradation_factor, area_ratios. apply mapM_sqrt_raises. Qed.

(** ** A run with no search algorithm *)

Section Plain.

Variable KneeLocator : list float -> list float -> list float * list float.
Variable run_eval : World -> Z * Z -> Z * Z -> string -> World.
Variable ctxt : Ctxt.

Lemma calculate_knee_images (w w' : World) (class_name : string) (rs : list Row)
    (xy : list float * list float) :
  calculate_knee KneeLocator w class_name rs = Ok (xy, w') ->
  same_images w w' /\ exists events, knee_results w' = knee_results w ++ events.
Proof.
  unfold calculate_knee, same_images.
  destruct (calc_degradation_factor _ _ _ _) as [factors|e]; cbn [bind]; [|discriminate].
  assert (knee_results w = knee_results w ++ []) as Hnil by now rewrite app_nil_r.
  destruct (forallb _ _); [intros H; injection H as _ <-; now eauto 10|].
  destruct (_ || _); [intros H; injection H as _ <-; now eauto 10|].
  destruct (sorted _) as [|x xs] eqn:Ex; [intros H; injection H as _ <-; now eauto 10|].
  destruct (select _ (map _ rs)) as [|w0 ws]; [discriminate|].
  destruct (select _ (map _ rs)) as [|h0 hs]; [discriminate|].
  match goal with
  | |- bind ?m _ = _ -> _ => destruct m as [w1|e] eqn:Hr
  end; cbn [bind]; [|discriminate].
  intros H. injection H as _ <-.
  destruct (record_knees_log _ _ _ _ _ _ Hr) as ((_ & _ & H3 & H4 & H5 & H6) & Hlog & _).
  eauto 10.
Qed.

Lemma commit_images (w : World) (b : Binding) :
  same_images w (commit w b) /\ knee_results (commit w b) = knee_results w.
Proof. unfold commit, same_images. destruct (cached b); now repeat split. Qed.

Lemma process_class_plain_images (fuel : nat) (w : World) (b : Binding)
    (class_name : string) (w' : World) (b' : Binding) :
  binary_search ctxt = false ->
  process_class KneeLocator run_eval ctxt fuel (w, b) class_name = Ok (Some (w', b')) ->
  same_images w w' /\ exists events, knee_results w' = knee_results w ++ events.
Proof.
  intros Hb. unfold process_class.
  destruct (calculate_knee _ _ _ _) as [[[x_list y_list] w1]|e] eqn:Hck; cbn [bind];
    [|discriminate].
  destruct (calculate_knee_images _ _ _ _ _ Hck) as [(H1 & H2 & H3 & H4) [events Hlog]].
  unfold binary_search in Hb. rewrite Hb.
  destruct (first_knee x_list y_list) as [k|].
  - destruct (knee_index_labels _ _) as [labels|e]; cbn [bind]; [|discriminate].
    intros H. injection H as <- _.
    match goal with
    | |- context [commit w1 ?b1] =>
        destruct (commit_images w1 b1) as [(C1 & C2 & C3 & C4) Clog]
    end.
    unfold same_images. rewrite C1, C2, C3, C4, Clog, Hlog. eauto 10.
  - intros H. injection H as <- _. unfold same_images. eauto 10.
Qed.

Lemma for_classes_plain_images (fuel : nat) (class_names : list string) :
  binary_search ctxt = false ->
  forall (w : World) (b : Binding) (w' : World) (b' : Binding),
    for_classes KneeLocator run_eval ctxt fuel (w, b) class_names = Ok (Some (w', b')) ->
    same_images w w' /\ exists events, knee_results w' = knee_results w ++ events.
Proof.
  intros Hb. induction class_names as [|c cs IH]; intros w b w' b'; cbn [for_classes].
  - intros H. injection H as <- _. unfold same_images.
    split; [now repeat split|]. exists []. now rewrite app_nil_r.
  - destruct (process_class KneeLocator run_eval ctxt fuel (w, b) c)
      as [[[w1 b1]|]|e] eqn:Hp; cbn [bind]; try discriminate.
    intros H.
    destruct (process_class_plain_images _ _ _ _ _ _ Hb Hp)
      as [(H1 & H2 & H3 & H4) [ev1 Hl1]].
    destruct (IH _ _ _ _ H) as [(I1 & I2 & I3 & I4) [ev2 Hl2]].
    unfold same_images. rewrite I1, I2, I3, I4, Hl2, Hl1, <- app_assoc. eauto 10.
Qed.

(** With no search algorithm configured, everything the run does to the
    images happens in the evaluation sweep: from the end of the sweep to the
    end of the run the files on disk and the working set stay as they are, the
    knee log only grows, and the run ends by writing the results file. *)
Theorem plain_run_keeps_images (fuel : nat) (w : World) (report : Z * Z) (w1 w' : World) :
  binary_search ctxt = false ->
  run_eval_on_degraded_images run_eval ctxt
    (if clean_subdir ctxt then set_eval_results_file w None else w) = Ok (report, w1) ->
  run_knee_discovery KneeLocator run_eval ctxt fuel w = Ok (Completed w') ->
  same_images w1 w'
  /\ (exists events, knee_results w' = knee_results w1 ++ events)
  /\ exists df, eval_results_file w' = Some df.
Proof.
  intros Hb Hsweep. unfold run_knee_discovery. rewrite Hsweep. cbn [bind].
  destruct (load_results w1) as [b0|]; [|discriminate].
  destruct (prepare (results_df b0)) as [df0|e]; cbn [bind]; [|discriminate].
  match goal with
  | |- context [for_classes _ _ _ fuel (commit w1 ?b1, _) ?cs] =>
      destruct (commit_images w1 b1) as [(C1 & C2 & C3 & C4) Clog];
      destruct (for_classes KneeLocator run_eval ctxt fuel (commit w1 b1, b1) cs)
        as [[[w2 b2]|]|e] eqn:Hfc
  end; cbn [bind]; try discriminate.
  destruct (for_classes_plain_images _ _ Hb _ _ _ _ Hfc) as [(F1 & F2 & F3 & F4) [events Hlog]].
  intros H. injection H as <-.
  rewrite C1 in F1. rewrite C2 in F2. rewrite C3 in F3. rewrite C4 in F4.
  rewrite Clog in Hlog.
  unfold same_images.
  destruct (cache_results ctxt);
    cbn [set_results_cache_df set_eval_results_file val_image_filename_set files listdir
         unreadable knee_results eval_results_file]; eauto 10.
Qed.

End Plain.

Lemma plain_run_keeps_images_witness :
  let w1 :=
    Sample.swept
      (run_eval_on_degraded_images (Sample.run_eval ["car"; "truck"]%string)
         (Sample.ctxt None false) (Sample.disk None None)) in
  let w' :=
    Sample.completed
      (run_knee_discovery Sample.locator (Sample.run_eval ["car"; "truck"]%string)
         (Sample.ctxt None false) 10 (Sample.disk None None)) in
  same_images w1 w'
  /\ (exists events, knee_results w' = knee_results w1 ++ events)
  /\ exists df, eval_results_file w' = Some df.
Proof.
  intros w1 w'.
  apply (plain_run_keeps_images Sample.locator (Sample.run_eval ["car"; "truck"]%string)
           (Sample.ctxt None false) 10 (Sample.disk None None) (1, 2)%Z w1 w').
  - reflexivity.
  - vm_compute. reflexivity.
  - vm_compute. reflexivity.
Defined.
